(** * ApplicationSettings of Qt Quick Effect Maker

    A shallow embedding of [src/applicationsettings.cpp]: the two list models
    ([ImagesModel], [MenusModel]) and the [ApplicationSettings] facade that
    keeps them in step with a [QSettings] store, followed by the properties
    of the specification that concern them.

    Qt itself is not part of the repository, so the few Qt classes the file
    uses are modelled here from their documented behaviour:
    - [QString] is [string], [int] and [qsizetype] are [Z] (no arithmetic of
      the file can leave the range of [int]: it only counts list positions);
    - [QList] is [list]; the accessors that Qt 6 guards with an assertion
      ([at], [removeAt], [move], [removeLast], [first]) return [None] outside
      their domain;
    - [QSettings] is a finite map from full keys to [QVariant]s.  The group
      stack is empty between any two calls of the class, so inside
      [beginReadArray p] / [beginWriteArray p] with [setArrayIndex i] the
      full key of [k] is [p/(i+1)/k], and the array size lives in [p/size].
    - the collaborators ([QUrl::toLocalFile], [QImageReader],
      [EffectManager::relativeToAbsolutePath], the macro [QQEM_DATA_PATH])
      are parameters of the development. *)

From Stdlib Require Import ZArith Lia Ascii.
From stdpp Require Import base option list gmap strings pretty.

Local Open Scope Z_scope.

(** ** QVariant and its conversions *)

Inductive QVariant : Type :=
| QInvalid
| QBool (b : bool)
| QInt (i : Z)
| QString (s : string)
| QStringList (l : list string).

Definition INT_MIN : Z := - 2 ^ 31.
Definition INT_MAX : Z := 2 ^ 31 - 1.

Definition isEmpty (s : string) : bool :=
  match s with EmptyString => true | String _ _ => false end.

Fixpoint parse_digits (s : string) (acc : N) : option N :=
  match s with
  | EmptyString => Some acc
  | String c s' =>
      match Ascii.is_nat c with
      | Some d => parse_digits s' (acc * 10 + N.of_nat d)%N
      | None => None
      end
  end.

Definition parse_unsigned (s : string) : option Z :=
  if isEmpty s then None else Z.of_N <$> parse_digits s 0%N.

(** [QString::toInt]: an optional sign and decimal digits; 0 when the text is
    not a number or does not fit an [int].  (Qt also skips surrounding white
    space; no value written by this class has any.) *)
Definition QString_toInt (s : string) : Z :=
  let r := match s with
           | String "-"%char t => Z.opp <$> parse_unsigned t
           | String "+"%char t => parse_unsigned t
           | _ => parse_unsigned s
           end in
  match r with
  | Some z => if bool_decide (INT_MIN ≤ z ≤ INT_MAX) then z else 0
  | None => 0
  end.

Definition ascii_toLower (c : Ascii.ascii) : Ascii.ascii :=
  let n := Ascii.N_of_ascii c in
  if bool_decide (65 ≤ n ≤ 90)%N then Ascii.ascii_of_N (n + 32) else c.

Fixpoint QString_toLower (s : string) : string :=
  match s with
  | EmptyString => EmptyString
  | String c s' => String (ascii_toLower c) (QString_toLower s')
  end.

Definition toString (v : QVariant) : string :=
  match v with
  | QString s => s
  | QInt i => pretty i
  | QBool b => if b then "true" else "false"
  | QStringList [s] => s
  | _ => ""
  end.

Definition toInt (v : QVariant) : Z :=
  match v with
  | QInt i => i
  | QBool b => if b then 1 else 0
  | QString s => QString_toInt s
  | _ => 0
  end.

Definition toBool (v : QVariant) : bool :=
  match v with
  | QBool b => b
  | QInt i => negb (i =? 0)
  | QString s =>
      let l := QString_toLower s in
      negb (String.eqb l "0" || String.eqb l "false" || isEmpty l)
  | _ => false
  end.

Definition toStringList (v : QVariant) : list string :=
  match v with
  | QStringList l => l
  | QString s => [s]
  | _ => []
  end.

(** ** QList *)

Definition QList_size {A} (l : list A) : Z := Z.of_nat (length l).

Definition QList_at {A} (l : list A) (i : Z) : option A :=
  if bool_decide (0 ≤ i < QList_size l) then l !! Z.to_nat i else None.

Definition QList_removeAt {A} (l : list A) (i : Z) : option (list A) :=
  if bool_decide (0 ≤ i < QList_size l) then Some (delete (Z.to_nat i) l)
  else None.

Definition QList_isEmpty {A} (l : list A) : bool :=
  match l with [] => true | _ => false end.

Definition QList_first {A} (l : list A) : option A := head l.

Definition QList_removeLast {A} (l : list A) : option (list A) :=
  match l with [] => None | _ => Some (removelast l) end.

Definition QList_move {A} (l : list A) (from to : Z) : option (list A) :=
  if bool_decide (0 ≤ from < QList_size l) && bool_decide (0 ≤ to < QList_size l)
  then
    if from =? to then Some l
    else
      match l !! Z.to_nat from with
      | Some x =>
          let l' := delete (Z.to_nat from) l in
          Some (take (Z.to_nat to) l' ++ x :: drop (Z.to_nat to) l')
      | None => None
      end
  else None.

Definition QStringList_contains (l : list string) (s : string) : bool :=
  existsb (String.eqb s) l.

(** ** The constants of the file *)

Definition defaultSources : list string :=
  [ "defaultnodes/images/qt_logo_green_rgb.png";
    "defaultnodes/images/quit_logo.png";
    "defaultnodes/images/whitecircle.png";
    "defaultnodes/images/blackcircle.png" ].

Definition defaultBackgrounds : list string :=
  [ "images/background_dark.jpg";
    "images/background_light.jpg";
    "images/background_colorful.jpg" ].

Definition KEY_CUSTOM_SOURCE_IMAGES : string := "customSourceImages".
Definition KEY_RECENT_PROJECTS : string := "recentProjects".
Definition KEY_PROJECT_NAME : string := "projectName".
Definition KEY_PROJECT_FILE : string := "projectFile".
Definition KEY_LEGACY_SHADERS : string := "useLegacyShaders".
Definition KEY_CODE_FONT_FILE : string := "codeFontFile".
Definition KEY_CODE_FONT_SIZE : string := "codeFontSize".

Definition DEFAULT_CODE_FONT_FILE : string := "fonts/SourceCodePro-Regular.ttf".
Definition DEFAULT_CODE_FONT_SIZE : Z := 14.

(** ** Observable effects

    Signals, model resets, warnings, calls into the effect manager and
    writes to the store are recorded, oldest first. *)

Inductive Model : Type := SourceImages | BackgroundImages | RecentProjects.

Inductive Event : Type :=
| BeginResetModel (m : Model)
| EndResetModel (m : Model)
| Emit (signal : string)
| QWarning (msg : string)
| SettingsSetValue (key : string) (v : QVariant)
| SettingsRemove (key : string)
| EffectManagerCall (method : string).

(** ** QModelIndex

    [isValid] is Qt's: a row and a column that are not negative, and a model. *)

Record QModelIndex : Type := {
  row : Z;
  column : Z;
  hasModel : bool
}.

Definition isValid (index : QModelIndex) : bool :=
  (row index >=? 0) && (column index >=? 0) && hasModel index.

(** ** ImagesModel *)

Module ImagesModel.

Record ImagesData : Type := {
  name : string;
  file : string;
  width : Z;
  height : Z;
  canRemove : bool
}.

(** Modelled from the spec: the in-class initialisers of [ImagesData] are in
    applicationsettings.h, which is not among the sources; a background
    entry, which sets [file] only, has no dimensions and is not removable. *)
Definition ImagesData_default : ImagesData :=
  {| name := ""; file := ""; width := 0; height := 0; canRemove := false |}.

Record t : Type := {
  m_modelList : list ImagesData;
  m_currentIndex : Z
}.

(** The constructor leaves the list empty; the initial [m_currentIndex] is
    set in applicationsettings.h and is taken as an argument. *)
Definition new (currentIndex : Z) : t :=
  {| m_modelList := []; m_currentIndex := currentIndex |}.

Definition rowCount (m : t) : Z := QList_size (m_modelList m).

Definition setImageIndex (m : t) (index : Z) : t * list Event :=
  if m_currentIndex m =? index then (m, [])
  else ({| m_modelList := m_modelList m; m_currentIndex := index |},
        [Emit "currentImageFileChanged"]).

(** [None] is the out-of-range [QList::at]. *)
Definition currentImageFile (m : t) : option string :=
  if QList_size (m_modelList m) >? m_currentIndex m
  then file <$> QList_at (m_modelList m) (m_currentIndex m)
  else Some "".

(** The values of the enumeration [ImagesModelRoles] are set in
    applicationsettings.h and are taken as parameters. *)
Section Roles.

Variables Name File Width Height CanRemove : Z.

Definition roleNames : gmap Z string :=
  <[CanRemove := "canRemove"]>
    (<[Height := "height"]>
       (<[Width := "width"]>
          (<[File := "file"]>
             (<[Name := "name"]> ∅)))).

(** [None] is the out-of-range [operator[]]. *)
Definition data (m : t) (index : QModelIndex) (role : Z) : option QVariant :=
  if negb (isValid index) then Some QInvalid
  else if row index >=? QList_size (m_modelList m) then Some QInvalid
  else
    match QList_at (m_modelList m) (row index) with
    | None => None
    | Some item =>
        Some
          (if role =? Name then QString (name item)
           else if role =? File then QString (file item)
           else if role =? Width then QInt (width item)
           else if role =? Height then QInt (height item)
           else if role =? CanRemove then QBool (canRemove item)
           else QInvalid)
    end.

End Roles.

End ImagesModel.

(** ** MenusModel *)

Module MenusModel.

Record MenusData : Type := {
  name : string;
  file : string
}.

Record t : Type := {
  m_modelList : list MenusData
}.

Definition new : t := {| m_modelList := [] |}.

Definition rowCount (m : t) : Z := QList_size (m_modelList m).

(** The values of the enumeration [MenusModelRoles] are set in
    applicationsettings.h and are taken as parameters. *)
Section Roles.

Variables Name File : Z.

Definition roleNames : gmap Z string :=
  <[File := "file"]> (<[Name := "name"]> ∅).

(** [None] is the out-of-range [operator[]]. *)
Definition data (m : t) (index : QModelIndex) (role : Z) : option QVariant :=
  if negb (isValid index) then Some QInvalid
  else if row index >=? QList_size (m_modelList m) then Some QInvalid
  else
    match QList_at (m_modelList m) (row index) with
    | None => None
    | Some item =>
        Some
          (if role =? Name then QString (name item)
           else if role =? File then QString (file item)
           else QInvalid)
    end.

End Roles.

End MenusModel.

(** ** QSettings *)

Definition is_subkey (key k : string) : bool :=
  String.eqb k key || String.prefix (key +:+ "/") k.

Definition QSettings_value (st : gmap string QVariant) (key : string)
    (defaultValue : QVariant) : QVariant :=
  default defaultValue (st !! key).

Definition QSettings_setValue (st : gmap string QVariant) (key : string)
    (v : QVariant) : gmap string QVariant :=
  <[key := v]> st.

(** [QSettings::remove] removes the key and every sub-setting of it. *)
Definition QSettings_remove (st : gmap string QVariant) (key : string)
    : gmap string QVariant :=
  filter (λ kv : string * QVariant, is_subkey key kv.1 = false) st.

Definition sizeKey (prefix : string) : string := prefix +:+ "/size".

(** The full key of [key] after [setArrayIndex i] in the array [prefix]. *)
Definition arrayKey (prefix : string) (i : Z) (key : string) : string :=
  prefix +:+ "/" +:+ pretty (Z.max i 0 + 1) +:+ "/" +:+ key.

(** ** ApplicationSettings: state and the monad of its member functions *)

Record ApplicationSettings : Type := {
  m_sourceImagesModel : ImagesModel.t;
  m_backgroundImagesModel : ImagesModel.t;
  m_recentProjectsModel : MenusModel.t;
  m_settings : gmap string QVariant;
  trace : list Event
}.

(** A member function reads and updates the object and may hit an assertion
    of Qt ([None]). *)
Definition M (A : Type) : Type := ApplicationSettings → option (A * ApplicationSettings).

#[global] Instance M_ret : MRet M := λ A a s, Some (a, s).
#[global] Instance M_bind : MBind M := λ A B f m s,
  match m s with
  | Some (a, s') => f a s'
  | None => None
  end.

Definition fault {A} : M A := λ _, None.
Definition gets {A} (f : ApplicationSettings → A) : M A := λ s, Some (f s, s).
Definition modify (f : ApplicationSettings → ApplicationSettings) : M unit :=
  λ s, Some (tt, f s).
Definition assertSome {A} (o : option A) : M A :=
  match o with Some a => mret a | None => fault end.

Definition set_sourceImages (l : list ImagesModel.ImagesData)
    (s : ApplicationSettings) : ApplicationSettings :=
  {| m_sourceImagesModel :=
       {| ImagesModel.m_modelList := l;
          ImagesModel.m_currentIndex :=
            ImagesModel.m_currentIndex (m_sourceImagesModel s) |};
     m_backgroundImagesModel := m_backgroundImagesModel s;
     m_recentProjectsModel := m_recentProjectsModel s;
     m_settings := m_settings s;
     trace := trace s |}.

Definition set_backgroundImages (l : list ImagesModel.ImagesData)
    (s : ApplicationSettings) : ApplicationSettings :=
  {| m_sourceImagesModel := m_sourceImagesModel s;
     m_backgroundImagesModel :=
       {| ImagesModel.m_modelList := l;
          ImagesModel.m_currentIndex :=
            ImagesModel.m_currentIndex (m_backgroundImagesModel s) |};
     m_recentProjectsModel := m_recentProjectsModel s;
     m_settings := m_settings s;
     trace := trace s |}.

Definition set_recentProjects (l : list MenusModel.MenusData)
    (s : ApplicationSettings) : ApplicationSettings :=
  {| m_sourceImagesModel := m_sourceImagesModel s;
     m_backgroundImagesModel := m_backgroundImagesModel s;
     m_recentProjectsModel := {| MenusModel.m_modelList := l |};
     m_settings := m_settings s;
     trace := trace s |}.

Definition set_settings (st : gmap string QVariant)
    (s : ApplicationSettings) : ApplicationSettings :=
  {| m_sourceImagesModel := m_sourceImagesModel s;
     m_backgroundImagesModel := m_backgroundImagesModel s;
     m_recentProjectsModel := m_recentProjectsModel s;
     m_settings := st;
     trace := trace s |}.

Definition log (e : Event) : M unit :=
  modify (λ s,
    {| m_sourceImagesModel := m_sourceImagesModel s;
       m_backgroundImagesModel := m_backgroundImagesModel s;
       m_recentProjectsModel := m_recentProjectsModel s;
       m_settings := m_settings s;
       trace := trace s ++ [e] |}).

Definition sourceImages (s : ApplicationSettings) : list ImagesModel.ImagesData :=
  ImagesModel.m_modelList (m_sourceImagesModel s).
Definition backgroundImages (s : ApplicationSettings) : list ImagesModel.ImagesData :=
  ImagesModel.m_modelList (m_backgroundImagesModel s).
Definition recentProjects (s : ApplicationSettings) : list MenusModel.MenusData :=
  MenusModel.m_modelList (m_recentProjectsModel s).

Definition qWarning (msg : string) : M unit := log (QWarning msg).
Definition beginResetModel (m : Model) : M unit := log (BeginResetModel m).
Definition endResetModel (m : Model) : M unit := log (EndResetModel m).
Definition emit (signal : string) : M unit := log (Emit signal).

(** *** m_settings *)

Definition settings_value (key : string) (defaultValue : QVariant) : M QVariant :=
  gets (λ s, QSettings_value (m_settings s) key defaultValue).

Definition settings_setValue (key : string) (v : QVariant) : M unit :=
  modify (λ s, set_settings (QSettings_setValue (m_settings s) key v) s);;
  log (SettingsSetValue key v).

Definition settings_remove (key : string) : M unit :=
  modify (λ s, set_settings (QSettings_remove (m_settings s) key) s);;
  log (SettingsRemove key).

Definition settings_beginReadArray (prefix : string) : M Z :=
  v ← settings_value (sizeKey prefix) QInvalid;
  mret (toInt v).

(** [beginWriteArray prefix] with the default size -1 drops the recorded
    size; [endArray] then records the largest index set, plus one. *)
Definition settings_beginWriteArray (prefix : string) : M unit :=
  settings_remove (sizeKey prefix).

Definition settings_endWriteArray (prefix : string) (sizeGuess : Z) : M unit :=
  settings_setValue (sizeKey prefix) (QInt sizeGuess).

(** ** The member functions of ApplicationSettings *)

Section ApplicationSettings.

(** [QUrl(path).toLocalFile()]. *)
Variable toLocalFile : string → string.
(** [QImageReader(file)]: the size when [canRead()], else [None]. *)
Variable imageReader : string → option (Z * Z).
(** [EffectManager::relativeToAbsolutePath] and the macro [QQEM_DATA_PATH]. *)
Variable relativeToAbsolutePath : string → string → string.
Variable QQEM_DATA_PATH : string.

Definition addSourceImage (sourceImage : string) (canRemove : bool) : M bool :=
  if isEmpty sourceImage then mret false
  else
    sources ← gets sourceImages;
    (* Check for duplicates *)
    if existsb (λ source, String.eqb (ImagesModel.file source) sourceImage) sources
    then
      qWarning "Image already exists in the model, so not adding";;
      mret false
    else
      let sourceImageFile := toLocalFile sourceImage in
      imageSize ←
        match imageReader sourceImageFile with
        | Some size => mret size
        | None => qWarning ("Can't read image: " +:+ sourceImage);; mret (0, 0)
        end;
      beginResetModel SourceImages;;
      let d := {| ImagesModel.name := ImagesModel.name ImagesModel.ImagesData_default;
                  ImagesModel.file := sourceImage;
                  ImagesModel.width := imageSize.1;
                  ImagesModel.height := imageSize.2;
                  ImagesModel.canRemove := canRemove |} in
      modify (λ s, set_sourceImages (sourceImages s ++ [d]) s);;
      endResetModel SourceImages;;
      (if canRemove then
         (* Non-default images are added also into settings *)
         v ← settings_value KEY_CUSTOM_SOURCE_IMAGES QInvalid;
         let customSources := toStringList v in
         if negb (QStringList_contains customSources (ImagesModel.file d)) then
           settings_setValue KEY_CUSTOM_SOURCE_IMAGES
             (QStringList (customSources ++ [ImagesModel.file d]))
         else mret tt
       else mret tt);;
      mret true.

Definition removeSourceImage (index : Z) : M bool :=
  sources ← gets sourceImages;
  if (index <? 0) || (index >=? QList_size sources) then mret false
  else
    beginResetModel SourceImages;;
    sources' ← assertSome (QList_removeAt sources index);
    modify (set_sourceImages sources');;
    endResetModel SourceImages;;
    v ← settings_value KEY_CUSTOM_SOURCE_IMAGES QInvalid;
    let customSources := toStringList v in
    customSources' ← assertSome
      (QList_removeAt customSources (index - QList_size defaultSources));
    settings_setValue KEY_CUSTOM_SOURCE_IMAGES (QStringList customSources');;
    mret true.

(** Recent projects menu will contain max this amount of item *)
Definition max_items : Z := 6.

Definition readRecentProject (st : gmap string QVariant) (i : Z)
    : MenusModel.MenusData :=
  {| MenusModel.name :=
       toString (QSettings_value st (arrayKey KEY_RECENT_PROJECTS i KEY_PROJECT_NAME) QInvalid);
     MenusModel.file :=
       toString (QSettings_value st (arrayKey KEY_RECENT_PROJECTS i KEY_PROJECT_FILE) QInvalid) |}.

(** The read loop of [updateRecentProjectsModel], from index [i] on.  The
    break at [max_items] bounds the number of rounds, which [fuel] counts. *)
Fixpoint readRecentProjects (fuel : nat) (st : gmap string QVariant)
    (projectFile : string) (size i : Z)
    (recentProjectsList : list MenusModel.MenusData) (projectListIndex : Z)
    : list MenusModel.MenusData * Z :=
  match fuel with
  | O => (recentProjectsList, projectListIndex)
  | S fuel' =>
      if negb (i <? size) then (recentProjectsList, projectListIndex)
      else if i >=? max_items then (recentProjectsList, projectListIndex)
      else
        let d := readRecentProject st i in
        if negb (isEmpty (MenusModel.name d)) && negb (isEmpty (MenusModel.file d))
        then
          let recentProjectsList' := recentProjectsList ++ [d] in
          let projectListIndex' :=
            if String.eqb (MenusModel.file d) projectFile
            then QList_size recentProjectsList' - 1
            else projectListIndex in
          readRecentProjects fuel' st projectFile size (i + 1)
            recentProjectsList' projectListIndex'
        else
          readRecentProjects fuel' st projectFile size (i + 1)
            recentProjectsList projectListIndex
  end.

(** The write loop of [updateRecentProjectsModel]: entry [i] onwards;
    returns the size that [endArray] will record. *)
Fixpoint writeRecentProjects (l : list MenusModel.MenusData) (i sizeGuess : Z)
    : M Z :=
  match l with
  | [] => mret sizeGuess
  | d :: l' =>
      settings_setValue (arrayKey KEY_RECENT_PROJECTS i KEY_PROJECT_NAME)
        (QString (MenusModel.name d));;
      settings_setValue (arrayKey KEY_RECENT_PROJECTS i KEY_PROJECT_FILE)
        (QString (MenusModel.file d));;
      writeRecentProjects l' (i + 1) (Z.max sizeGuess (Z.max i 0 + 1))
  end.

(** The guard of the early return. *)
Definition alreadyFirst (s : ApplicationSettings) (projectFile : string) : bool :=
  negb (isEmpty projectFile)
  && negb (QList_isEmpty (recentProjects s))
  && match QList_first (recentProjects s) with
     | Some d => String.eqb (MenusModel.file d) projectFile
     | None => false
     end.

(** The list part of the block "Update model if entry was given": add the
    entry first when the file was not found, or move it on top, then drop the
    last entry when there are more than [max_items]. *)
Definition addOrMoveFirst (projectName projectFile : string)
    (recentProjectsList : list MenusModel.MenusData) (projectListIndex : Z)
    : option (list MenusModel.MenusData) :=
  l ←
    (if projectListIndex =? -1 then
       (* If file isn't in the list, add it first *)
       Some ({| MenusModel.name := projectName;
                MenusModel.file := projectFile |} :: recentProjectsList)
     else if projectListIndex >? 0 then
       (* Or move it on top *)
       QList_move recentProjectsList projectListIndex 0
     else Some recentProjectsList);
  if QList_size l >? max_items then QList_removeLast l else Some l.

(** The block "Write to settings". *)
Definition writeRecentProjectsArray (l : list MenusModel.MenusData) : M unit :=
  settings_beginWriteArray KEY_RECENT_PROJECTS;;
  sizeGuess ← writeRecentProjects l 0 0;
  settings_endWriteArray KEY_RECENT_PROJECTS sizeGuess.

(** Updates the recent projects model by adding / moving projectFile to first. *)
Definition updateRecentProjectsModel (projectName projectFile : string) : M unit :=
  s ← gets id;
  if alreadyFirst s projectFile then
    (* First element of the recent projects list is already the
       selected project, so nothing to update here. *)
    mret tt
  else
    (* Read from settings *)
    size ← settings_beginReadArray KEY_RECENT_PROJECTS;
    st ← gets m_settings;
    let '(recentProjectsList, projectListIndex) :=
      readRecentProjects (S (Z.to_nat max_items)) st projectFile size 0 [] (-1) in
    (* Update model if entry was given *)
    recentProjectsList ←
      (if negb (isEmpty projectName) && negb (isEmpty projectFile) then
         l ← assertSome (addOrMoveFirst projectName projectFile
                           recentProjectsList projectListIndex);
         writeRecentProjectsArray l;;
         mret l
       else mret recentProjectsList);
    beginResetModel RecentProjects;;
    modify (set_recentProjects recentProjectsList);;
    endResetModel RecentProjects.

Definition clearRecentProjectsModel : M unit :=
  settings_beginWriteArray KEY_RECENT_PROJECTS;;
  settings_endWriteArray KEY_RECENT_PROJECTS 0;;
  beginResetModel RecentProjects;;
  modify (set_recentProjects []);;
  endResetModel RecentProjects.

(** The scan of [removeRecentProjectsModel], from index [i] on; [fuel] is
    the number of indices left below [size]. *)
Fixpoint removeRecentProjectsScan (fuel : nat) (projectFile : string)
    (size i : Z) : M unit :=
  match fuel with
  | O => mret tt
  | S fuel' =>
      if negb (i <? size) then mret tt
      else
        v ← settings_value (arrayKey KEY_RECENT_PROJECTS i KEY_PROJECT_FILE) QInvalid;
        let filename := toString v in
        if String.eqb filename projectFile then
          settings_remove (arrayKey KEY_RECENT_PROJECTS i KEY_PROJECT_NAME);;
          settings_remove (arrayKey KEY_RECENT_PROJECTS i KEY_PROJECT_FILE);;
          beginResetModel RecentProjects;;
          l ← gets recentProjects;
          l' ← assertSome (QList_removeAt l i);
          modify (set_recentProjects l');;
          endResetModel RecentProjects
        else removeRecentProjectsScan fuel' projectFile size (i + 1)
  end.

Definition removeRecentProjectsModel (projectFile : string) : M unit :=
  size ← settings_beginReadArray KEY_RECENT_PROJECTS;
  removeRecentProjectsScan (Z.to_nat size) projectFile size 0.

Definition useLegacyShaders (s : ApplicationSettings) : bool :=
  toBool (QSettings_value (m_settings s) KEY_LEGACY_SHADERS (QBool false)).

Definition setUseLegacyShaders (legacyShaders : bool) : M unit :=
  current ← gets useLegacyShaders;
  if Bool.eqb current legacyShaders then mret tt
  else
    settings_setValue KEY_LEGACY_SHADERS (QBool legacyShaders);;
    emit "useLegacyShadersChanged";;
    log (EffectManagerCall "updateBakedShaderVersions");;
    log (EffectManagerCall "doBakeShaders").

Definition codeFontFile (s : ApplicationSettings) : string :=
  toString (QSettings_value (m_settings s) KEY_CODE_FONT_FILE
              (QString DEFAULT_CODE_FONT_FILE)).

Definition codeFontSize (s : ApplicationSettings) : Z :=
  toInt (QSettings_value (m_settings s) KEY_CODE_FONT_SIZE
           (QInt DEFAULT_CODE_FONT_SIZE)).

Definition setCodeFontFile (font : string) : M unit :=
  current ← gets codeFontFile;
  if String.eqb current font then mret tt
  else
    settings_setValue KEY_CODE_FONT_FILE (QString font);;
    emit "codeFontFileChanged".

Definition setCodeFontSize (size : Z) : M unit :=
  current ← gets codeFontSize;
  if current =? size then mret tt
  else
    settings_setValue KEY_CODE_FONT_SIZE (QInt size);;
    emit "codeFontSizeChanged".

Definition resetCodeFont : M unit :=
  setCodeFontFile DEFAULT_CODE_FONT_FILE;;
  setCodeFontSize DEFAULT_CODE_FONT_SIZE.

(** The constructor, over the persisted contents of the store. *)
Variable initialImageIndex : Z.

Fixpoint addDefaultSources (l : list string) : M unit :=
  match l with
  | [] => mret tt
  | source :: l' =>
      let absolutePath := relativeToAbsolutePath source QQEM_DATA_PATH in
      addSourceImage absolutePath false;;
      addDefaultSources l'
  end.

Fixpoint addCustomSources (l : list string) : M unit :=
  match l with
  | [] => mret tt
  | source :: l' => addSourceImage source true;; addCustomSources l'
  end.

Fixpoint addDefaultBackgrounds (l : list string) : M unit :=
  match l with
  | [] => mret tt
  | source :: l' =>
      let d := {| ImagesModel.name := ImagesModel.name ImagesModel.ImagesData_default;
                  ImagesModel.file := source;
                  ImagesModel.width := ImagesModel.width ImagesModel.ImagesData_default;
                  ImagesModel.height := ImagesModel.height ImagesModel.ImagesData_default;
                  ImagesModel.canRemove :=
                    ImagesModel.canRemove ImagesModel.ImagesData_default |} in
      modify (λ s, set_backgroundImages (backgroundImages s ++ [d]) s);;
      addDefaultBackgrounds l'
  end.

Definition ApplicationSettings_new (persisted : gmap string QVariant)
    : option ApplicationSettings :=
  let s0 := {| m_sourceImagesModel := ImagesModel.new initialImageIndex;
               m_backgroundImagesModel := ImagesModel.new initialImageIndex;
               m_recentProjectsModel := MenusModel.new;
               m_settings := persisted;
               trace := [] |} in
  snd <$>
    ((* Add default Sources *)
     addDefaultSources defaultSources;;
     (* Add custom sources from settings *)
     v ← settings_value KEY_CUSTOM_SOURCE_IMAGES QInvalid;
     addCustomSources (toStringList v);;
     (* Add default backgrounds *)
     addDefaultBackgrounds defaultBackgrounds) s0.

(** A sequence of calls of [updateRecentProjectsModel]. *)
Fixpoint updateRecentProjectsCalls (calls : list (string * string)) : M unit :=
  match calls with
  | [] => mret tt
  | (projectName, projectFile) :: calls' =>
      updateRecentProjectsModel projectName projectFile;;
      updateRecentProjectsCalls calls'
  end.

End ApplicationSettings.

(** ** What the store holds, as the class reads it back *)

(** The persisted list of custom source images. *)
Definition customSourceImages (st : gmap string QVariant) : list string :=
  toStringList (QSettings_value st KEY_CUSTOM_SOURCE_IMAGES QInvalid).

(** The recorded size of the persisted array of recent projects. *)
Definition recentProjectsSize (st : gmap string QVariant) : Z :=
  toInt (QSettings_value st (sizeKey KEY_RECENT_PROJECTS) QInvalid).

(** The persisted array of recent projects: entries 0 .. size-1. *)
Definition persistedRecentProjects (st : gmap string QVariant)
    : list MenusModel.MenusData :=
  (λ i : nat, readRecentProject st (Z.of_nat i))
    <$> seq 0 (Z.to_nat (recentProjectsSize st)).

Definition wellFormed (d : MenusModel.MenusData) : bool :=
  negb (isEmpty (MenusModel.name d)) && negb (isEmpty (MenusModel.file d)).

(** The list a load yields: the first [max_items] slots of the persisted
    array, without the malformed entries. *)
Definition loadedRecentProjects (st : gmap string QVariant)
    : list MenusModel.MenusData :=
  List.filter wellFormed (take (Z.to_nat max_items) (persistedRecentProjects st)).

(** A call is effective when an entry was given. *)
Definition effective (call : string * string) : bool :=
  negb (isEmpty call.1) && negb (isEmpty call.2).

(** The file of the last effective call of a sequence, if any. *)
Definition lastEffectiveFile (calls : list (string * string)) : option string :=
  snd <$> last (List.filter effective calls).

Definition emptyState : ApplicationSettings :=
  {| m_sourceImagesModel := ImagesModel.new 0;
     m_backgroundImagesModel := ImagesModel.new 0;
     m_recentProjectsModel := MenusModel.new;
     m_settings := ∅;
     trace := [] |}.

Definition entry (name file : string) : MenusModel.MenusData :=
  {| MenusModel.name := name; MenusModel.file := file |}.


(** The models and the store of two states agree (their traces may not). *)
Definition same_data (s s' : ApplicationSettings) : Prop :=
  m_sourceImagesModel s' = m_sourceImagesModel s ∧
  m_backgroundImagesModel s' = m_backgroundImagesModel s ∧
  m_recentProjectsModel s' = m_recentProjectsModel s ∧
  m_settings s' = m_settings s.

(** The value the read loop leaves in [projectListIndex]: the last position,
    counted from [pos], of an entry of [l] with file [projectFile]; [idx]
    when there is none. *)
Fixpoint projectListIndexOf (projectFile : string)
    (l : list MenusModel.MenusData) (pos idx : Z) : Z :=
  match l with
  | [] => idx
  | d :: l' =>
      projectListIndexOf projectFile l' (pos + 1)
        (if String.eqb (MenusModel.file d) projectFile then pos else idx)
  end.

(** The recent-projects invariant: the model mirrors the persisted array,
    every entry has a name and a file, there are at most [max_items]
    entries, and no file occurs twice. *)
Definition recentProjectsInvariant (s : ApplicationSettings) : Prop :=
  persistedRecentProjects (m_settings s) = recentProjects s ∧
  Forall (λ d, wellFormed d = true) (recentProjects s) ∧
  QList_size (recentProjects s) ≤ max_items ∧
  NoDup (MenusModel.file <$> recentProjects s).

(** The file of the first entry of the recent-projects model. *)
Definition headFile (s : ApplicationSettings) : option string :=
  MenusModel.file <$> head (recentProjects s).

(** The files of the source list, in order. *)
Definition sourceFiles (s : ApplicationSettings) : list string :=
  ImagesModel.file <$> sourceImages s.

(** The source list and the persisted custom list are aligned: the entries
    after the first [defaultSources.size()] ones are exactly the persisted
    custom sources, in order. *)
Definition aligned (s : ApplicationSettings) : Prop :=
  (length defaultSources ≤ length (sourceImages s))%nat ∧
  ImagesModel.file <$> drop (length defaultSources) (sourceImages s)
    = customSourceImages (m_settings s).

(** A load of the store would yield the model. *)
Definition recentProjectsLoaded (s : ApplicationSettings) : Prop :=
  loadedRecentProjects (m_settings s) = recentProjects s.

(** The keys of the group of recent projects. *)
Definition inRecentProjectsGroup (k : string) : bool :=
  String.prefix (KEY_RECENT_PROJECTS +:+ "/") k.

(** No character of the string is the separator of keys. *)
Fixpoint noSlash (s : string) : bool :=
  match s with
  | EmptyString => true
  | String c s' => negb (Ascii.eqb c "/") && noSlash s'
  end.

(** Every character of the string is a decimal digit. *)
Fixpoint onlyDigits (s : string) : bool :=
  match s with
  | EmptyString => true
  | String c s' =>
      match Ascii.is_nat c with Some _ => onlyDigits s' | None => false end
  end.

(** The three models and what the store persists of the two lists are the
    same in both states. *)
Definition listsKept (s s' : ApplicationSettings) : Prop :=
  m_sourceImagesModel s' = m_sourceImagesModel s ∧
  m_backgroundImagesModel s' = m_backgroundImagesModel s ∧
  m_recentProjectsModel s' = m_recentProjectsModel s ∧
  customSourceImages (m_settings s') = customSourceImages (m_settings s) ∧
  persistedRecentProjects (m_settings s') = persistedRecentProjects (m_settings s).

(** The three scalar preferences are the same in both states. *)
Definition scalarsKept (s s' : ApplicationSettings) : Prop :=
  useLegacyShaders s' = useLegacyShaders s ∧
  codeFontFile s' = codeFontFile s ∧
  codeFontSize s' = codeFontSize s.

(** [addSourceImage] for each path of a list, in order, as the two loops of
    the constructor call it. *)
Fixpoint addSourceImages (toLocalFile : string → string)
    (imageReader : string → option (Z * Z)) (canRemove : bool)
    (paths : list string) : M unit :=
  match paths with
  | [] => mret tt
  | path :: paths' =>
      addSourceImage toLocalFile imageReader path canRemove;;
      addSourceImages toLocalFile imageReader canRemove paths'
  end.

(** The store of [s'] agrees with that of [s] on every key outside the
    group of recent projects. *)
Definition outsideGroupKept (s s' : ApplicationSettings) : Prop :=
  ∀ k, inRecentProjectsGroup k = false → m_settings s' !! k = m_settings s !! k.

(** The file of an entry is not [file]. *)
Definition otherFile (file : string) (d : MenusModel.MenusData) : bool :=
  negb (String.eqb (MenusModel.file d) file).

(** ** The array of recent projects as the store holds it *)

(** The store has the text [text] under [key]; a key that is not there
    reads as the empty text. *)
Definition storedText (st : gmap string QVariant) (key text : string) : Prop :=
  st !! key = Some (QString text) ∨ (st !! key = None ∧ text = "").

(** The store holds the array [slots] of pairs of a name and a file: the
    recorded size is their number (no recorded size: no slot), and slot [i]
    is kept under the keys recentProjects/<i+1>/projectName and
    recentProjects/<i+1>/projectFile. *)
Definition holdsRecentProjects (st : gmap string QVariant)
    (slots : list (string * string)) : Prop :=
  (st !! "recentProjects/size" = Some (QInt (Z.of_nat (length slots)))
   ∨ (st !! "recentProjects/size" = None ∧ slots = [])) ∧
  ∀ (i : nat) (name file : string),
    slots !! i = Some (name, file) →
    storedText st
      ("recentProjects/" +:+ pretty (Z.of_nat i + 1) +:+ "/projectName") name ∧
    storedText st
      ("recentProjects/" +:+ pretty (Z.of_nat i + 1) +:+ "/projectFile") file.

(** The entry a slot with a name and a file is loaded as. *)
Definition slotEntry (slot : string * string) : MenusModel.MenusData :=
  entry slot.1 slot.2.

(** A state whose model lags behind the store: the store holds three slots,
    the second of them without a name, and the model one other entry. *)
Definition staleRecentProjects : ApplicationSettings :=
  set_recentProjects [entry "Z" "/z"]
    (set_settings
       (<["recentProjects/size" := QInt 3]>
        (<["recentProjects/1/projectName" := QString "A"]>
         (<["recentProjects/1/projectFile" := QString "/a"]>
          (<["recentProjects/2/projectFile" := QString "/x"]>
           (<["recentProjects/3/projectName" := QString "C"]>
            (<["recentProjects/3/projectFile" := QString "/c"]> ∅))))))
       emptyState).

(** * Properties *)

(** Unfolds the monadic plumbing of a member function applied to a state. *)
Ltac run_M :=
  cbv beta iota zeta delta
    [mbind M_bind mret M_ret fault gets modify assertSome log qWarning emit id
     beginResetModel endResetModel settings_value settings_setValue
     settings_remove settings_beginReadArray settings_beginWriteArray
     settings_endWriteArray].

Ltac norm_trace := cbn [trace set_settings set_sourceImages set_recentProjects
                        set_backgroundImages m_settings m_sourceImagesModel
                        m_backgroundImagesModel m_recentProjectsModel];
                   rewrite <- ?app_assoc; cbn [app].

(** ** Scalar preferences *)

(** C8: [setUseLegacyShaders b] does nothing at all when [b] is the current
    value of the preference; otherwise it stores [b], emits the change
    signal and calls the effect manager's [updateBakedShaderVersions] and
    then [doBakeShaders], each exactly once, leaving the three models as
    they were. *)
Theorem setUseLegacyShaders_spec (s : ApplicationSettings) (b : bool) :
  (useLegacyShaders s = b → setUseLegacyShaders b s = Some (tt, s)) ∧
  (useLegacyShaders s ≠ b →
   ∃ s', setUseLegacyShaders b s = Some (tt, s') ∧
         m_settings s' = <[KEY_LEGACY_SHADERS := QBool b]> (m_settings s) ∧
         useLegacyShaders s' = b ∧
         trace s' = trace s ++
           [SettingsSetValue KEY_LEGACY_SHADERS (QBool b);
            Emit "useLegacyShadersChanged";
            EffectManagerCall "updateBakedShaderVersions";
            EffectManagerCall "doBakeShaders"] ∧
         m_sourceImagesModel s' = m_sourceImagesModel s ∧
         m_backgroundImagesModel s' = m_backgroundImagesModel s ∧
         m_recentProjectsModel s' = m_recentProjectsModel s).
Proof.
  split; intros H; unfold setUseLegacyShaders; run_M.
  - rewrite H. by destruct b.
  - destruct (Bool.eqb (useLegacyShaders s) b) eqn:E.
    + apply Bool.eqb_prop in E. contradiction.
    + eexists. split; [reflexivity|]. norm_trace.
      repeat split; try reflexivity.
      unfold useLegacyShaders, QSettings_value, QSettings_setValue. cbn [m_settings].
      by rewrite lookup_insert_eq.
Qed.

Lemma setUseLegacyShaders_spec_witness :
  setUseLegacyShaders false emptyState = Some (tt, emptyState) ∧
  ∃ s', setUseLegacyShaders true emptyState = Some (tt, s') ∧
        useLegacyShaders s' = true.
Proof.
  split.
  - apply (proj1 (setUseLegacyShaders_spec emptyState false)). reflexivity.
  - destruct (proj2 (setUseLegacyShaders_spec emptyState true)) as (s' & H1 & _ & H2 & _).
    + vm_compute. discriminate.
    + exists s'. split; assumption.
Defined.

(** C9: whatever the store holds, after [resetCodeFont] the getters return
    the compiled-in font file and size 14; [resetCodeFont] is the two
    setters in sequence, and a setter called with the current value changes
    nothing and notifies nobody. *)
Theorem resetCodeFont_defaults (s : ApplicationSettings) :
  (∃ s', resetCodeFont s = Some (tt, s') ∧
         codeFontFile s' = DEFAULT_CODE_FONT_FILE ∧
         codeFontSize s' = DEFAULT_CODE_FONT_SIZE ∧
         DEFAULT_CODE_FONT_SIZE = 14 ∧
         resetCodeFont s =
           (setCodeFontFile DEFAULT_CODE_FONT_FILE;;
            setCodeFontSize DEFAULT_CODE_FONT_SIZE) s) ∧
  (∀ font, codeFontFile s = font → setCodeFontFile font s = Some (tt, s)) ∧
  (∀ size, codeFontSize s = size → setCodeFontSize size s = Some (tt, s)).
Proof.
  split; [|split].
  - unfold resetCodeFont, setCodeFontFile, setCodeFontSize. run_M.
    destruct (String.eqb (codeFontFile s) DEFAULT_CODE_FONT_FILE) eqn:Ef.
    + apply String.eqb_eq in Ef.
      destruct (codeFontSize s =? DEFAULT_CODE_FONT_SIZE) eqn:Es.
      * apply Z.eqb_eq in Es. eexists. repeat split; eauto.
      * eexists. split; [reflexivity|].
        unfold codeFontFile, codeFontSize, QSettings_value, QSettings_setValue in *.
        cbn [m_settings set_settings]. repeat split.
        -- by rewrite lookup_insert_ne.
        -- by rewrite lookup_insert_eq.
    + unfold codeFontSize at 1, QSettings_value, QSettings_setValue.
      cbn [m_settings set_settings].
      rewrite lookup_insert_ne by done.
      fold (QSettings_value (m_settings s) KEY_CODE_FONT_SIZE (QInt DEFAULT_CODE_FONT_SIZE)).
      fold (codeFontSize s).
      destruct (codeFontSize s =? DEFAULT_CODE_FONT_SIZE) eqn:Es.
      * apply Z.eqb_eq in Es. eexists. split; [reflexivity|].
        unfold codeFontFile, codeFontSize, QSettings_value in *.
        cbn [m_settings set_settings]. repeat split.
        -- by rewrite lookup_insert_eq.
        -- by rewrite lookup_insert_ne.
      * eexists. split; [reflexivity|].
        unfold codeFontFile, codeFontSize, QSettings_value in *.
        cbn [m_settings set_settings]. repeat split.
        -- rewrite lookup_insert_ne by done. by rewrite lookup_insert_eq.
        -- by rewrite lookup_insert_eq.
  - intros font <-. unfold setCodeFontFile. run_M. by rewrite String.eqb_refl.
  - intros size <-. unfold setCodeFontSize. run_M. by rewrite Z.eqb_refl.
Qed.

Lemma resetCodeFont_defaults_witness :
  setCodeFontFile DEFAULT_CODE_FONT_FILE emptyState = Some (tt, emptyState) ∧
  setCodeFontSize 14 emptyState = Some (tt, emptyState).
Proof.
  destruct (resetCodeFont_defaults emptyState) as (_ & Hf & Hs). split.
  - apply Hf. reflexivity.
  - apply Hs. reflexivity.
Defined.

(** ** Source images *)

Lemma isEmpty_true (s : string) : isEmpty s = true ↔ s = "".
Proof. destruct s; simpl; split; congruence. Qed.

Lemma isEmpty_false (s : string) : isEmpty s = false ↔ s ≠ "".
Proof. destruct s; simpl; split; congruence. Qed.

Lemma duplicate_check_true (l : list ImagesModel.ImagesData) (path : string) :
  existsb (λ source, String.eqb (ImagesModel.file source) path) l = true
  ↔ path ∈ ImagesModel.file <$> l.
Proof.
  rewrite existsb_exists, list_elem_of_fmap. split.
  - intros (d & Hin & Heq). apply String.eqb_eq in Heq.
    exists d. split; [done|]. by apply list_elem_of_In.
  - intros (d & -> & Hin). exists d. split; [by apply list_elem_of_In|].
    apply String.eqb_refl.
Qed.

Lemma duplicate_check_false (l : list ImagesModel.ImagesData) (path : string) :
  existsb (λ source, String.eqb (ImagesModel.file source) path) l = false
  ↔ path ∉ ImagesModel.file <$> l.
Proof.
  rewrite <- duplicate_check_true. destruct (existsb _ l); split; congruence.
Qed.

Section SourceImages.

Variable toLocalFile : string → string.
Variable imageReader : string → option (Z * Z).

(** C3: [addSourceImage] answers false for an empty path and for a path that
    is already the file of a source entry, [removeSourceImage] answers false
    for a negative index and for an index at or beyond the size of the
    source list; in each case the three models and the store are what they
    were. *)
Theorem validation_failures_abort (s : ApplicationSettings) :
  (∀ path canRemove,
     path = "" ∨ path ∈ ImagesModel.file <$> sourceImages s →
     ∃ s', addSourceImage toLocalFile imageReader path canRemove s = Some (false, s')
           ∧ same_data s s') ∧
  (∀ index,
     index < 0 ∨ QList_size (sourceImages s) ≤ index →
     ∃ s', removeSourceImage index s = Some (false, s') ∧ same_data s s').
Proof.
  split.
  - intros path canRemove Hpath. unfold addSourceImage.
    destruct (isEmpty path) eqn:Ee.
    { exists s. by repeat split. }
    destruct Hpath as [->|Hdup]; [discriminate|].
    apply duplicate_check_true in Hdup. run_M. rewrite Hdup.
    eexists. split; [reflexivity|]. by repeat split.
  - intros index Hindex. unfold removeSourceImage. run_M.
    replace ((index <? 0) || (index >=? QList_size (sourceImages s))) with true.
    { exists s. by repeat split. }
    symmetry. apply orb_true_iff. destruct Hindex; [left|right]; lia.
Qed.

(** C7: for a path that is neither empty nor present, [addSourceImage] probes
    the local file that [QUrl::toLocalFile] makes of the path and appends an
    entry with the probed size and returns true; when the probe cannot read
    the image the entry has width 0 and height 0, the call still returns
    true, and the only report is a warning. *)
Theorem addSourceImage_degraded (s : ApplicationSettings) (path : string)
    (canRemove : bool) :
  path ≠ "" →
  path ∉ ImagesModel.file <$> sourceImages s →
  ∃ s' d,
    addSourceImage toLocalFile imageReader path canRemove s = Some (true, s') ∧
    sourceImages s' = sourceImages s ++ [d] ∧
    ImagesModel.file d = path ∧
    ImagesModel.canRemove d = canRemove ∧
    (ImagesModel.width d, ImagesModel.height d)
      = default (0, 0) (imageReader (toLocalFile path)) ∧
    (imageReader (toLocalFile path) = None →
       ImagesModel.width d = 0 ∧ ImagesModel.height d = 0 ∧
       ∃ rest, trace s' = trace s ++ QWarning ("Can't read image: " +:+ path) :: rest
               ∧ Forall (λ e, ∀ msg, e ≠ QWarning msg) rest).
Proof.
  intros Hne Hnodup. unfold addSourceImage.
  apply isEmpty_false in Hne. rewrite Hne.
  apply duplicate_check_false in Hnodup. run_M. rewrite Hnodup.
  destruct (imageReader (toLocalFile path)) as [[w h]|] eqn:Hprobe; run_M;
    destruct canRemove; run_M; norm_trace.
  all: try match goal with
       | |- context [negb (QStringList_contains ?l ?x)] =>
           destruct (negb (QStringList_contains l x)); run_M; norm_trace
       end.
  all: do 2 eexists; split; [reflexivity|]; unfold sourceImages; norm_trace;
       cbn [ImagesModel.m_modelList ImagesModel.file ImagesModel.canRemove
            ImagesModel.width ImagesModel.height default fst snd];
       repeat split; try discriminate.
  all: eexists; split; [reflexivity|]; repeat constructor; discriminate.
Qed.

End SourceImages.

Lemma QList_removeAt_Some {A} (l : list A) (i : Z) :
  0 ≤ i < QList_size l → QList_removeAt l i = Some (delete (Z.to_nat i) l).
Proof. intros H. unfold QList_removeAt. by rewrite bool_decide_eq_true_2. Qed.

Lemma QList_removeAt_None {A} (l : list A) (i : Z) :
  ¬ (0 ≤ i < QList_size l) → QList_removeAt l i = None.
Proof. intros H. unfold QList_removeAt. by rewrite bool_decide_eq_false_2. Qed.

Lemma customSourceImages_setValue (st : gmap string QVariant) (l : list string) :
  customSourceImages (QSettings_setValue st KEY_CUSTOM_SOURCE_IMAGES (QStringList l)) = l.
Proof.
  unfold customSourceImages, QSettings_value, QSettings_setValue.
  by rewrite lookup_insert_eq.
Qed.

(** The removal in the store happens at [index - 4]: an index in range for the
    source list whose position in the persisted list is not valid runs into
    the range assertion of [QList::removeAt]. *)
Lemma removeSourceImage_invalid_position (s : ApplicationSettings) (index : Z) :
  0 ≤ index < QList_size (sourceImages s) →
  ¬ (0 ≤ index - QList_size defaultSources
       < QList_size (customSourceImages (m_settings s))) →
  removeSourceImage index s = None.
Proof.
  intros Hin Hpos. unfold removeSourceImage. run_M.
  replace ((index <? 0) || (index >=? QList_size (sourceImages s))) with false
    by (symmetry; apply orb_false_iff; lia).
  rewrite QList_removeAt_Some by done. norm_trace.
  fold (customSourceImages (m_settings s)).
  by rewrite QList_removeAt_None.
Qed.

(** C2: for an index within the source list whose position
    [index - numberOfDefaults] is valid in the persisted custom list (which
    is for the caller to ensure, and needs [index >= numberOfDefaults]),
    [removeSourceImage] removes the source entry at [index], removes the
    persisted entry at that position and returns true.  In the scenario, with
    four entries in the source list and no custom source persisted,
    [addSourceImage "img.png" true] returns true, appends the entry and
    persists ["img.png"]; [removeSourceImage 4] then returns true, and the
    source list is the four entries again and the persisted list empty. *)
Theorem removeSourceImage_spec (toLocalFile : string → string)
    (imageReader : string → option (Z * Z)) (s : ApplicationSettings) :
  (∀ index,
     0 ≤ index < QList_size (sourceImages s) →
     0 ≤ index - QList_size defaultSources
       < QList_size (customSourceImages (m_settings s)) →
     QList_size defaultSources ≤ index ∧
     ∃ s', removeSourceImage index s = Some (true, s') ∧
           sourceImages s' = delete (Z.to_nat index) (sourceImages s) ∧
           customSourceImages (m_settings s')
             = delete (Z.to_nat (index - QList_size defaultSources))
                 (customSourceImages (m_settings s))) ∧
  (QList_size (sourceImages s) = QList_size defaultSources →
   "img.png" ∉ ImagesModel.file <$> sourceImages s →
   customSourceImages (m_settings s) = [] →
   ∃ s1 s2 d,
     addSourceImage toLocalFile imageReader "img.png" true s = Some (true, s1) ∧
     sourceImages s1 = sourceImages s ++ [d] ∧
     ImagesModel.file d = "img.png" ∧
     customSourceImages (m_settings s1) = ["img.png"] ∧
     removeSourceImage 4 s1 = Some (true, s2) ∧
     sourceImages s2 = sourceImages s ∧
     customSourceImages (m_settings s2) = []).
Proof.
  split.
  - intros index Hin Hpos. split; [lia|].
    unfold removeSourceImage. run_M.
    replace ((index <? 0) || (index >=? QList_size (sourceImages s))) with false
      by (symmetry; apply orb_false_iff; lia).
    rewrite QList_removeAt_Some by done. norm_trace.
    fold (customSourceImages (m_settings s)).
    rewrite QList_removeAt_Some by done. norm_trace.
    eexists. split; [reflexivity|]. unfold sourceImages. norm_trace.
    split; [reflexivity|]. apply customSourceImages_setValue.
  - intros Hsize Hfresh Hcustom.
    assert (Hfour : QList_size defaultSources = 4) by reflexivity.
    unfold addSourceImage. cbn [isEmpty]. run_M.
    apply duplicate_check_false in Hfresh. rewrite Hfresh.
    assert (Hlen : length (sourceImages s) = 4%nat)
      by (unfold QList_size in *; lia).
    set (size := default (0, 0) (imageReader (toLocalFile "img.png"))).
    set (d := {| ImagesModel.name := ""; ImagesModel.file := "img.png";
                 ImagesModel.width := size.1; ImagesModel.height := size.2;
                 ImagesModel.canRemove := true |}).
    assert (Hrm : ∀ s1,
      sourceImages s1 = sourceImages s ++ [d] →
      customSourceImages (m_settings s1) = ["img.png"] →
      ∃ s2, removeSourceImage 4 s1 = Some (true, s2) ∧
            sourceImages s2 = sourceImages s ∧
            customSourceImages (m_settings s2) = []).
    { intros s1 Hsrc1 Hst1. unfold removeSourceImage. run_M.
      rewrite Hsrc1.
      assert (Hin : 0 ≤ 4 < QList_size (sourceImages s ++ [d]))
        by (unfold QList_size; rewrite length_app, Hlen; simpl; lia).
      replace ((4 <? 0) || (4 >=? QList_size (sourceImages s ++ [d]))) with false
        by (symmetry; apply orb_false_iff; lia).
      rewrite QList_removeAt_Some by done.
      norm_trace.
      fold (customSourceImages (m_settings s1)).
      rewrite Hst1, Hfour. cbn [QList_removeAt QList_size length bool_decide].
      eexists. split; [reflexivity|]. unfold sourceImages. norm_trace.
      split; [|apply customSourceImages_setValue].
      cbn [ImagesModel.m_modelList]. change (Z.to_nat 4) with 4%nat.
      rewrite <- Hlen.
      rewrite delete_middle. apply app_nil_r. }
    unfold customSourceImages in Hcustom.
    destruct (imageReader (toLocalFile "img.png")) as [[w h]|] eqn:Hprobe;
      run_M; norm_trace; rewrite Hcustom; cbn [QStringList_contains existsb negb app];
      run_M; norm_trace.
    all: match goal with
         | |- context [Some (true, ?S)] =>
             destruct (Hrm S) as (s2 & Hrm2 & Hsrc2 & Hst2);
               [reflexivity | apply customSourceImages_setValue |]
         end.
    all: eexists _, s2, d; split; [reflexivity|]; unfold sourceImages; norm_trace;
         cbn [ImagesModel.m_modelList]; repeat split; try done;
         apply customSourceImages_setValue.
Qed.

Lemma removeSourceImage_spec_witness :
  (∃ s', removeSourceImage 4
           (set_settings {[ KEY_CUSTOM_SOURCE_IMAGES := QStringList ["img.png"] ]}
              (set_sourceImages
                 (replicate 5 ImagesModel.ImagesData_default) emptyState))
         = Some (true, s') ∧
         sourceImages s' = replicate 4 ImagesModel.ImagesData_default) ∧
  (∃ s1 s2,
     addSourceImage (λ p, p) (λ _, None) "img.png" true
       (set_sourceImages (replicate 4 ImagesModel.ImagesData_default) emptyState)
       = Some (true, s1) ∧
     removeSourceImage 4 s1 = Some (true, s2) ∧
     sourceImages s2 = replicate 4 ImagesModel.ImagesData_default).
Proof.
  split.
  - destruct (proj1 (removeSourceImage_spec (λ p, p) (λ _, None)
       (set_settings {[ KEY_CUSTOM_SOURCE_IMAGES := QStringList ["img.png"] ]}
          (set_sourceImages (replicate 5 ImagesModel.ImagesData_default) emptyState)))
       4) as (_ & s' & Hrun & Hsrc & _).
    + vm_compute. split; [discriminate|reflexivity].
    + vm_compute. split; [discriminate|reflexivity].
    + exists s'. split; [exact Hrun|exact Hsrc].
  - destruct (proj2 (removeSourceImage_spec (λ p, p) (λ _, None)
       (set_sourceImages (replicate 4 ImagesModel.ImagesData_default) emptyState)))
      as (s1 & s2 & d & Hadd & _ & _ & _ & Hrm & Hsrc & _).
    + reflexivity.
    + apply duplicate_check_false. reflexivity.
    + reflexivity.
    + exists s1, s2. split; [exact Hadd|]. split; [exact Hrm|exact Hsrc].
Defined.

(** The constructor over an empty store, with a data root that is prefixed
    to the relative paths and no readable image: the four default sources,
    the three default backgrounds, nothing persisted, no recent project. *)
Example ApplicationSettings_new_defaults :
  ∃ s, ApplicationSettings_new (λ p, p) (λ _, None)
         (λ source root, root +:+ source) "/data/" 0 ∅ = Some s ∧
       ImagesModel.file <$> sourceImages s
         = (λ source, "/data/" +:+ source) <$> defaultSources ∧
       ImagesModel.canRemove <$> sourceImages s = [false; false; false; false] ∧
       ImagesModel.file <$> backgroundImages s = defaultBackgrounds ∧
       customSourceImages (m_settings s) = [] ∧
       recentProjects s = [].
Proof.
  destruct (ApplicationSettings_new (λ p, p) (λ _, None)
              (λ source root, root +:+ source) "/data/" 0 ∅) as [s|] eqn:E;
    [|vm_compute in E; discriminate].
  exists s. split; [done|]. vm_compute in E. injection E as <-.
  repeat split; vm_compute; reflexivity.
Qed.

(** ** The selected image *)

(** Within bounds the selected file is the file of the selected entry. *)
Lemma currentImageFile_in_range (m : ImagesModel.t) (d : ImagesModel.ImagesData) :
  0 ≤ ImagesModel.m_currentIndex m →
  ImagesModel.m_modelList m !! Z.to_nat (ImagesModel.m_currentIndex m) = Some d →
  ImagesModel.currentImageFile m = Some (ImagesModel.file d).
Proof.
  intros Hnonneg Hlook. unfold ImagesModel.currentImageFile, QList_at.
  apply lookup_lt_Some in Hlook as Hlt.
  replace (QList_size (ImagesModel.m_modelList m) >? ImagesModel.m_currentIndex m)
    with true by (symmetry; unfold QList_size; lia).
  rewrite bool_decide_eq_true_2 by (unfold QList_size; lia).
  by rewrite Hlook.
Qed.

(** At or beyond the end of the list the selected file is empty. *)
Lemma currentImageFile_beyond_end (m : ImagesModel.t) :
  QList_size (ImagesModel.m_modelList m) ≤ ImagesModel.m_currentIndex m →
  ImagesModel.currentImageFile m = Some "".
Proof.
  intros Hge. unfold ImagesModel.currentImageFile.
  by replace (QList_size (ImagesModel.m_modelList m) >? ImagesModel.m_currentIndex m)
    with false by (symmetry; lia).
Qed.

(** C6, at the input where it fails: after [setImageIndex (-1)] (or any other
    negative index) the guard [size > index] of [currentImageFile] holds, so
    the function does not return the empty string but reads [QList::at] out
    of range, whatever the list holds. *)
Theorem currentImageFile_negative_index (l : list ImagesModel.ImagesData)
    (index0 : Z) (p : positive) :
  ImagesModel.currentImageFile
    (ImagesModel.setImageIndex
       {| ImagesModel.m_modelList := l; ImagesModel.m_currentIndex := index0 |}
       (Z.neg p)).1 = None
  ∧ ImagesModel.currentImageFile
      (ImagesModel.setImageIndex (ImagesModel.new 0) (-1)).1 ≠ Some "".
Proof.
  split; [|discriminate].
  assert (H : ∀ m, ImagesModel.m_currentIndex m < 0 →
                   ImagesModel.currentImageFile m = None).
  { intros m Hneg. unfold ImagesModel.currentImageFile, QList_at.
    replace (QList_size (ImagesModel.m_modelList m) >? ImagesModel.m_currentIndex m)
      with true.
      2:{ symmetry; unfold QList_size. apply Z.gtb_lt. lia. }
    by rewrite bool_decide_eq_false_2 by lia. }
  apply H. unfold ImagesModel.setImageIndex. cbn [ImagesModel.m_currentIndex].
  pose proof (Pos2Z.neg_is_neg p) as Hp.
  destruct (index0 =? Z.neg p) eqn:E; cbn [fst ImagesModel.m_currentIndex].
  - apply Z.eqb_eq in E. by rewrite E.
  - done.
Qed.

(** ** Keys of the store *)

Lemma append_cons (c : ascii) (a x : string) :
  String c a +:+ x = String c (a +:+ x).
Proof. reflexivity. Qed.

Lemma append_length (a x : string) :
  String.length (a +:+ x) = (String.length a + String.length x)%nat.
Proof. induction a as [|c a IH]; [done|]. rewrite append_cons. simpl. by rewrite IH. Qed.

Lemma append_inj_l (p a b : string) : p +:+ a = p +:+ b → a = b.
Proof.
  induction p as [|c p IH]; [done|]. rewrite !append_cons. intros [= H]. auto.
Qed.

Lemma append_inj_length (a b x y : string) :
  String.length a = String.length b → a +:+ x = b +:+ y → a = b ∧ x = y.
Proof.
  revert b. induction a as [|c a IH]; intros [|c' b] Hlen; try discriminate.
  - done.
  - rewrite !append_cons. intros [= -> H]. injection Hlen as Hlen.
    destruct (IH b Hlen H) as [-> ->]. done.
Qed.

Lemma append_inj_r (a b x : string) : a +:+ x = b +:+ x → a = b.
Proof.
  intros H. apply (append_inj_length a b x x); [|done].
  apply (f_equal String.length) in H. rewrite !append_length in H. lia.
Qed.

Lemma arrayKey_inj (prefix key : string) (i j : Z) :
  0 ≤ i → 0 ≤ j → arrayKey prefix i key = arrayKey prefix j key → i = j.
Proof.
  intros Hi Hj. unfold arrayKey. intros H.
  apply append_inj_l, append_inj_l in H.
  apply append_inj_r in H. apply (inj pretty) in H. lia.
Qed.

Lemma arrayKey_name_file (i j : Z) :
  arrayKey KEY_RECENT_PROJECTS i KEY_PROJECT_NAME
  ≠ arrayKey KEY_RECENT_PROJECTS j KEY_PROJECT_FILE.
Proof.
  unfold arrayKey. intros H. apply append_inj_l, append_inj_l in H.
  apply append_inj_length in H as [_ H]; [discriminate|].
  apply (f_equal String.length) in H. rewrite !append_length in H.
  simpl in H. lia.
Qed.

Lemma arrayKey_not_size (i : Z) (key : string) :
  arrayKey KEY_RECENT_PROJECTS i key ≠ sizeKey KEY_RECENT_PROJECTS.
Proof.
  unfold arrayKey, sizeKey. intros H.
  apply append_inj_l in H.
  change ("/" +:+ pretty (Z.max i 0 + 1) +:+ "/" +:+ key)
    with (String "/" (pretty (Z.max i 0 + 1) +:+ String "/" key)) in H.
  injection H as H.
  destruct (pretty (Z.max i 0 + 1)) as [|? [|? [|? [|? [|? ?]]]]];
    rewrite ?append_cons in H; discriminate.
Qed.

(** ** Recent projects: loading *)

Lemma wellFormed_readRecentProject (st : gmap string QVariant) (i : Z) :
  negb (isEmpty (MenusModel.name (readRecentProject st i)))
  && negb (isEmpty (MenusModel.file (readRecentProject st i)))
  = wellFormed (readRecentProject st i).
Proof. reflexivity. Qed.

(** The read loop, once its fuel covers the slots left below
    [min size max_items]: the well-formed entries of those slots are
    appended, and the index is that of the last one with the given file. *)
Lemma readRecentProjects_spec (st : gmap string QVariant) (projectFile : string)
    (size : Z) (fuel k : nat) (acc : list MenusModel.MenusData) (idx : Z) :
  (Z.to_nat (Z.min size max_items) - k ≤ fuel)%nat →
  readRecentProjects fuel st projectFile size (Z.of_nat k) acc idx =
    let new := List.filter wellFormed
                 ((λ j : nat, readRecentProject st (Z.of_nat j))
                    <$> seq k (Z.to_nat (Z.min size max_items) - k)) in
    (acc ++ new, projectListIndexOf projectFile new (QList_size acc) idx).
Proof.
  revert k acc idx. induction fuel as [|fuel IH]; intros k acc idx Hfuel.
  - replace (Z.to_nat (Z.min size max_items) - k)%nat with 0%nat by lia.
    simpl. by rewrite app_nil_r.
  - cbn [readRecentProjects].
    destruct (Z.of_nat k <? size) eqn:Hsize; cbn [negb].
    2:{ replace (Z.to_nat (Z.min size max_items) - k)%nat with 0%nat by lia.
        simpl. by rewrite app_nil_r. }
    destruct (Z.of_nat k >=? max_items) eqn:Hmax.
    { replace (Z.to_nat (Z.min size max_items) - k)%nat with 0%nat by lia.
      simpl. by rewrite app_nil_r. }
    replace (Z.to_nat (Z.min size max_items) - k)%nat
      with (S (Z.to_nat (Z.min size max_items) - S k))%nat by lia.
    rewrite wellFormed_readRecentProject.
    replace (Z.of_nat k + 1) with (Z.of_nat (S k)) by lia.
    cbn [seq fmap list_fmap List.filter].
    destruct (wellFormed (readRecentProject st (Z.of_nat k))) eqn:Hwf.
    + rewrite IH by lia. cbn zeta. rewrite <- app_assoc. cbn [app projectListIndexOf].
      f_equal. unfold QList_size. rewrite length_app. cbn [length].
      replace (Z.of_nat (length acc + 1) - 1) with (Z.of_nat (length acc)) by lia.
      replace (Z.of_nat (length acc + 1)) with (Z.of_nat (length acc) + 1) by lia.
      done.
    + by rewrite IH by lia.
Qed.

Lemma readRecentProjects_loaded (st : gmap string QVariant) (projectFile : string) :
  readRecentProjects (S (Z.to_nat max_items)) st projectFile
    (recentProjectsSize st) 0 [] (-1)
  = (loadedRecentProjects st,
     projectListIndexOf projectFile (loadedRecentProjects st) 0 (-1)).
Proof.
  change 0 with (Z.of_nat 0) at 1.
  rewrite readRecentProjects_spec by (unfold max_items; lia).
  cbn zeta. rewrite Nat.sub_0_r. cbn [app QList_size length Z.of_nat].
  unfold loadedRecentProjects, persistedRecentProjects.
  rewrite <- fmap_take, take_seq.
  by replace (Z.to_nat (Z.min (recentProjectsSize st) max_items))
    with (Z.to_nat max_items `min` Z.to_nat (recentProjectsSize st))%nat by lia.
Qed.

(** The fuel of the read loop is not what ends it. *)
Lemma readRecentProjects_fuel (st : gmap string QVariant) (projectFile : string)
    (size : Z) (fuel : nat) :
  (Z.to_nat max_items ≤ fuel)%nat →
  readRecentProjects fuel st projectFile size 0 [] (-1)
  = readRecentProjects (S (Z.to_nat max_items)) st projectFile size 0 [] (-1).
Proof.
  intros Hfuel. change 0 with (Z.of_nat 0) at 1 2.
  by rewrite !readRecentProjects_spec by (unfold max_items in *; lia).
Qed.

Lemma projectListIndexOf_spec (projectFile : string)
    (l : list MenusModel.MenusData) (pos idx : Z) :
  ((projectFile ∉ MenusModel.file <$> l)
   ∧ projectListIndexOf projectFile l pos idx = idx)
  ∨ (pos ≤ projectListIndexOf projectFile l pos idx < pos + QList_size l
     ∧ ∃ d, l !! Z.to_nat (projectListIndexOf projectFile l pos idx - pos) = Some d
            ∧ MenusModel.file d = projectFile).
Proof.
  revert pos idx. induction l as [|d l IH]; intros pos idx.
  { left. split; [apply not_elem_of_nil|done]. }
  cbn [projectListIndexOf].
  destruct (IH (pos + 1)
              (if String.eqb (MenusModel.file d) projectFile then pos else idx))
    as [[Hnot Heq]|[Hrange (d' & Hlook & Hfile)]].
  - rewrite Heq. destruct (String.eqb (MenusModel.file d) projectFile) eqn:E.
    + right. apply String.eqb_eq in E. unfold QList_size. cbn [length].
      split; [lia|]. exists d. rewrite Z.sub_diag. done.
    + left. apply String.eqb_neq in E. split; [|done].
      rewrite fmap_cons, not_elem_of_cons. done.
  - right. unfold QList_size in *. cbn [length]. split; [lia|].
    exists d'. split; [|done].
    match goal with |- _ !! Z.to_nat ?x = _ =>
      replace (Z.to_nat x) with (S (Z.to_nat (x - 1))) by lia end.
    rewrite <- Hlook. cbn. f_equal. f_equal. lia.
Qed.

Lemma loadedRecentProjects_wellFormed (st : gmap string QVariant) :
  Forall (λ d, wellFormed d = true) (loadedRecentProjects st).
Proof.
  apply Forall_forall. intros d Hin. apply list_elem_of_In in Hin.
  unfold loadedRecentProjects in Hin. by apply filter_In in Hin as [_ ?].
Qed.

Lemma filter_length_le {A} (f : A → bool) (l : list A) :
  (length (List.filter f l) ≤ length l)%nat.
Proof. induction l as [|x l IH]; simpl; [lia|]. destruct (f x); simpl; lia. Qed.

Lemma loadedRecentProjects_size (st : gmap string QVariant) :
  QList_size (loadedRecentProjects st) ≤ max_items.
Proof.
  unfold QList_size, loadedRecentProjects.
  pose proof (filter_length_le wellFormed
    (take (Z.to_nat max_items) (persistedRecentProjects st))) as H.
  rewrite length_take in H. unfold max_items in *. lia.
Qed.

Lemma filter_all {A} (f : A → bool) (l : list A) :
  Forall (λ x, f x = true) l → List.filter f l = l.
Proof. induction 1 as [|x l Hx _ IH]; simpl; [done|]. by rewrite Hx, IH. Qed.

(** Under the invariant a load yields the model. *)
Lemma loaded_of_invariant (s : ApplicationSettings) :
  recentProjectsInvariant s → loadedRecentProjects (m_settings s) = recentProjects s.
Proof.
  intros (Hpers & Hwf & Hsize & _). unfold loadedRecentProjects.
  rewrite Hpers, take_ge by (unfold QList_size, max_items in *; lia).
  by apply filter_all.
Qed.

(** ** Recent projects: writing *)

(** The write loop stores the entries of [l] in the slots from [i] on, leaves
    every other key alone, and reports the last slot it set, plus one. *)
Lemma writeRecentProjects_spec (l : list MenusModel.MenusData) (i sizeGuess : Z)
    (s : ApplicationSettings) :
  0 ≤ i →
  ∃ s',
    writeRecentProjects l i sizeGuess s
      = Some (match l with [] => sizeGuess | _ => Z.max sizeGuess (i + QList_size l) end, s') ∧
    m_recentProjectsModel s' = m_recentProjectsModel s ∧
    (∀ k, (∀ j, (j < length l)%nat →
             k ≠ arrayKey KEY_RECENT_PROJECTS (i + Z.of_nat j) KEY_PROJECT_NAME ∧
             k ≠ arrayKey KEY_RECENT_PROJECTS (i + Z.of_nat j) KEY_PROJECT_FILE) →
          m_settings s' !! k = m_settings s !! k) ∧
    (∀ j d, l !! j = Some d →
       m_settings s' !! arrayKey KEY_RECENT_PROJECTS (i + Z.of_nat j) KEY_PROJECT_NAME
         = Some (QString (MenusModel.name d)) ∧
       m_settings s' !! arrayKey KEY_RECENT_PROJECTS (i + Z.of_nat j) KEY_PROJECT_FILE
         = Some (QString (MenusModel.file d))).
Proof.
  revert i sizeGuess s. induction l as [|d l IH]; intros i sizeGuess s Hi.
  { exists s. repeat split; try done. }
  cbn [writeRecentProjects]. run_M. norm_trace.
  match goal with |- context [writeRecentProjects l (i + 1) ?g ?S] =>
    destruct (IH (i + 1) g S) as (s' & Hrun & Hmodel & Hframe & Hset); [lia|]
  end.
  exists s'. rewrite Hrun. split; [|split; [|split]].
  - f_equal. f_equal. unfold QList_size in *. cbn [length].
    destruct l; cbn [length]; lia.
  - rewrite Hmodel. done.
  - intros k Hk. rewrite Hframe.
    + cbn [m_settings]. unfold QSettings_setValue.
      destruct (Hk 0%nat) as [Hn Hf]; [cbn; lia|]. rewrite Z.add_0_r in Hn, Hf.
      by rewrite !lookup_insert_ne.
    + intros j Hj. destruct (Hk (S j)) as [Hn Hf]; [cbn; lia|].
      replace (i + 1 + Z.of_nat j) with (i + Z.of_nat (S j)) by lia. done.
  - intros [|j] d' Hlook.
    + injection Hlook as <-. rewrite Z.add_0_r. rewrite !Hframe.
      * cbn [m_settings]. unfold QSettings_setValue. split.
        -- rewrite lookup_insert_ne by (apply not_eq_sym, arrayKey_name_file).
           by rewrite lookup_insert_eq.
        -- by rewrite lookup_insert_eq.
      * intros j Hj. split.
        -- apply not_eq_sym, arrayKey_name_file.
        -- intros H. apply arrayKey_inj in H; lia.
      * intros j Hj. split.
        -- intros H. apply arrayKey_inj in H; lia.
        -- apply arrayKey_name_file.
    + replace (i + Z.of_nat (S j)) with (i + 1 + Z.of_nat j) by lia.
      by apply Hset.
Qed.

Lemma readRecentProject_lookup (st : gmap string QVariant) (i : Z)
    (d : MenusModel.MenusData) :
  st !! arrayKey KEY_RECENT_PROJECTS i KEY_PROJECT_NAME
    = Some (QString (MenusModel.name d)) →
  st !! arrayKey KEY_RECENT_PROJECTS i KEY_PROJECT_FILE
    = Some (QString (MenusModel.file d)) →
  readRecentProject st i = d.
Proof.
  intros Hn Hf. unfold readRecentProject, QSettings_value.
  rewrite Hn, Hf. by destruct d.
Qed.

(** A store whose size is the length of [l] and whose slots hold the entries
    of [l] persists exactly [l]. *)
Lemma persistedRecentProjects_intro (st : gmap string QVariant)
    (l : list MenusModel.MenusData) :
  st !! sizeKey KEY_RECENT_PROJECTS = Some (QInt (QList_size l)) →
  (∀ j d, l !! j = Some d →
     st !! arrayKey KEY_RECENT_PROJECTS (Z.of_nat j) KEY_PROJECT_NAME
       = Some (QString (MenusModel.name d)) ∧
     st !! arrayKey KEY_RECENT_PROJECTS (Z.of_nat j) KEY_PROJECT_FILE
       = Some (QString (MenusModel.file d))) →
  persistedRecentProjects st = l.
Proof.
  intros Hsize Hslots.
  unfold persistedRecentProjects, recentProjectsSize, QSettings_value.
  rewrite Hsize. cbn [default from_option id toInt]. unfold QList_size.
  rewrite Nat2Z.id.
  apply list_eq. intros j. rewrite list_lookup_fmap.
  destruct (l !! j) as [d|] eqn:Hl.
  - apply lookup_lt_Some in Hl as Hlt.
    rewrite lookup_seq_lt by done. cbn.
    destruct (Hslots j d Hl) as [Hn Hf]. f_equal.
    by apply readRecentProject_lookup.
  - apply lookup_ge_None in Hl. by rewrite lookup_seq_ge.
Qed.

Lemma writeRecentProjectsArray_spec (l : list MenusModel.MenusData)
    (s : ApplicationSettings) :
  ∃ s', writeRecentProjectsArray l s = Some (tt, s') ∧
        m_recentProjectsModel s' = m_recentProjectsModel s ∧
        persistedRecentProjects (m_settings s') = l.
Proof.
  unfold writeRecentProjectsArray. run_M. norm_trace.
  match goal with |- context [writeRecentProjects l 0 0 ?S] =>
    destruct (writeRecentProjects_spec l 0 0 S) as (s' & Hrun & Hmodel & _ & Hset);
      [lia|]
  end.
  rewrite Hrun. eexists. split; [reflexivity|]. norm_trace.
  split; [by rewrite Hmodel|].
  apply persistedRecentProjects_intro; unfold QSettings_setValue.
  - rewrite lookup_insert_eq. do 2 f_equal.
    destruct l; [done|]. unfold QList_size. lia.
  - intros j d Hl. destruct (Hset j d Hl) as [Hn Hf].
    rewrite Z.add_0_l in Hn, Hf.
    rewrite !lookup_insert_ne by (apply not_eq_sym, arrayKey_not_size). done.
Qed.

(** ** Recent projects: the list update *)

Lemma removelast_take {A} (l : list A) : removelast l = take (length l - 1) l.
Proof.
  rewrite removelast_firstn_len. by replace (pred (length l)) with (length l - 1)%nat by lia.
Qed.

Lemma addOrMoveFirst_spec (projectName projectFile : string)
    (l : list MenusModel.MenusData) :
  projectName ≠ "" → projectFile ≠ "" →
  Forall (λ d, wellFormed d = true) l →
  QList_size l ≤ max_items →
  NoDup (MenusModel.file <$> l) →
  ∃ d rest,
    addOrMoveFirst projectName projectFile l
      (projectListIndexOf projectFile l 0 (-1)) = Some (d :: rest) ∧
    MenusModel.file d = projectFile ∧
    Forall (λ d, wellFormed d = true) (d :: rest) ∧
    QList_size (d :: rest) ≤ max_items ∧
    NoDup (MenusModel.file <$> d :: rest).
Proof.
  intros Hname Hfile Hwf Hsize Hnodup. unfold addOrMoveFirst.
  destruct (projectListIndexOf_spec projectFile l 0 (-1))
    as [[Hnot ->]|[Hrange (d & Hlook & Hd)]].
  - (* not in the list: add it first *)
    cbn [Z.eqb Pos.eqb mbind option_bind].
    set (new := {| MenusModel.name := projectName; MenusModel.file := projectFile |}).
    assert (Hnew : wellFormed new = true).
    { unfold wellFormed. cbn.
      apply isEmpty_false in Hname, Hfile. by rewrite Hname, Hfile. }
    destruct (QList_size (new :: l) >? max_items) eqn:Hover.
    + destruct l as [|x l']; [discriminate|].
      unfold QList_removeLast.
      change (removelast (new :: x :: l')) with (new :: removelast (x :: l')).
      exists new, (removelast (x :: l')).
      split; [done|]. split; [done|].
      rewrite removelast_take.
      split; [|split].
      * constructor; [done|]. by apply Forall_take.
      * unfold QList_size, max_items in *. cbn [length] in *.
        rewrite length_take. cbn [length]. lia.
      * rewrite fmap_cons. apply NoDup_cons. split.
        -- intros Hin. apply Hnot. rewrite fmap_take in Hin.
           eapply elem_of_sublist; [exact Hin|]. apply sublist_take.
        -- rewrite fmap_take. eapply sublist_NoDup; [exact Hnodup|].
           apply sublist_take.
    + exists new, l. split; [done|]. split; [done|].
      split; [by constructor|]. split; [lia|].
      rewrite fmap_cons. by apply NoDup_cons.
  - rewrite Z.sub_0_r in Hlook.
    set (idx := projectListIndexOf projectFile l 0 (-1)) in *.
    replace (idx =? -1) with false by (symmetry; lia).
    assert (Hperm : l ≡ₚ d :: delete (Z.to_nat idx) l)
      by (by apply delete_Permutation).
    set (l' := delete (Z.to_nat idx) l) in *.
    destruct (idx >? 0) eqn:Hpos.
    + (* further down: move it on top *)
      unfold QList_move.
      rewrite !bool_decide_eq_true_2 by lia. cbn [andb].
      replace (idx =? 0) with false by (symmetry; lia).
      rewrite Hlook. fold l'. change (Z.to_nat 0) with 0%nat.
      rewrite take_0, drop_0. cbn [app mbind option_bind].
      replace (QList_size (d :: l') >? max_items) with false.
      2:{ symmetry. unfold QList_size in *. rewrite <- Hperm. lia. }
      exists d, l'. split; [done|]. split; [done|].
      split; [by rewrite <- Hperm|]. split.
      * unfold QList_size in *. by rewrite <- Hperm.
      * change (MenusModel.file <$> d :: l') with (MenusModel.file <$> (d :: l')).
        by rewrite <- Hperm.
    + (* already first *)
      assert (idx = 0) as Hzero by lia. rewrite Hzero in Hlook.
      destruct l as [|d0 rest]; [discriminate|]. injection Hlook as ->.
      cbn [mbind option_bind].
      replace (QList_size (d :: rest) >? max_items) with false by (symmetry; lia).
      exists d, rest. done.
Qed.

(** ** Recent projects: one call of updateRecentProjectsModel *)

Lemma updateRecentProjectsModel_noop (projectName projectFile : string)
    (s : ApplicationSettings) :
  alreadyFirst s projectFile = true →
  updateRecentProjectsModel projectName projectFile s = Some (tt, s).
Proof. intros H. unfold updateRecentProjectsModel. run_M. by rewrite H. Qed.

(** Without an entry the call only loads: the store is not touched and the
    model becomes the loaded list. *)
Lemma updateRecentProjectsModel_reload (projectName projectFile : string)
    (s : ApplicationSettings) :
  alreadyFirst s projectFile = false →
  negb (isEmpty projectName) && negb (isEmpty projectFile) = false →
  updateRecentProjectsModel projectName projectFile s =
    Some (tt,
          {| m_sourceImagesModel := m_sourceImagesModel s;
             m_backgroundImagesModel := m_backgroundImagesModel s;
             m_recentProjectsModel :=
               {| MenusModel.m_modelList := loadedRecentProjects (m_settings s) |};
             m_settings := m_settings s;
             trace := trace s ++ [BeginResetModel RecentProjects;
                                  EndResetModel RecentProjects] |}).
Proof.
  intros Hfirst Hgiven. unfold updateRecentProjectsModel. run_M.
  rewrite Hfirst. fold (recentProjectsSize (m_settings s)).
  rewrite readRecentProjects_loaded, Hgiven. run_M. norm_trace. done.
Qed.

(** With an entry, and no duplicate among the loaded files, the call puts the
    file first and leaves model and store in step. *)
Lemma updateRecentProjectsModel_effective (projectName projectFile : string)
    (s : ApplicationSettings) :
  alreadyFirst s projectFile = false →
  projectName ≠ "" → projectFile ≠ "" →
  NoDup (MenusModel.file <$> loadedRecentProjects (m_settings s)) →
  ∃ s' d rest,
    updateRecentProjectsModel projectName projectFile s = Some (tt, s') ∧
    recentProjectsInvariant s' ∧
    recentProjects s' = d :: rest ∧
    MenusModel.file d = projectFile ∧
    addOrMoveFirst projectName projectFile (loadedRecentProjects (m_settings s))
      (projectListIndexOf projectFile (loadedRecentProjects (m_settings s)) 0 (-1))
      = Some (d :: rest).
Proof.
  intros Hfirst Hname Hfile Hnodup. unfold updateRecentProjectsModel. run_M.
  rewrite Hfirst. fold (recentProjectsSize (m_settings s)).
  rewrite readRecentProjects_loaded.
  apply isEmpty_false in Hname as Hname', Hfile as Hfile'.
  rewrite Hname', Hfile'. cbn [negb andb].
  destruct (addOrMoveFirst_spec projectName projectFile
              (loadedRecentProjects (m_settings s)) Hname Hfile
              (loadedRecentProjects_wellFormed _) (loadedRecentProjects_size _) Hnodup)
    as (d & rest & Hlist & Hd & Hwf & Hsize & Hnd).
  rewrite Hlist. run_M.
  destruct (writeRecentProjectsArray_spec (d :: rest) s) as (s1 & Hw & _ & Hpers).
  rewrite Hw. norm_trace.
  eexists _, d, rest. split; [reflexivity|].
  unfold recentProjectsInvariant, recentProjects. norm_trace.
  cbn [MenusModel.m_modelList]. done.
Qed.

Lemma alreadyFirst_true (s : ApplicationSettings) (projectFile : string) :
  alreadyFirst s projectFile = true ↔
  projectFile ≠ "" ∧ headFile s = Some projectFile.
Proof.
  unfold alreadyFirst, headFile, QList_first.
  destruct (recentProjects s) as [|d l]; cbn.
  - rewrite andb_false_r. split; [discriminate|]. by intros [_ ?].
  - rewrite andb_true_r, andb_true_iff, negb_true_iff, isEmpty_false, String.eqb_eq.
    split; intros [? H]; split; congruence.
Qed.

(** One call keeps the invariant; an effective call leaves its file first, any
    other call leaves the list as it was. *)
Lemma updateRecentProjectsModel_invariant (projectName projectFile : string)
    (s : ApplicationSettings) :
  recentProjectsInvariant s →
  ∃ s', updateRecentProjectsModel projectName projectFile s = Some (tt, s') ∧
        recentProjectsInvariant s' ∧
        (if effective (projectName, projectFile)
         then headFile s' = Some projectFile
         else recentProjects s' = recentProjects s).
Proof.
  intros Hinv. pose proof (loaded_of_invariant s Hinv) as Hloaded.
  unfold effective. cbn [fst snd].
  destruct (alreadyFirst s projectFile) eqn:Hfirst.
  - exists s. split; [by apply updateRecentProjectsModel_noop|]. split; [done|].
    apply alreadyFirst_true in Hfirst as [_ Hhead]. by destruct (_ && _).
  - destruct (negb (isEmpty projectName) && negb (isEmpty projectFile)) eqn:Hgiven.
    + apply andb_true_iff in Hgiven as [Hn Hf].
      apply negb_true_iff in Hn, Hf. apply isEmpty_false in Hn, Hf.
      destruct (updateRecentProjectsModel_effective projectName projectFile s)
        as (s' & d & rest & Hrun & Hinv' & Hlist & Hd & _); try done.
      { rewrite Hloaded. apply Hinv. }
      exists s'. split; [done|]. split; [done|].
      unfold headFile. rewrite Hlist. cbn. by rewrite Hd.
    + eexists. split; [by apply updateRecentProjectsModel_reload|].
      unfold recentProjectsInvariant, recentProjects. norm_trace.
      cbn [MenusModel.m_modelList]. rewrite Hloaded.
      split; [|done]. destruct Hinv as (? & ? & ? & ?). done.
Qed.

(** Under the invariant an effective call that is not cut short yields the
    list that [addOrMoveFirst] makes of the model. *)
Lemma updateRecentProjectsModel_step (projectName projectFile : string)
    (s : ApplicationSettings) (l : list MenusModel.MenusData) :
  recentProjectsInvariant s →
  alreadyFirst s projectFile = false →
  projectName ≠ "" → projectFile ≠ "" →
  addOrMoveFirst projectName projectFile (recentProjects s)
    (projectListIndexOf projectFile (recentProjects s) 0 (-1)) = Some l →
  ∃ s', updateRecentProjectsModel projectName projectFile s = Some (tt, s') ∧
        recentProjectsInvariant s' ∧ recentProjects s' = l.
Proof.
  intros Hinv Hfirst Hname Hfile Hlist.
  pose proof (loaded_of_invariant s Hinv) as Hloaded.
  destruct (updateRecentProjectsModel_effective projectName projectFile s)
    as (s' & d & rest & Hrun & Hinv' & Hl & _ & Hlist'); try done.
  { rewrite Hloaded. apply Hinv. }
  rewrite Hloaded in Hlist'. exists s'. split; [done|]. split; [done|].
  congruence.
Qed.

(** ** Recent projects: the claims *)

(** C4: when [file] is not empty and is the file of the first entry of the
    recent-projects model, [updateRecentProjectsModel name file] changes
    nothing at all (models, store, notifications); so a second call in a row
    leaves everything as the first did. *)
Theorem updateRecentProjects_already_first (s : ApplicationSettings)
    (name file : string) :
  file ≠ "" →
  headFile s = Some file →
  updateRecentProjectsModel name file s = Some (tt, s) ∧
  (updateRecentProjectsModel name file;;
   updateRecentProjectsModel name file) s = Some (tt, s).
Proof.
  intros Hfile Hhead.
  assert (Hrun : updateRecentProjectsModel name file s = Some (tt, s)).
  { apply updateRecentProjectsModel_noop, alreadyFirst_true. done. }
  split; [done|]. run_M. by rewrite Hrun.
Qed.

Lemma updateRecentProjects_already_first_witness :
  updateRecentProjectsModel "A" "/a"
    (set_recentProjects [entry "A" "/a"; entry "B" "/b"] emptyState)
  = Some (tt, set_recentProjects [entry "A" "/a"; entry "B" "/b"] emptyState).
Proof.
  apply (updateRecentProjects_already_first
           (set_recentProjects [entry "A" "/a"; entry "B" "/b"] emptyState)
           "A" "/a").
  - discriminate.
  - reflexivity.
Defined.

(** The key of a slot, as the code addresses it and as it is spelled out. *)
Lemma arrayKey_recentProjects (i : nat) (key : string) :
  arrayKey KEY_RECENT_PROJECTS (Z.of_nat i) key
  = "recentProjects/" +:+ pretty (Z.of_nat i + 1) +:+ String "/" key.
Proof. unfold arrayKey. rewrite Z.max_l by lia. reflexivity. Qed.

Lemma storedText_value (st : gmap string QVariant) (key text : string) :
  storedText st key text → toString (QSettings_value st key QInvalid) = text.
Proof.
  unfold QSettings_value. intros [-> | [-> ->]]; reflexivity.
Qed.

(** A store that holds the slots has them as its persisted array. *)
Lemma holdsRecentProjects_persisted (st : gmap string QVariant)
    (slots : list (string * string)) :
  holdsRecentProjects st slots →
  persistedRecentProjects st = slotEntry <$> slots.
Proof.
  intros [Hsize Hslots]. unfold persistedRecentProjects.
  assert (recentProjectsSize st = Z.of_nat (length slots)) as ->.
  { unfold recentProjectsSize, QSettings_value.
    change (sizeKey KEY_RECENT_PROJECTS) with "recentProjects/size".
    destruct Hsize as [-> | [-> ->]]; reflexivity. }
  rewrite Nat2Z.id. apply list_eq. intros i.
  rewrite !list_lookup_fmap.
  destruct (slots !! i) as [[name file]|] eqn:Hi.
  - rewrite lookup_seq_lt by (by eapply lookup_lt_Some).
    destruct (Hslots i name file Hi) as [Hname Hfile]. cbn.
    unfold readRecentProject, slotEntry, entry. cbn [fst snd].
    rewrite !arrayKey_recentProjects.
    apply storedText_value in Hname, Hfile.
    change (String "/" KEY_PROJECT_NAME) with "/projectName".
    change (String "/" KEY_PROJECT_FILE) with "/projectFile".
    rewrite Hname, Hfile. reflexivity.
  - rewrite lookup_seq_ge by (by apply lookup_ge_None). reflexivity.
Qed.

(** Leaving out the malformed entries keeps the slots with a name and a
    file. *)
Lemma filter_wellFormed_slots (slots : list (string * string)) :
  List.filter wellFormed (slotEntry <$> slots)
  = slotEntry <$> filter (λ slot, slot.1 ≠ "" ∧ slot.2 ≠ "") slots.
Proof.
  induction slots as [|[name file] slots IH]; [reflexivity|].
  rewrite filter_cons. cbn [fmap list_fmap List.filter]. fold (fmap slotEntry slots).
  rewrite IH. unfold wellFormed.
  change (MenusModel.name (slotEntry (name, file))) with name.
  change (MenusModel.file (slotEntry (name, file))) with file.
  case_decide as Hslot; cbn [fst snd] in Hslot.
  - destruct Hslot as [Hname Hfile].
    apply isEmpty_false in Hname, Hfile. rewrite Hname, Hfile. reflexivity.
  - destruct (isEmpty name) eqn:Hname; [reflexivity|].
    destruct (isEmpty file) eqn:Hfile; [reflexivity|].
    apply isEmpty_false in Hname, Hfile. tauto.
Qed.

(** C10: when the name or the file is empty and the early return does not
    apply, the call adds and moves nothing and writes nothing to the store
    (the only effects are the two reset notifications), yet the model is
    replaced by what the store holds: of the first six slots kept under
    recentProjects/<i+1>/projectName and recentProjects/<i+1>/projectFile,
    those with a name and a file, in the order of the slots, whatever the
    model and the arguments were; in some states that changes the model
    while the store stays as it is. *)
Theorem updateRecentProjects_without_entry :
  (∀ (s : ApplicationSettings) (name file : string),
     name = "" ∨ file = "" →
     alreadyFirst s file = false →
     ∃ s', updateRecentProjectsModel name file s = Some (tt, s') ∧
           m_settings s' = m_settings s ∧
           trace s' = trace s ++ [BeginResetModel RecentProjects;
                                  EndResetModel RecentProjects] ∧
           recentProjects s' = loadedRecentProjects (m_settings s) ∧
           (∀ slots : list (string * string),
              holdsRecentProjects (m_settings s) slots →
              recentProjects s'
              = slotEntry <$> filter (λ slot, slot.1 ≠ "" ∧ slot.2 ≠ "")
                                (take 6 slots)) ∧
           m_sourceImagesModel s' = m_sourceImagesModel s ∧
           m_backgroundImagesModel s' = m_backgroundImagesModel s) ∧
  (∃ s s', updateRecentProjectsModel "" "" s = Some (tt, s') ∧
           m_settings s' = m_settings s ∧
           recentProjects s' ≠ recentProjects s).
Proof.
  split.
  - intros s name file Hempty Hfirst.
    eexists. split.
    + apply updateRecentProjectsModel_reload; [done|].
      destruct Hempty as [-> | ->]; cbn; [done|apply andb_false_r].
    + unfold recentProjects. norm_trace.
      repeat split; try done.
      intros slots Hslots. cbn [m_recentProjectsModel MenusModel.m_modelList].
      unfold loadedRecentProjects.
      rewrite (holdsRecentProjects_persisted _ _ Hslots).
      change (Z.to_nat max_items) with 6%nat.
      rewrite <- fmap_take. apply filter_wellFormed_slots.
  - exists staleRecentProjects.
    eexists. split; [|split].
    + apply updateRecentProjectsModel_reload; reflexivity.
    + reflexivity.
    + vm_compute. discriminate.
Qed.

Lemma updateRecentProjects_without_entry_witness :
  ∃ s', updateRecentProjectsModel "" "/b" staleRecentProjects = Some (tt, s') ∧
        m_settings s' = m_settings staleRecentProjects ∧
        recentProjects staleRecentProjects = [entry "Z" "/z"] ∧
        recentProjects s' = [entry "A" "/a"; entry "C" "/c"].
Proof.
  destruct (proj1 updateRecentProjects_without_entry
              staleRecentProjects "" "/b")
    as (s' & Hrun & Hstore & _ & _ & Hslots & _).
  - left. reflexivity.
  - reflexivity.
  - exists s'. split; [exact Hrun|]. split; [exact Hstore|].
    split; [reflexivity|].
    rewrite (Hslots [("A", "/a"); ("", "/x"); ("C", "/c")]); [reflexivity|].
    split; [left; vm_compute; reflexivity|].
    intros [|[|[|i]]] slotName slotFile Hslot;
      [injection Hslot as <- <- ..|discriminate Hslot];
      (split; [first [left; vm_compute; reflexivity
                     |right; split; vm_compute; reflexivity]..]).
Defined.

Lemma lastEffectiveFile_cons (call : string * string) (calls : list (string * string)) :
  lastEffectiveFile (call :: calls) =
    match lastEffectiveFile calls with
    | Some file => Some file
    | None => if effective call then Some call.2 else None
    end.
Proof.
  unfold lastEffectiveFile. cbn [List.filter].
  destruct (effective call).
  - destruct (List.filter effective calls) as [|c l]; [done|].
    rewrite last_cons_cons.
    destruct (last (c :: l)) eqn:E; [done|]. by apply last_None in E.
  - by destruct (last (List.filter effective calls)).
Qed.

(** A sequence of calls from a state with the invariant: it runs to the end,
    keeps the invariant, and leaves the file of the last effective call
    first; without an effective call the list is the initial one. *)
Lemma updateRecentProjectsCalls_invariant (calls : list (string * string))
    (s : ApplicationSettings) :
  recentProjectsInvariant s →
  ∃ s', updateRecentProjectsCalls calls s = Some (tt, s') ∧
        recentProjectsInvariant s' ∧
        match lastEffectiveFile calls with
        | Some file => headFile s' = Some file
        | None => recentProjects s' = recentProjects s
        end.
Proof.
  revert s. induction calls as [|[name file] calls IH]; intros s Hinv.
  { exists s. done. }
  destruct (updateRecentProjectsModel_invariant name file s Hinv)
    as (s1 & Hrun1 & Hinv1 & Hstep).
  destruct (IH s1 Hinv1) as (s' & Hrun & Hinv' & Hlast).
  exists s'. split; [|split; [done|]].
  - cbn [updateRecentProjectsCalls]. run_M. by rewrite Hrun1.
  - rewrite lastEffectiveFile_cons.
    destruct (lastEffectiveFile calls) as [f|]; [done|].
    destruct (effective (name, file)); cbn [snd].
    + unfold headFile in *. by rewrite Hlast.
    + by rewrite Hlast.
Qed.

Lemma recentProjectsInvariant_empty (s : ApplicationSettings) :
  recentProjects s = [] →
  persistedRecentProjects (m_settings s) = [] →
  recentProjectsInvariant s.
Proof.
  intros Hmodel Hpers. unfold recentProjectsInvariant.
  rewrite Hmodel, Hpers. repeat split; [constructor|done|constructor].
Qed.

(** C1: start with no recent project, in the model and in the store.  After
    any sequence of calls of [updateRecentProjectsModel], the model and the
    persisted array are the same list, of at most 6 entries, no two with the
    same file, and the file of the last effective call (one that gave a name
    and a file) is first.  In particular the calls ("A","/a"), ("B","/b"),
    ("A","/a") leave [("A","/a"); ("B","/b")]. *)
Theorem recentProjects_invariant (s0 : ApplicationSettings)
    (calls : list (string * string)) :
  recentProjects s0 = [] →
  persistedRecentProjects (m_settings s0) = [] →
  (∃ s, updateRecentProjectsCalls calls s0 = Some (tt, s) ∧
        QList_size (recentProjects s) ≤ 6 ∧
        NoDup (MenusModel.file <$> recentProjects s) ∧
        persistedRecentProjects (m_settings s) = recentProjects s ∧
        (∀ file, lastEffectiveFile calls = Some file →
                 MenusModel.file <$> recentProjects s !! 0%nat = Some file)) ∧
  (∃ s, updateRecentProjectsCalls [("A", "/a"); ("B", "/b"); ("A", "/a")] s0
          = Some (tt, s) ∧
        recentProjects s = [entry "A" "/a"; entry "B" "/b"] ∧
        persistedRecentProjects (m_settings s) = [entry "A" "/a"; entry "B" "/b"]).
Proof.
  intros Hmodel Hpers.
  pose proof (recentProjectsInvariant_empty s0 Hmodel Hpers) as Hinv0.
  split.
  - destruct (updateRecentProjectsCalls_invariant calls s0 Hinv0)
      as (s & Hrun & (Hp & _ & Hsize & Hnodup) & Hlast).
    exists s. repeat split; try done.
    intros file Hfile. rewrite Hfile in Hlast.
    unfold headFile in Hlast. by rewrite head_lookup in Hlast.
  - destruct (updateRecentProjectsModel_step "A" "/a" s0 [entry "A" "/a"])
      as (s1 & Hrun1 & Hinv1 & Hl1); try done.
    { unfold alreadyFirst. by rewrite Hmodel. }
    { by rewrite Hmodel. }
    destruct (updateRecentProjectsModel_step "B" "/b" s1
                [entry "B" "/b"; entry "A" "/a"])
      as (s2 & Hrun2 & Hinv2 & Hl2); try done.
    { unfold alreadyFirst. by rewrite Hl1. }
    { by rewrite Hl1. }
    destruct (updateRecentProjectsModel_step "A" "/a" s2
                [entry "A" "/a"; entry "B" "/b"])
      as (s3 & Hrun3 & Hinv3 & Hl3); try done.
    { unfold alreadyFirst. by rewrite Hl2. }
    { by rewrite Hl2. }
    exists s3. split; [|split; [done|]].
    + cbn [updateRecentProjectsCalls]. run_M. by rewrite Hrun1, Hrun2, Hrun3.
    + destruct Hinv3 as [Hp3 _]. by rewrite Hp3.
Qed.

Lemma recentProjects_invariant_witness :
  ∃ s, updateRecentProjectsCalls
         [("A", "/a"); ("B", "/b"); ("", ""); ("C", ""); ("B", "/b"); ("", "/z")]
         emptyState = Some (tt, s) ∧
       MenusModel.file <$> recentProjects s !! 0%nat = Some "/b".
Proof.
  destruct (proj1 (recentProjects_invariant emptyState
     [("A", "/a"); ("B", "/b"); ("", ""); ("C", ""); ("B", "/b"); ("", "/z")]
     eq_refl eq_refl)) as (s & Hrun & _ & _ & _ & Hfirst).
  exists s. split; [exact Hrun|]. apply Hfirst. reflexivity.
Defined.

(** In-range behaviour of the scan: a store whose first slot holds the file
    loses the two keys of that slot, and the model loses its first entry. *)
Example removeRecentProjectsModel_first :
  ∃ s1 s2,
    updateRecentProjectsCalls [("A", "/a"); ("B", "/b")] emptyState = Some (tt, s1) ∧
    removeRecentProjectsModel "/b" s1 = Some (tt, s2) ∧
    recentProjects s2 = [entry "A" "/a"] ∧
    persistedRecentProjects (m_settings s2) = [entry "" ""; entry "A" "/a"] ∧
    recentProjectsSize (m_settings s2) = 2.
Proof.
  destruct (updateRecentProjectsCalls [("A", "/a"); ("B", "/b")] emptyState)
    as [[[] s1]|] eqn:E1; [|vm_compute in E1; discriminate].
  destruct (removeRecentProjectsModel "/b" s1) as [[[] s2]|] eqn:E2.
  - exists s1, s2. split; [done|]. split; [done|].
    vm_compute in E1. injection E1 as <-.
    vm_compute in E2. injection E2 as <-.
    repeat split; vm_compute; reflexivity.
  - vm_compute in E1. injection E1 as <-. vm_compute in E2. discriminate.
Qed.

(** C5, at the input where it fails.  The scan uses the index of the store
    slot as the position in the model, although the two drift apart as soon
    as a slot has been emptied.  After ("A","/a"), ("B","/b") and the removal
    of "/b", the store holds an empty slot 0 and "/a" in slot 1, the model
    only "/a": removing "/a" finds it in slot 1, deletes the keys, and asks
    the one-entry model for position 1, which [QList::removeAt] rejects; the
    model entry of "/a" is never removed.  With three projects, removing "/c"
    and then "/b" takes "/a" out of the model and leaves "/b" in it. *)
Theorem removeRecentProject_stale_position :
  (∃ s1,
     (updateRecentProjectsCalls [("A", "/a"); ("B", "/b")];;
      removeRecentProjectsModel "/b") emptyState = Some (tt, s1) ∧
     recentProjects s1 = [entry "A" "/a"] ∧
     persistedRecentProjects (m_settings s1) = [entry "" ""; entry "A" "/a"] ∧
     removeRecentProjectsModel "/a" s1 = None) ∧
  (∃ s2 s3,
     (updateRecentProjectsCalls [("A", "/a"); ("B", "/b"); ("C", "/c")];;
      removeRecentProjectsModel "/c") emptyState = Some (tt, s2) ∧
     recentProjects s2 = [entry "B" "/b"; entry "A" "/a"] ∧
     removeRecentProjectsModel "/b" s2 = Some (tt, s3) ∧
     recentProjects s3 = [entry "B" "/b"] ∧
     persistedRecentProjects (m_settings s3)
       = [entry "" ""; entry "" ""; entry "A" "/a"]).
Proof.
  split.
  - destruct ((updateRecentProjectsCalls [("A", "/a"); ("B", "/b")];;
               removeRecentProjectsModel "/b") emptyState)
      as [[[] s1]|] eqn:E1; [|vm_compute in E1; discriminate].
    exists s1. split; [done|].
    vm_compute in E1. injection E1 as <-.
    repeat split; vm_compute; reflexivity.
  - destruct ((updateRecentProjectsCalls [("A", "/a"); ("B", "/b"); ("C", "/c")];;
               removeRecentProjectsModel "/c") emptyState)
      as [[[] s2]|] eqn:E2; [|vm_compute in E2; discriminate].
    destruct (removeRecentProjectsModel "/b" s2) as [[[] s3]|] eqn:E3.
    + exists s2, s3. split; [done|].
      vm_compute in E2. injection E2 as <-.
      vm_compute in E3. injection E3 as <-.
      repeat split; vm_compute; reflexivity.
    + vm_compute in E2. injection E2 as <-. vm_compute in E3. discriminate.
Qed.

(** When no slot below the recorded size holds the file, the scan changes
    nothing. *)
Lemma removeRecentProjectsScan_no_match (projectFile : string) (size : Z)
    (s : ApplicationSettings) (fuel : nat) (i : Z) :
  (∀ j, i ≤ j < size →
     MenusModel.file (readRecentProject (m_settings s) j) ≠ projectFile) →
  removeRecentProjectsScan fuel projectFile size i s = Some (tt, s).
Proof.
  revert i. induction fuel as [|fuel IH]; intros i Hno; [done|].
  cbn [removeRecentProjectsScan].
  destruct (i <? size) eqn:Hlt; cbn [negb]; [|done].
  run_M.
  specialize (Hno i ltac:(lia)) as Hi. apply String.eqb_neq in Hi.
  unfold readRecentProject in Hi. cbn [MenusModel.file] in Hi. rewrite Hi.
  apply IH. intros j Hj. apply Hno. lia.
Qed.

(** At the first slot that holds the file the scan removes the two keys of
    the slot and the model entry at the same position, and stops; this needs
    the position to exist in the model, or [QList::removeAt] rejects it. *)
Lemma removeRecentProjectsScan_first_match (projectFile : string) (size i : Z)
    (s : ApplicationSettings) (fuel : nat) (i0 : Z) :
  i0 ≤ i < size →
  (Z.to_nat (i - i0) < fuel)%nat →
  (∀ j, i0 ≤ j < i →
     MenusModel.file (readRecentProject (m_settings s) j) ≠ projectFile) →
  MenusModel.file (readRecentProject (m_settings s) i) = projectFile →
  removeRecentProjectsScan fuel projectFile size i0 s =
    match QList_removeAt (recentProjects s) i with
    | Some l =>
        Some (tt,
              {| m_sourceImagesModel := m_sourceImagesModel s;
                 m_backgroundImagesModel := m_backgroundImagesModel s;
                 m_recentProjectsModel := {| MenusModel.m_modelList := l |};
                 m_settings :=
                   QSettings_remove
                     (QSettings_remove (m_settings s)
                        (arrayKey KEY_RECENT_PROJECTS i KEY_PROJECT_NAME))
                     (arrayKey KEY_RECENT_PROJECTS i KEY_PROJECT_FILE);
                 trace := trace s ++
                   [SettingsRemove (arrayKey KEY_RECENT_PROJECTS i KEY_PROJECT_NAME);
                    SettingsRemove (arrayKey KEY_RECENT_PROJECTS i KEY_PROJECT_FILE);
                    BeginResetModel RecentProjects;
                    EndResetModel RecentProjects] |})
    | None => None
    end.
Proof.
  revert i0. induction fuel as [|fuel IH]; intros i0 Hrange Hfuel Hno Hmatch; [lia|].
  cbn [removeRecentProjectsScan].
  replace (i0 <? size) with true by (symmetry; lia). cbn [negb]. run_M.
  destruct (decide (i0 = i)) as [->|Hne].
  - apply String.eqb_eq in Hmatch.
    unfold readRecentProject in Hmatch. cbn [MenusModel.file] in Hmatch.
    rewrite Hmatch. norm_trace. unfold recentProjects at 1. norm_trace.
    fold (recentProjects s).
    destruct (QList_removeAt (recentProjects s) i); norm_trace; done.
  - specialize (Hno i0 ltac:(lia)) as Hi. apply String.eqb_neq in Hi.
    unfold readRecentProject in Hi. cbn [MenusModel.file] in Hi. rewrite Hi.
    apply IH; [lia|lia| |done]. intros j Hj. apply Hno. lia.
Qed.

Lemma QSettings_remove_lookup (st : gmap string QVariant) (key : string) :
  QSettings_remove st key !! key = None.
Proof.
  unfold QSettings_remove. apply map_lookup_filter_None. right.
  intros v _. cbn. unfold is_subkey. by rewrite String.eqb_refl.
Qed.

Lemma QSettings_remove_lookup_other (st : gmap string QVariant) (key k : string) :
  is_subkey key k = false → QSettings_remove st key !! k = st !! k.
Proof.
  intros Hk. unfold QSettings_remove.
  destruct (st !! k) as [v|] eqn:Hl.
  - apply map_lookup_filter_Some. done.
  - apply map_lookup_filter_None. by left.
Qed.

Lemma validation_failures_abort_witness :
  (∃ s', addSourceImage (λ p, p) (λ _, None) "" true emptyState = Some (false, s')
         ∧ same_data emptyState s') ∧
  (∃ s', removeSourceImage (-1) emptyState = Some (false, s')
         ∧ same_data emptyState s').
Proof.
  destruct (validation_failures_abort (λ p, p) (λ _, None) emptyState) as [Hadd Hrm].
  split.
  - apply Hadd. left. reflexivity.
  - apply Hrm. left. reflexivity.
Defined.

Lemma addSourceImage_degraded_witness :
  ∃ s' d,
    addSourceImage (λ p, p) (λ _, None) "file:///tmp/missing.png" true emptyState
      = Some (true, s') ∧
    sourceImages s' = [d] ∧
    ImagesModel.width d = 0 ∧ ImagesModel.height d = 0.
Proof.
  destruct (addSourceImage_degraded (λ p, p) (λ _, None) emptyState
              "file:///tmp/missing.png" true)
    as (s' & d & Hrun & Hlist & _ & _ & _ & Hdegraded).
  - discriminate.
  - apply not_elem_of_nil.
  - destruct (Hdegraded eq_refl) as (Hw & Hh & _).
    exists s', d. repeat split; assumption.
Defined.

Lemma removeRecentProjectsModel_no_match (projectFile : string)
    (s : ApplicationSettings) :
  (∀ j, 0 ≤ j < recentProjectsSize (m_settings s) →
     MenusModel.file (readRecentProject (m_settings s) j) ≠ projectFile) →
  removeRecentProjectsModel projectFile s = Some (tt, s).
Proof.
  intros Hno. unfold removeRecentProjectsModel. run_M.
  fold (recentProjectsSize (m_settings s)).
  by apply removeRecentProjectsScan_no_match.
Qed.

Lemma removeRecentProjectsModel_first_match (projectFile : string)
    (s : ApplicationSettings) (i : Z) :
  0 ≤ i < recentProjectsSize (m_settings s) →
  (∀ j, 0 ≤ j < i →
     MenusModel.file (readRecentProject (m_settings s) j) ≠ projectFile) →
  MenusModel.file (readRecentProject (m_settings s) i) = projectFile →
  removeRecentProjectsModel projectFile s =
    match QList_removeAt (recentProjects s) i with
    | Some l =>
        Some (tt,
              {| m_sourceImagesModel := m_sourceImagesModel s;
                 m_backgroundImagesModel := m_backgroundImagesModel s;
                 m_recentProjectsModel := {| MenusModel.m_modelList := l |};
                 m_settings :=
                   QSettings_remove
                     (QSettings_remove (m_settings s)
                        (arrayKey KEY_RECENT_PROJECTS i KEY_PROJECT_NAME))
                     (arrayKey KEY_RECENT_PROJECTS i KEY_PROJECT_FILE);
                 trace := trace s ++
                   [SettingsRemove (arrayKey KEY_RECENT_PROJECTS i KEY_PROJECT_NAME);
                    SettingsRemove (arrayKey KEY_RECENT_PROJECTS i KEY_PROJECT_FILE);
                    BeginResetModel RecentProjects;
                    EndResetModel RecentProjects] |})
    | None => None
    end.
Proof.
  intros Hrange Hno Hmatch. unfold removeRecentProjectsModel. run_M.
  fold (recentProjectsSize (m_settings s)).
  apply removeRecentProjectsScan_first_match; try done. lia.
Qed.

(** * Further properties of the code *)

(** ** The data of the models *)

Lemma isValid_row (index : QModelIndex) : isValid index = true → 0 ≤ row index.
Proof.
  unfold isValid. rewrite !andb_true_iff. intros [[H _] _]. lia.
Qed.

(** X1: [ImagesModel::data] never reads the list out of range, whatever the
    index and the role: an invalid index (a negative row among them) and a
    row at or beyond the end give an invalid variant, before the list is
    touched. *)
Theorem ImagesModel_data_in_bounds (Name File Width Height CanRemove : Z)
    (m : ImagesModel.t) (index : QModelIndex) (role : Z) :
  ImagesModel.data Name File Width Height CanRemove m index role ≠ None ∧
  (isValid index = false ∨ QList_size (ImagesModel.m_modelList m) ≤ row index →
   ImagesModel.data Name File Width Height CanRemove m index role = Some QInvalid).
Proof.
  unfold ImagesModel.data. destruct (isValid index) eqn:Hvalid; cbn [negb].
  2:{ split; [discriminate|done]. }
  apply isValid_row in Hvalid.
  destruct (row index >=? QList_size (ImagesModel.m_modelList m)) eqn:Hrow.
  { split; [discriminate|done]. }
  unfold QList_at. rewrite bool_decide_eq_true_2 by lia.
  destruct (ImagesModel.m_modelList m !! Z.to_nat (row index)) as [item|] eqn:Hitem.
  - split; [discriminate|]. intros [?|?]; [discriminate|lia].
  - apply lookup_ge_None in Hitem. unfold QList_size in *. lia.
Qed.

Lemma ImagesModel_data_in_bounds_witness :
  ImagesModel.data 257 258 259 260 261 (ImagesModel.new 0)
    {| row := -1; column := 0; hasModel := true |} 258 = Some QInvalid.
Proof.
  apply (ImagesModel_data_in_bounds 257 258 259 260 261 (ImagesModel.new 0)
           {| row := -1; column := 0; hasModel := true |} 258).
  left. reflexivity.
Defined.

(** X2: with five distinct role values, [ImagesModel::data] at a valid index
    within the list returns the field of that row's entry that the role
    selects, and an invalid variant for every other role; the roles it
    answers are exactly the keys of [roleNames]. *)
Theorem ImagesModel_data_roles (Name File Width Height CanRemove : Z)
    (m : ImagesModel.t) (index : QModelIndex) (item : ImagesModel.ImagesData) :
  NoDup [Name; File; Width; Height; CanRemove] →
  isValid index = true →
  ImagesModel.m_modelList m !! Z.to_nat (row index) = Some item →
  let data := ImagesModel.data Name File Width Height CanRemove m index in
  data Name = Some (QString (ImagesModel.name item)) ∧
  data File = Some (QString (ImagesModel.file item)) ∧
  data Width = Some (QInt (ImagesModel.width item)) ∧
  data Height = Some (QInt (ImagesModel.height item)) ∧
  data CanRemove = Some (QBool (ImagesModel.canRemove item)) ∧
  (∀ role, is_Some (ImagesModel.roleNames Name File Width Height CanRemove !! role)
           ↔ data role ≠ Some QInvalid).
Proof.
  intros Hdistinct Hvalid Hitem.
  assert (Hne : Name ≠ File ∧ Name ≠ Width ∧ Name ≠ Height ∧ Name ≠ CanRemove ∧
                File ≠ Width ∧ File ≠ Height ∧ File ≠ CanRemove ∧
                Width ≠ Height ∧ Width ≠ CanRemove ∧ Height ≠ CanRemove).
  { rewrite !NoDup_cons, !not_elem_of_cons in Hdistinct. intuition auto. }
  destruct Hne as (? & ? & ? & ? & ? & ? & ? & ? & ? & ?).
  assert (Hdata : ∀ role,
    ImagesModel.data Name File Width Height CanRemove m index role =
      Some (if role =? Name then QString (ImagesModel.name item)
            else if role =? File then QString (ImagesModel.file item)
            else if role =? Width then QInt (ImagesModel.width item)
            else if role =? Height then QInt (ImagesModel.height item)
            else if role =? CanRemove then QBool (ImagesModel.canRemove item)
            else QInvalid)).
  { intros role. unfold ImagesModel.data. rewrite Hvalid. cbn [negb].
    apply isValid_row in Hvalid. apply lookup_lt_Some in Hitem as Hlt.
    replace (row index >=? QList_size (ImagesModel.m_modelList m)) with false
      by (symmetry; unfold QList_size; lia).
    unfold QList_at. rewrite bool_decide_eq_true_2 by (unfold QList_size; lia).
    by rewrite Hitem. }
  cbn zeta. rewrite !Hdata.
  repeat match goal with
         | |- context [?a =? ?a] => rewrite (Z.eqb_refl a)
         | H : ?a ≠ ?b |- context [?b =? ?a] =>
             rewrite (proj2 (Z.eqb_neq b a)) by (apply not_eq_sym; exact H)
         end.
  repeat (split; [reflexivity|]).
  intros role. rewrite Hdata. unfold ImagesModel.roleNames.
  rewrite !lookup_insert, lookup_empty.
  repeat case_decide; subst;
    repeat match goal with
           | |- context [?a =? ?a] => rewrite (Z.eqb_refl a)
           | H : ?a ≠ ?b |- context [?b =? ?a] =>
               rewrite (proj2 (Z.eqb_neq b a)) by (apply not_eq_sym; exact H)
           | H : ?a ≠ ?b |- context [?a =? ?b] =>
               rewrite (proj2 (Z.eqb_neq a b)) by exact H
           end;
    split; intros Hs; try done; try (by eexists); by destruct Hs.
Qed.

Lemma ImagesModel_data_roles_witness :
  ImagesModel.data 257 258 259 260 261
    {| ImagesModel.m_modelList :=
         [ {| ImagesModel.name := ""; ImagesModel.file := "a.png";
              ImagesModel.width := 3; ImagesModel.height := 4;
              ImagesModel.canRemove := true |} ];
       ImagesModel.m_currentIndex := 0 |}
    {| row := 0; column := 0; hasModel := true |} 259 = Some (QInt 3).
Proof.
  destruct (ImagesModel_data_roles 257 258 259 260 261
              {| ImagesModel.m_modelList :=
                   [ {| ImagesModel.name := ""; ImagesModel.file := "a.png";
                        ImagesModel.width := 3; ImagesModel.height := 4;
                        ImagesModel.canRemove := true |} ];
                 ImagesModel.m_currentIndex := 0 |}
              {| row := 0; column := 0; hasModel := true |}
              {| ImagesModel.name := ""; ImagesModel.file := "a.png";
                 ImagesModel.width := 3; ImagesModel.height := 4;
                 ImagesModel.canRemove := true |})
    as (_ & _ & Hwidth & _).
  - apply (bool_decide_unpack _). vm_compute. exact I.
  - reflexivity.
  - reflexivity.
  - exact Hwidth.
Defined.

(** X3: [MenusModel::data] never reads the list out of range; with two
    distinct role values it returns the name or the file of the entry of a
    valid row within the list, and an invalid variant for any other role, for
    an invalid index and for a row at or beyond the end.  [roleNames] names
    exactly these two roles. *)
Theorem MenusModel_data_spec (Name File : Z) (m : MenusModel.t)
    (index : QModelIndex) (role : Z) :
  MenusModel.data Name File m index role ≠ None ∧
  (isValid index = false ∨ QList_size (MenusModel.m_modelList m) ≤ row index →
   MenusModel.data Name File m index role = Some QInvalid) ∧
  (∀ item,
     Name ≠ File →
     isValid index = true →
     MenusModel.m_modelList m !! Z.to_nat (row index) = Some item →
     MenusModel.data Name File m index Name = Some (QString (MenusModel.name item)) ∧
     MenusModel.data Name File m index File = Some (QString (MenusModel.file item)) ∧
     (role ≠ Name → role ≠ File →
      MenusModel.data Name File m index role = Some QInvalid)) ∧
  (is_Some (MenusModel.roleNames Name File !! role) ↔ role = Name ∨ role = File).
Proof.
  assert (Hnames : is_Some (MenusModel.roleNames Name File !! role)
                   ↔ role = Name ∨ role = File).
  { unfold MenusModel.roleNames. rewrite !lookup_insert, lookup_empty.
    repeat case_decide; subst; split; intros Hrole; auto; try (by eexists);
      try (by destruct Hrole); by destruct Hrole as [?|?]. }
  enough (Hdata :
    MenusModel.data Name File m index role ≠ None ∧
    (isValid index = false ∨ QList_size (MenusModel.m_modelList m) ≤ row index →
     MenusModel.data Name File m index role = Some QInvalid) ∧
    (∀ item,
       Name ≠ File →
       isValid index = true →
       MenusModel.m_modelList m !! Z.to_nat (row index) = Some item →
       MenusModel.data Name File m index Name = Some (QString (MenusModel.name item)) ∧
       MenusModel.data Name File m index File = Some (QString (MenusModel.file item)) ∧
       (role ≠ Name → role ≠ File →
        MenusModel.data Name File m index role = Some QInvalid)))
    by (destruct Hdata as (Ha & Hb & Hc); exact (conj Ha (conj Hb (conj Hc Hnames)))).
  unfold MenusModel.data. destruct (isValid index) eqn:Hvalid; cbn [negb].
  2:{ split; [discriminate|]. split; [done|]. intros; discriminate. }
  apply isValid_row in Hvalid.
  destruct (row index >=? QList_size (MenusModel.m_modelList m)) eqn:Hrow.
  { split; [discriminate|]. split; [done|].
    intros item _ _ Hitem. apply lookup_lt_Some in Hitem.
    unfold QList_size in *. lia. }
  unfold QList_at. rewrite bool_decide_eq_true_2 by lia.
  destruct (MenusModel.m_modelList m !! Z.to_nat (row index)) as [item|] eqn:Hitem.
  - split; [discriminate|]. split; [intros [?|?]; [discriminate|lia]|].
    intros item' Hne _ [= <-]. rewrite Z.eqb_refl.
    rewrite (proj2 (Z.eqb_neq File Name)) by (by apply not_eq_sym).
    rewrite Z.eqb_refl. repeat split.
    intros Hn Hf. by rewrite (proj2 (Z.eqb_neq role Name)), (proj2 (Z.eqb_neq role File)).
  - apply lookup_ge_None in Hitem. unfold QList_size in *. lia.
Qed.

Lemma MenusModel_data_spec_witness :
  MenusModel.data 257 258 {| MenusModel.m_modelList := [entry "A" "/a"] |}
    {| row := 0; column := 0; hasModel := true |} 258 = Some (QString "/a") ∧
  MenusModel.data 257 258 {| MenusModel.m_modelList := [entry "A" "/a"] |}
    {| row := 1; column := 0; hasModel := true |} 258 = Some QInvalid.
Proof.
  split.
  - destruct (MenusModel_data_spec 257 258
                {| MenusModel.m_modelList := [entry "A" "/a"] |}
                {| row := 0; column := 0; hasModel := true |} 258)
      as (_ & _ & Hrow & _).
    destruct (Hrow (entry "A" "/a")) as (_ & Hfile & _).
    + discriminate.
    + reflexivity.
    + reflexivity.
    + exact Hfile.
  - apply (MenusModel_data_spec 257 258
             {| MenusModel.m_modelList := [entry "A" "/a"] |}
             {| row := 1; column := 0; hasModel := true |} 258).
    right. vm_compute. discriminate.
Defined.

(** ** The selected image *)

(** X4: after [setImageIndex index] with an index within the list,
    [currentImageFile] is the file of the entry at that index; the list is
    not changed, the change signal is emitted exactly when the index differs
    from the current one, and setting the same index again emits nothing. *)
Theorem setImageIndex_selects (m : ImagesModel.t) (index : Z)
    (d : ImagesModel.ImagesData) :
  0 ≤ index →
  ImagesModel.m_modelList m !! Z.to_nat index = Some d →
  ImagesModel.currentImageFile (ImagesModel.setImageIndex m index).1
    = Some (ImagesModel.file d) ∧
  ImagesModel.m_modelList (ImagesModel.setImageIndex m index).1
    = ImagesModel.m_modelList m ∧
  (ImagesModel.setImageIndex m index).2
    = (if ImagesModel.m_currentIndex m =? index then []
       else [Emit "currentImageFileChanged"]) ∧
  (ImagesModel.setImageIndex (ImagesModel.setImageIndex m index).1 index).2 = [].
Proof.
  intros Hnonneg Hlook. apply lookup_lt_Some in Hlook as Hlt.
  assert (Hidx : ImagesModel.m_currentIndex (ImagesModel.setImageIndex m index).1 = index).
  { unfold ImagesModel.setImageIndex.
    destruct (ImagesModel.m_currentIndex m =? index) eqn:E; cbn; [lia|done]. }
  assert (Hlist : ImagesModel.m_modelList (ImagesModel.setImageIndex m index).1
                  = ImagesModel.m_modelList m).
  { unfold ImagesModel.setImageIndex.
    by destruct (ImagesModel.m_currentIndex m =? index). }
  split; [|split; [done|split]].
  - unfold ImagesModel.currentImageFile, QList_at. rewrite Hidx, Hlist.
    replace (QList_size (ImagesModel.m_modelList m) >? index) with true
      by (symmetry; unfold QList_size; lia).
    rewrite bool_decide_eq_true_2 by (unfold QList_size; lia).
    by rewrite Hlook.
  - unfold ImagesModel.setImageIndex.
    by destruct (ImagesModel.m_currentIndex m =? index).
  - unfold ImagesModel.setImageIndex at 1. by rewrite Hidx, Z.eqb_refl.
Qed.

Lemma setImageIndex_selects_witness :
  ImagesModel.currentImageFile
    (ImagesModel.setImageIndex
       {| ImagesModel.m_modelList := replicate 3 ImagesModel.ImagesData_default;
          ImagesModel.m_currentIndex := 0 |} 2).1 = Some "".
Proof.
  refine (proj1 (setImageIndex_selects
    {| ImagesModel.m_modelList := replicate 3 ImagesModel.ImagesData_default;
       ImagesModel.m_currentIndex := 0 |} 2 ImagesModel.ImagesData_default _ _)).
  - lia.
  - reflexivity.
Defined.

(** X5: with a selection that is not negative, [currentImageFile] stays
    within the list: it is the file of the selected entry, or the empty
    string when the selection is at or beyond the end. *)
Theorem currentImageFile_nonnegative (m : ImagesModel.t) :
  0 ≤ ImagesModel.m_currentIndex m →
  ImagesModel.currentImageFile m =
    Some (default ""
            (ImagesModel.file <$>
               ImagesModel.m_modelList m !! Z.to_nat (ImagesModel.m_currentIndex m))).
Proof.
  intros Hnonneg. unfold ImagesModel.currentImageFile, QList_at.
  destruct (ImagesModel.m_modelList m !! Z.to_nat (ImagesModel.m_currentIndex m))
    as [d|] eqn:Hlook.
  - apply lookup_lt_Some in Hlook as Hlt.
    replace (QList_size (ImagesModel.m_modelList m) >? ImagesModel.m_currentIndex m)
      with true by (symmetry; unfold QList_size; lia).
    by rewrite bool_decide_eq_true_2 by (unfold QList_size; lia).
  - apply lookup_ge_None in Hlook.
    by replace (QList_size (ImagesModel.m_modelList m) >? ImagesModel.m_currentIndex m)
      with false by (symmetry; unfold QList_size; lia).
Qed.

Lemma currentImageFile_nonnegative_witness :
  ImagesModel.currentImageFile (ImagesModel.new 0) = Some "".
Proof.
  apply (currentImageFile_nonnegative (ImagesModel.new 0)). reflexivity.
Defined.

(** ** More on the keys of the store *)

Lemma append_assoc (a b c : string) : (a +:+ b) +:+ c = a +:+ (b +:+ c).
Proof. induction a as [|x a IH]; [done|]. rewrite !append_cons. by rewrite IH. Qed.

Lemma prefix_append (p x : string) : String.prefix p (p +:+ x) = true.
Proof.
  induction p as [|c p IH].
  - change ("" +:+ x) with x. by destruct x.
  - rewrite append_cons. cbn. by destruct (Ascii.ascii_dec c c).
Qed.

Lemma prefix_inv (p s : string) : String.prefix p s = true → ∃ r, s = p +:+ r.
Proof.
  revert s. induction p as [|c p IH]; intros s H.
  - by exists s.
  - destruct s as [|c' s]; [discriminate|]. cbn in H.
    destruct (Ascii.ascii_dec c c') as [->|]; [|discriminate].
    destruct (IH s H) as [r ->]. exists r. by rewrite append_cons.
Qed.

Lemma noSlash_append (a b : string) : noSlash (a +:+ b) = noSlash a && noSlash b.
Proof.
  induction a as [|c a IH]; [done|]. rewrite append_cons. cbn.
  rewrite IH. by rewrite andb_assoc.
Qed.

Lemma onlyDigits_noSlash (s : string) : onlyDigits s = true → noSlash s = true.
Proof.
  induction s as [|c s IH]; [done|]. cbn.
  destruct (Ascii.is_nat c) eqn:Hc; [|discriminate]. intros H.
  rewrite (IH H), andb_true_r.
  destruct (Ascii.eqb c "/") eqn:E; [|done].
  apply Ascii.eqb_eq in E. subst. discriminate.
Qed.

Lemma onlyDigits_pretty_N_go (x : N) (s : string) :
  onlyDigits s = true → onlyDigits (pretty_N_go x s) = true.
Proof.
  revert s. induction (N.lt_wf_0 x) as [x _ IH]; intros s Hs.
  assert (x = 0 ∨ 0 < x)%N as [->|Hpos] by lia.
  - by rewrite pretty_N_go_0.
  - rewrite pretty_N_go_step by done. apply IH.
    + by apply N.div_lt.
    + cbn. unfold pretty_N_char. by repeat case_match.
Qed.

Lemma onlyDigits_pretty (z : Z) : 0 ≤ z → onlyDigits (pretty z) = true.
Proof.
  intros Hz. destruct z as [|p|p]; [done| |lia].
  unfold pretty, pretty_Z, pretty, pretty_positive, pretty, pretty_N.
  case_decide; [done|]. by apply onlyDigits_pretty_N_go.
Qed.

(** Two keys that agree are split alike at their first separator. *)
Lemma split_first_slash (a b x y : string) :
  noSlash a = true → noSlash b = true →
  a +:+ String "/" x = b +:+ String "/" y → a = b ∧ x = y.
Proof.
  revert b. induction a as [|c a IH]; intros [|c' b] Ha Hb H.
  - by injection H as ->.
  - rewrite append_cons in H. injection H as <- _. discriminate.
  - rewrite append_cons in H. injection H as -> _. discriminate.
  - rewrite !append_cons in H. injection H as -> H.
    cbn in Ha, Hb. apply andb_true_iff in Ha as [_ Ha], Hb as [_ Hb].
    destruct (IH b Ha Hb H) as [-> ->]. done.
Qed.

Lemma arrayKey_unfold (prefix key : string) (i : Z) :
  arrayKey prefix i key
  = (prefix +:+ "/") +:+ (pretty (Z.max i 0 + 1) +:+ String "/" key).
Proof. unfold arrayKey. by rewrite append_assoc. Qed.

Lemma arrayKey_in_group (i : Z) (key : string) :
  inRecentProjectsGroup (arrayKey KEY_RECENT_PROJECTS i key) = true.
Proof. unfold inRecentProjectsGroup. rewrite arrayKey_unfold. apply prefix_append. Qed.

Lemma sizeKey_in_group : inRecentProjectsGroup (sizeKey KEY_RECENT_PROJECTS) = true.
Proof. reflexivity. Qed.

(** A sub-setting of a key of the group is in the group. *)
Lemma is_subkey_in_group (key k : string) :
  inRecentProjectsGroup key = true → is_subkey key k = true →
  inRecentProjectsGroup k = true.
Proof.
  unfold is_subkey, inRecentProjectsGroup.
  generalize (KEY_RECENT_PROJECTS +:+ "/"). intros g Hkey Hsub.
  apply orb_true_iff in Hsub as [Heq|Hpre].
  - apply String.eqb_eq in Heq. by subst.
  - apply prefix_inv in Hkey as [r ->]. apply prefix_inv in Hpre as [r' ->].
    rewrite !append_assoc. apply prefix_append.
Qed.

Lemma arrayKey_sub (prefix key r : string) (i : Z) :
  (arrayKey prefix i key +:+ "/") +:+ r
  = (prefix +:+ "/") +:+ (pretty (Z.max i 0 + 1) +:+ String "/" (key +:+ "/" +:+ r)).
Proof.
  rewrite arrayKey_unfold.
  generalize (prefix +:+ "/"), (pretty (Z.max i 0 + 1)). intros g n.
  rewrite !append_assoc. reflexivity.
Qed.

(** No entry key and no size key is a proper sub-setting of an entry key. *)
Lemma arrayKey_no_subkey (i j : Z) (key key' : string) :
  noSlash key' = true →
  String.prefix (arrayKey KEY_RECENT_PROJECTS i key +:+ "/")
    (arrayKey KEY_RECENT_PROJECTS j key') = false.
Proof.
  intros Hkey'. destruct (String.prefix _ _) eqn:H; [|done].
  apply prefix_inv in H as [r H]. rewrite arrayKey_sub, arrayKey_unfold in H.
  apply append_inj_l in H.
  apply split_first_slash in H as [_ H];
    try (apply onlyDigits_noSlash, onlyDigits_pretty; lia).
  apply (f_equal noSlash) in H. rewrite Hkey', !noSlash_append in H.
  cbn in H. rewrite andb_false_r in H. discriminate.
Qed.

Lemma arrayKey_no_subkey_size (i : Z) (key : string) :
  String.prefix (arrayKey KEY_RECENT_PROJECTS i key +:+ "/")
    (sizeKey KEY_RECENT_PROJECTS) = false.
Proof.
  destruct (String.prefix _ _) eqn:H; [|done].
  apply prefix_inv in H as [r H]. rewrite arrayKey_sub in H.
  change (sizeKey KEY_RECENT_PROJECTS) with ((KEY_RECENT_PROJECTS +:+ "/") +:+ "size") in H.
  apply append_inj_l in H. apply (f_equal noSlash) in H.
  rewrite !noSlash_append in H.
  rewrite (onlyDigits_noSlash _ (onlyDigits_pretty (Z.max i 0 + 1) ltac:(lia))) in H.
  cbn in H. discriminate.
Qed.

(** No entry key is a sub-setting of the size key. *)
Lemma sizeKey_no_subkey (i : Z) (key : string) :
  is_subkey (sizeKey KEY_RECENT_PROJECTS) (arrayKey KEY_RECENT_PROJECTS i key) = false.
Proof.
  unfold is_subkey. apply orb_false_iff. split.
  - apply String.eqb_neq, arrayKey_not_size.
  - destruct (String.prefix _ _) eqn:H; [|done].
    apply prefix_inv in H as [r H]. rewrite arrayKey_unfold in H.
    change ((sizeKey KEY_RECENT_PROJECTS +:+ "/") +:+ r)
      with ((KEY_RECENT_PROJECTS +:+ "/") +:+ ("size" +:+ String "/" r)) in H.
    apply append_inj_l in H.
    apply split_first_slash in H as [H _];
      [|apply onlyDigits_noSlash, onlyDigits_pretty; lia|done].
    apply (f_equal onlyDigits) in H. rewrite onlyDigits_pretty in H by lia.
    discriminate.
Qed.

(** ** What a write leaves alone *)

Lemma readRecentProject_ext (st st' : gmap string QVariant) (i : Z) :
  (∀ k, inRecentProjectsGroup k = true → st' !! k = st !! k) →
  readRecentProject st' i = readRecentProject st i.
Proof.
  intros Hext. unfold readRecentProject, QSettings_value.
  by rewrite !Hext by apply arrayKey_in_group.
Qed.

Lemma persistedRecentProjects_ext (st st' : gmap string QVariant) :
  (∀ k, inRecentProjectsGroup k = true → st' !! k = st !! k) →
  persistedRecentProjects st' = persistedRecentProjects st.
Proof.
  intros Hext. unfold persistedRecentProjects, recentProjectsSize, QSettings_value.
  rewrite Hext by apply sizeKey_in_group.
  apply list_fmap_ext. intros _ j _. by apply readRecentProject_ext.
Qed.

Lemma scalars_ext (s s' : ApplicationSettings) :
  (∀ k, inRecentProjectsGroup k = false → m_settings s' !! k = m_settings s !! k) →
  scalarsKept s s' ∧ customSourceImages (m_settings s') = customSourceImages (m_settings s).
Proof.
  intros Hext.
  unfold scalarsKept, useLegacyShaders, codeFontFile, codeFontSize,
    customSourceImages, QSettings_value.
  by rewrite !Hext by reflexivity.
Qed.

Lemma insert_outside_group (st : gmap string QVariant) (key : string) (v : QVariant) :
  inRecentProjectsGroup key = false →
  persistedRecentProjects (<[key := v]> st) = persistedRecentProjects st.
Proof.
  intros Hkey. apply persistedRecentProjects_ext. intros k Hk.
  apply lookup_insert_ne. intros ->. congruence.
Qed.

Lemma setCodeFontFile_run (s : ApplicationSettings) (font : string) :
  ∃ s', setCodeFontFile font s = Some (tt, s') ∧
        m_sourceImagesModel s' = m_sourceImagesModel s ∧
        m_backgroundImagesModel s' = m_backgroundImagesModel s ∧
        m_recentProjectsModel s' = m_recentProjectsModel s ∧
        ((codeFontFile s = font ∧ s' = s) ∨
         (codeFontFile s ≠ font ∧
          m_settings s' = <[KEY_CODE_FONT_FILE := QString font]> (m_settings s) ∧
          trace s' = trace s ++ [SettingsSetValue KEY_CODE_FONT_FILE (QString font);
                                 Emit "codeFontFileChanged"])).
Proof.
  unfold setCodeFontFile. run_M.
  destruct (String.eqb (codeFontFile s) font) eqn:E.
  - apply String.eqb_eq in E. exists s. repeat split; auto.
  - apply String.eqb_neq in E. eexists. split; [reflexivity|]. norm_trace.
    repeat split; auto.
Qed.

Lemma setCodeFontSize_run (s : ApplicationSettings) (size : Z) :
  ∃ s', setCodeFontSize size s = Some (tt, s') ∧
        m_sourceImagesModel s' = m_sourceImagesModel s ∧
        m_backgroundImagesModel s' = m_backgroundImagesModel s ∧
        m_recentProjectsModel s' = m_recentProjectsModel s ∧
        ((codeFontSize s = size ∧ s' = s) ∨
         (codeFontSize s ≠ size ∧
          m_settings s' = <[KEY_CODE_FONT_SIZE := QInt size]> (m_settings s) ∧
          trace s' = trace s ++ [SettingsSetValue KEY_CODE_FONT_SIZE (QInt size);
                                 Emit "codeFontSizeChanged"])).
Proof.
  unfold setCodeFontSize. run_M.
  destruct (codeFontSize s =? size) eqn:E.
  - apply Z.eqb_eq in E. exists s. repeat split; auto.
  - apply Z.eqb_neq in E. eexists. split; [reflexivity|]. norm_trace.
    repeat split; auto.
Qed.

Lemma setUseLegacyShaders_run (s : ApplicationSettings) (b : bool) :
  ∃ s', setUseLegacyShaders b s = Some (tt, s') ∧
        m_sourceImagesModel s' = m_sourceImagesModel s ∧
        m_backgroundImagesModel s' = m_backgroundImagesModel s ∧
        m_recentProjectsModel s' = m_recentProjectsModel s ∧
        ((useLegacyShaders s = b ∧ s' = s) ∨
         (useLegacyShaders s ≠ b ∧
          m_settings s' = <[KEY_LEGACY_SHADERS := QBool b]> (m_settings s))).
Proof.
  unfold setUseLegacyShaders. run_M.
  destruct (Bool.eqb (useLegacyShaders s) b) eqn:E.
  - apply Bool.eqb_prop in E. exists s. repeat split; auto.
  - eexists. split; [reflexivity|]. norm_trace. repeat split; auto.
    right. split; [|done]. intros Heq. rewrite Heq, Bool.eqb_reflx in E. discriminate.
Qed.

(** X6: each scalar setter makes its getter return the value set, for every
    value and every store, and leaves the other two preferences, the three
    models, the persisted custom sources and the persisted recent projects
    as they were. *)
Theorem scalar_setters_round_trip (s : ApplicationSettings) :
  (∀ font, ∃ s', setCodeFontFile font s = Some (tt, s') ∧
                 codeFontFile s' = font ∧
                 codeFontSize s' = codeFontSize s ∧
                 useLegacyShaders s' = useLegacyShaders s ∧
                 listsKept s s') ∧
  (∀ size, ∃ s', setCodeFontSize size s = Some (tt, s') ∧
                 codeFontSize s' = size ∧
                 codeFontFile s' = codeFontFile s ∧
                 useLegacyShaders s' = useLegacyShaders s ∧
                 listsKept s s') ∧
  (∀ b, ∃ s', setUseLegacyShaders b s = Some (tt, s') ∧
              useLegacyShaders s' = b ∧
              codeFontFile s' = codeFontFile s ∧
              codeFontSize s' = codeFontSize s ∧
              listsKept s s').
Proof.
  split; [|split].
  - intros font.
    destruct (setCodeFontFile_run s font)
      as (s' & Hrun & Hsrc & Hbg & Hrp & [[Heq ->]|(Hne & Hst & _)]).
    { exists s. by repeat split. }
    exists s'. split; [done|].
    unfold listsKept, codeFontFile, codeFontSize, useLegacyShaders,
      customSourceImages, QSettings_value.
    rewrite Hst, lookup_insert_eq, !lookup_insert_ne by done.
    repeat split; try done. by apply insert_outside_group.
  - intros size.
    destruct (setCodeFontSize_run s size)
      as (s' & Hrun & Hsrc & Hbg & Hrp & [[Heq ->]|(Hne & Hst & _)]).
    { exists s. by repeat split. }
    exists s'. split; [done|].
    unfold listsKept, codeFontFile, codeFontSize, useLegacyShaders,
      customSourceImages, QSettings_value.
    rewrite Hst, lookup_insert_eq, !lookup_insert_ne by done.
    repeat split; try done. by apply insert_outside_group.
  - intros b.
    destruct (setUseLegacyShaders_run s b)
      as (s' & Hrun & Hsrc & Hbg & Hrp & [[Heq ->]|(Hne & Hst)]).
    { exists s. by repeat split. }
    exists s'. split; [done|].
    unfold listsKept, codeFontFile, codeFontSize, useLegacyShaders,
      customSourceImages, QSettings_value.
    rewrite Hst, lookup_insert_eq, !lookup_insert_ne by done.
    repeat split; try done. by apply insert_outside_group.
Qed.

(** ** Source images: what the two operations do to model and store *)

Section SourceList.

Variable toLocalFile : string → string.
Variable imageReader : string → option (Z * Z).

(** [addSourceImage] in full: it refuses an empty or present path without
    touching anything but the trace, and otherwise appends one entry and,
    for a removable image that the store does not list, one persisted path. *)
Lemma addSourceImage_run (s : ApplicationSettings) (path : string) (canRemove : bool) :
  ∃ r s',
    addSourceImage toLocalFile imageReader path canRemove s = Some (r, s') ∧
    m_backgroundImagesModel s' = m_backgroundImagesModel s ∧
    m_recentProjectsModel s' = m_recentProjectsModel s ∧
    ImagesModel.m_currentIndex (m_sourceImagesModel s')
      = ImagesModel.m_currentIndex (m_sourceImagesModel s) ∧
    ((r = false ∧ (path = "" ∨ path ∈ sourceFiles s) ∧
      sourceImages s' = sourceImages s ∧ m_settings s' = m_settings s) ∨
     (r = true ∧ path ≠ "" ∧ (path ∉ sourceFiles s) ∧
      sourceImages s' = sourceImages s ++
        [{| ImagesModel.name := "";
            ImagesModel.file := path;
            ImagesModel.width := (default (0, 0) (imageReader (toLocalFile path))).1;
            ImagesModel.height := (default (0, 0) (imageReader (toLocalFile path))).2;
            ImagesModel.canRemove := canRemove |}] ∧
      m_settings s' =
        if canRemove
           && negb (QStringList_contains (customSourceImages (m_settings s)) path)
        then <[KEY_CUSTOM_SOURCE_IMAGES :=
                 QStringList (customSourceImages (m_settings s) ++ [path])]>
               (m_settings s)
        else m_settings s)).
Proof.
  unfold addSourceImage. destruct (isEmpty path) eqn:Hempty.
  { apply isEmpty_true in Hempty. exists false, s.
    do 4 (split; [reflexivity|]). left. repeat split; auto. }
  apply isEmpty_false in Hempty. run_M.
  destruct (existsb _ (sourceImages s)) eqn:Hdup.
  { apply duplicate_check_true in Hdup. eexists false, _. split; [reflexivity|].
    norm_trace. do 3 (split; [reflexivity|]). left. repeat split; auto. }
  apply duplicate_check_false in Hdup.
  fold (customSourceImages (m_settings s)).
  destruct (imageReader (toLocalFile path)) as [[w h]|]; run_M;
    destruct canRemove; run_M; norm_trace;
    fold (customSourceImages (m_settings s));
    cbn [ImagesModel.file ImagesModel.name ImagesModel.ImagesData_default];
    try (destruct (negb (QStringList_contains (customSourceImages (m_settings s)) path));
         run_M; norm_trace);
    eexists true, _; (split; [reflexivity|]); unfold sourceImages; norm_trace;
    cbn [ImagesModel.m_modelList ImagesModel.m_currentIndex andb default
         from_option id fst snd];
    do 3 (split; [reflexivity|]); right; repeat split; auto.
Qed.

(** [removeSourceImage] in full. *)
Lemma removeSourceImage_run (s : ApplicationSettings) (index : Z) :
  removeSourceImage index s =
    if (index <? 0) || (index >=? QList_size (sourceImages s)) then Some (false, s)
    else
      match QList_removeAt (customSourceImages (m_settings s))
              (index - QList_size defaultSources) with
      | None => None
      | Some customSources =>
          Some (true,
                {| m_sourceImagesModel :=
                     {| ImagesModel.m_modelList :=
                          delete (Z.to_nat index) (sourceImages s);
                        ImagesModel.m_currentIndex :=
                          ImagesModel.m_currentIndex (m_sourceImagesModel s) |};
                   m_backgroundImagesModel := m_backgroundImagesModel s;
                   m_recentProjectsModel := m_recentProjectsModel s;
                   m_settings :=
                     <[KEY_CUSTOM_SOURCE_IMAGES := QStringList customSources]>
                       (m_settings s);
                   trace := trace s ++
                     [BeginResetModel SourceImages; EndResetModel SourceImages;
                      SettingsSetValue KEY_CUSTOM_SOURCE_IMAGES
                        (QStringList customSources)] |})
      end.
Proof.
  unfold removeSourceImage. run_M.
  destruct ((index <? 0) || (index >=? QList_size (sourceImages s))) eqn:Hguard; [done|].
  apply orb_false_iff in Hguard as [H1 H2].
  rewrite QList_removeAt_Some by lia. norm_trace.
  fold (customSourceImages (m_settings s)).
  destruct (QList_removeAt (customSourceImages (m_settings s)) _); norm_trace; done.
Qed.

End SourceList.

Lemma QStringList_contains_elem (l : list string) (x : string) :
  QStringList_contains l x = true ↔ x ∈ l.
Proof.
  unfold QStringList_contains. rewrite existsb_exists. split.
  - intros (y & Hin & Heq). apply String.eqb_eq in Heq. subst.
    by apply list_elem_of_In.
  - intros Hin. exists x. split; [by apply list_elem_of_In|apply String.eqb_refl].
Qed.

Lemma insert_custom_scalars (s s' : ApplicationSettings) (v : QVariant) :
  m_settings s' = <[KEY_CUSTOM_SOURCE_IMAGES := v]> (m_settings s) →
  scalarsKept s s' ∧
  persistedRecentProjects (m_settings s') = persistedRecentProjects (m_settings s).
Proof.
  intros Hst. split.
  - unfold scalarsKept, useLegacyShaders, codeFontFile, codeFontSize, QSettings_value.
    by rewrite Hst, !lookup_insert_ne.
  - rewrite Hst. by apply insert_outside_group.
Qed.

Lemma customSourceImages_insert (st : gmap string QVariant) (l : list string) :
  customSourceImages (<[KEY_CUSTOM_SOURCE_IMAGES := QStringList l]> st) = l.
Proof. apply customSourceImages_setValue. Qed.

Lemma drop_delete {A} (l : list A) (n i : nat) :
  (n ≤ i)%nat → drop n (delete i l) = delete (i - n)%nat (drop n l).
Proof.
  revert l i. induction n as [|n IH]; intros l i Hle.
  - by rewrite Nat.sub_0_r.
  - destruct l as [|x l]; [done|]. destruct i as [|i]; [lia|].
    cbn. apply IH. lia.
Qed.

Section SourceListProperties.

Variable toLocalFile : string → string.
Variable imageReader : string → option (Z * Z).

(** X7: [addSourceImage] never fails with an assertion; it returns true
    exactly for a path that is not empty and not yet a file of the source
    list.  A refused image and a default image ([canRemove] false) leave the
    store as it is; an accepted removable image is afterwards in the
    persisted custom list, appended once if it was not there.  The scalar
    preferences, the recent projects and the other two models are not
    touched. *)
Theorem addSourceImage_persists (s : ApplicationSettings) (path : string)
    (canRemove : bool) :
  ∃ r s',
    addSourceImage toLocalFile imageReader path canRemove s = Some (r, s') ∧
    (r = true ↔ path ≠ "" ∧ path ∉ sourceFiles s) ∧
    (r = false ∨ canRemove = false → m_settings s' = m_settings s) ∧
    (r = true → canRemove = true →
       customSourceImages (m_settings s') =
         if decide (path ∈ customSourceImages (m_settings s))
         then customSourceImages (m_settings s)
         else customSourceImages (m_settings s) ++ [path]) ∧
    scalarsKept s s' ∧
    persistedRecentProjects (m_settings s') = persistedRecentProjects (m_settings s) ∧
    m_backgroundImagesModel s' = m_backgroundImagesModel s ∧
    m_recentProjectsModel s' = m_recentProjectsModel s.
Proof.
  destruct (addSourceImage_run toLocalFile imageReader s path canRemove)
    as (r & s' & Hrun & Hbg & Hrp & _ &
        [(-> & Hwhy & _ & Hst)|(-> & Hne & Hfresh & _ & Hst)]).
  - exists false, s'. split; [done|]. split; [|split; [done|split; [done|]]].
    + split; [discriminate|]. intros [? ?]. by destruct Hwhy.
    + unfold scalarsKept, useLegacyShaders, codeFontFile, codeFontSize.
      by rewrite Hst.
  - exists true, s'. split; [done|]. split; [done|].
    destruct canRemove; cbn [andb] in Hst.
    2:{ split; [done|]. split; [done|].
        unfold scalarsKept, useLegacyShaders, codeFontFile, codeFontSize.
        by rewrite Hst. }
    destruct (QStringList_contains (customSourceImages (m_settings s)) path) eqn:Hc;
      cbn [negb] in Hst.
    + apply QStringList_contains_elem in Hc.
      split; [by intros [?|?]|]. split; [by rewrite decide_True, Hst|].
      unfold scalarsKept, useLegacyShaders, codeFontFile, codeFontSize.
      by rewrite Hst.
    + assert (Hnot : path ∉ customSourceImages (m_settings s)).
      { intros Hin. apply QStringList_contains_elem in Hin. congruence. }
      split; [by intros [?|?]|].
      destruct (insert_custom_scalars s s' _ Hst) as [Hsc Hpers].
      split; [|done]. intros _ _. rewrite decide_False by done.
      rewrite Hst. apply customSourceImages_setValue.
Qed.

(** X8: the source list never holds an empty file or the same file twice:
    when that is so before [addSourceImage] or [removeSourceImage], it is so
    after, whatever the arguments and the result. *)
Theorem sourceFiles_invariant (s : ApplicationSettings) :
  NoDup (sourceFiles s) →
  "" ∉ sourceFiles s →
  (∀ path canRemove r s',
     addSourceImage toLocalFile imageReader path canRemove s = Some (r, s') →
     NoDup (sourceFiles s') ∧ "" ∉ sourceFiles s') ∧
  (∀ index r s',
     removeSourceImage index s = Some (r, s') →
     NoDup (sourceFiles s') ∧ "" ∉ sourceFiles s').
Proof.
  intros Hnodup Hnoempty. split.
  - intros path canRemove r s' Hrun.
    destruct (addSourceImage_run toLocalFile imageReader s path canRemove)
      as (r0 & s0 & Hrun0 & _ & _ & _ & Hcase).
    rewrite Hrun in Hrun0. injection Hrun0 as <- <-.
    unfold sourceFiles in *.
    destruct Hcase as [(_ & _ & -> & _)|(_ & Hne & Hfresh & -> & _)]; [done|].
    rewrite fmap_app. cbn [fmap list_fmap ImagesModel.file]. split.
    + apply NoDup_app. split; [done|]. split; [|apply NoDup_singleton].
      intros x Hx Hin. apply list_elem_of_singleton in Hin. by subst.
    + rewrite elem_of_app, list_elem_of_singleton. intros [?|?]; [done|by subst].
  - intros index r s'. rewrite removeSourceImage_run.
    destruct ((index <? 0) || _); [by intros [= <- <-]|].
    destruct (QList_removeAt _ _); [|discriminate]. intros [= <- <-].
    unfold sourceFiles, sourceImages in *. cbn [m_sourceImagesModel ImagesModel.m_modelList].
    rewrite list_fmap_delete. split.
    + eapply sublist_NoDup; [exact Hnodup|apply sublist_delete].
    + intros Hin. apply Hnoempty. eapply elem_of_sublist; [exact Hin|apply sublist_delete].
Qed.

(** X9: alignment of the source list with the persisted custom list (the
    entries after the defaults are the persisted paths, in order) is kept by
    adding a removable image and by removing at an index past the defaults;
    in an aligned state such a removal never runs out of range, and it
    returns true exactly when the index is within the list. *)
Theorem aligned_preserved (s : ApplicationSettings) :
  aligned s →
  (∀ path, ∃ r s',
     addSourceImage toLocalFile imageReader path true s = Some (r, s') ∧ aligned s') ∧
  (∀ index, QList_size defaultSources ≤ index →
     ∃ r s', removeSourceImage index s = Some (r, s') ∧
             (r = true ↔ index < QList_size (sourceImages s)) ∧
             aligned s').
Proof.
  intros [Hlen Hfiles]. split.
  - intros path.
    destruct (addSourceImage_run toLocalFile imageReader s path true)
      as (r & s' & Hrun & _ & _ & _ & Hcase).
    exists r, s'. split; [done|]. unfold aligned.
    destruct Hcase as [(_ & _ & -> & ->)|(_ & Hne & Hfresh & -> & Hst)]; [done|].
    assert (Hnot : path ∉ customSourceImages (m_settings s)).
    { intros Hin. apply Hfresh. rewrite <- Hfiles in Hin. unfold sourceFiles.
      rewrite fmap_drop in Hin. eapply elem_of_sublist; [exact Hin|apply sublist_drop]. }
    cbn [andb] in Hst.
    replace (QStringList_contains (customSourceImages (m_settings s)) path) with false in Hst.
    2:{ symmetry. destruct (QStringList_contains _ _) eqn:E; [|done].
        by apply QStringList_contains_elem in E. }
    cbn [negb] in Hst. rewrite Hst, customSourceImages_insert.
    rewrite length_app, drop_app_le, fmap_app, Hfiles by done.
    split; [lia|done].
  - intros index Hindex. rewrite removeSourceImage_run.
    change (QList_size defaultSources) with 4 in *.
    change (length defaultSources) with 4%nat in *.
    destruct ((index <? 0) || (index >=? QList_size (sourceImages s))) eqn:Hguard.
    { exists false, s. split; [done|]. split; [|done].
      split; [discriminate|]. apply orb_true_iff in Hguard. lia. }
    apply orb_false_iff in Hguard as [_ Hlt].
    assert (Hcustom : length (customSourceImages (m_settings s))
                      = (length (sourceImages s) - 4)%nat).
    { rewrite <- Hfiles, length_fmap, length_drop. done. }
    rewrite QList_removeAt_Some by (unfold QList_size in *; lia).
    eexists true, _. split; [reflexivity|]. split; [split; [lia|done]|].
    unfold aligned, sourceImages. cbn [m_sourceImagesModel m_settings ImagesModel.m_modelList].
    fold (sourceImages s). change (length defaultSources) with 4%nat.
    rewrite customSourceImages_insert.
    rewrite length_delete by (apply lookup_lt_is_Some; unfold QList_size in *; lia).
    split; [unfold QList_size in *; lia|].
    rewrite drop_delete by lia. rewrite list_fmap_delete, Hfiles.
    f_equal. lia.
Qed.

End SourceListProperties.

Lemma addSourceImage_persists_witness :
  ∃ s', addSourceImage (λ p, p) (λ _, None) "" true emptyState = Some (false, s') ∧
        m_settings s' = m_settings emptyState.
Proof.
  destruct (addSourceImage_persists (λ p, p) (λ _, None) emptyState "" true)
    as (r & s' & Hrun & Htrue & Hstore & _).
  destruct r.
  - destruct (proj1 Htrue eq_refl) as [Hne _]. exfalso. apply Hne. reflexivity.
  - exists s'. split; [exact Hrun|]. apply Hstore. left. reflexivity.
Defined.

Lemma sourceFiles_invariant_witness :
  ∃ r s', addSourceImage (λ p, p) (λ _, None) "a.png" true emptyState = Some (r, s') ∧
          NoDup (sourceFiles s').
Proof.
  destruct (addSourceImage (λ p, p) (λ _, None) "a.png" true emptyState)
    as [[r s']|] eqn:Hrun; [|vm_compute in Hrun; discriminate].
  exists r, s'. split; [reflexivity|].
  destruct (sourceFiles_invariant (λ p, p) (λ _, None) emptyState) as [Hadd _].
  - apply NoDup_nil_2.
  - apply not_elem_of_nil.
  - apply (Hadd "a.png" true r s' Hrun).
Defined.

Lemma aligned_preserved_witness :
  ∃ r s', removeSourceImage 4
            (set_settings {[ KEY_CUSTOM_SOURCE_IMAGES := QStringList [""] ]}
               (set_sourceImages
                  (replicate 5 ImagesModel.ImagesData_default) emptyState))
          = Some (r, s') ∧ aligned s'.
Proof.
  destruct (proj2 (aligned_preserved (λ p, p) (λ _, None)
      (set_settings {[ KEY_CUSTOM_SOURCE_IMAGES := QStringList [""] ]}
         (set_sourceImages (replicate 5 ImagesModel.ImagesData_default) emptyState))
      ltac:(split; [vm_compute; lia|reflexivity])) 4 ltac:(vm_compute; discriminate))
    as (r & s' & Hrun & _ & Haligned).
  exists r, s'. split; [exact Hrun|exact Haligned].
Defined.

(** ** The constructor *)

Section Constructor.

Variable toLocalFile : string → string.
Variable imageReader : string → option (Z * Z).
Variable relativeToAbsolutePath : string → string → string.
Variable QQEM_DATA_PATH : string.
Variable initialImageIndex : Z.

Lemma addDefaultSources_addSourceImages (l : list string) (s : ApplicationSettings) :
  addDefaultSources toLocalFile imageReader relativeToAbsolutePath QQEM_DATA_PATH l s
  = addSourceImages toLocalFile imageReader false
      ((λ source, relativeToAbsolutePath source QQEM_DATA_PATH) <$> l) s.
Proof.
  revert s. induction l as [|source l IH]; intros s; [done|].
  cbn [addDefaultSources addSourceImages fmap list_fmap]. run_M.
  destruct (addSourceImage _ _ _ false s) as [[r s1]|]; [apply IH|done].
Qed.

Lemma addCustomSources_addSourceImages (l : list string) (s : ApplicationSettings) :
  addCustomSources toLocalFile imageReader l s
  = addSourceImages toLocalFile imageReader true l s.
Proof.
  revert s. induction l as [|source l IH]; intros s; [done|].
  cbn [addCustomSources addSourceImages]. run_M.
  destruct (addSourceImage _ _ _ true s) as [[r s1]|]; [apply IH|done].
Qed.

(** A loop of [addSourceImage] calls that does not write (default images,
    or removable images that the store already lists): it runs to the end,
    leaves the store alone, appends entries with the given flag, keeps the
    list free of empty and repeated files, and all non-empty paths end up in
    the list; fresh distinct non-empty paths are appended as they are. *)
Lemma addSourceImages_run (canRemove : bool) (paths : list string)
    (s : ApplicationSettings) :
  (canRemove = true → ∀ x, x ∈ paths → x ∈ customSourceImages (m_settings s)) →
  ∃ s' added,
    addSourceImages toLocalFile imageReader canRemove paths s = Some (tt, s') ∧
    m_settings s' = m_settings s ∧
    m_backgroundImagesModel s' = m_backgroundImagesModel s ∧
    m_recentProjectsModel s' = m_recentProjectsModel s ∧
    ImagesModel.m_currentIndex (m_sourceImagesModel s')
      = ImagesModel.m_currentIndex (m_sourceImagesModel s) ∧
    sourceImages s' = sourceImages s ++ added ∧
    Forall (λ d, ImagesModel.canRemove d = canRemove) added ∧
    (NoDup (sourceFiles s) → "" ∉ sourceFiles s →
       NoDup (sourceFiles s') ∧ "" ∉ sourceFiles s') ∧
    (∀ x, x ∈ paths → x ≠ "" → x ∈ sourceFiles s') ∧
    (NoDup (sourceFiles s ++ paths) → "" ∉ paths →
       ImagesModel.file <$> added = paths).
Proof.
  revert s. induction paths as [|path paths IH]; intros s Hlisted.
  { exists s, []. rewrite app_nil_r. repeat split; auto.
    intros x Hx. by apply elem_of_nil in Hx. }
  cbn [addSourceImages]. run_M.
  destruct (addSourceImage_run toLocalFile imageReader s path canRemove)
    as (r & s1 & Hrun1 & Hbg1 & Hrp1 & Hidx1 & Hcase).
  rewrite Hrun1.
  assert (Hst1 : m_settings s1 = m_settings s).
  { destruct Hcase as [(_ & _ & _ & ?)|(_ & _ & _ & _ & Hst)]; [done|].
    destruct canRemove; [|done]. cbn [andb] in Hst.
    replace (QStringList_contains (customSourceImages (m_settings s)) path)
      with true in Hst; [done|].
    symmetry. apply QStringList_contains_elem, Hlisted; [done|]. apply elem_of_cons. by left. }
  destruct (IH s1) as (s' & added & Hrun & Hst & Hbg & Hrp & Hidx & Hlist & Hflag
                         & Hinv & Hmem & Hexact).
  { intros Hc x Hx. rewrite Hst1. apply Hlisted; [done|]. apply elem_of_cons. by right. }
  destruct Hcase as [(-> & Hwhy & Hsrc1 & _)|(-> & Hne & Hfresh & Hsrc1 & _)].
  - (* refused *)
    assert (Hfiles1 : sourceFiles s1 = sourceFiles s) by (unfold sourceFiles; by rewrite Hsrc1).
    exists s', added. rewrite Hrun. split; [done|].
    rewrite Hst, Hst1, Hbg, Hbg1, Hrp, Hrp1, Hidx, Hidx1, Hlist, Hsrc1.
    repeat split; auto.
    + rewrite <- Hfiles1 in *. by apply Hinv.
    + rewrite <- Hfiles1 in *. by apply Hinv.
    + intros x Hx Hx'. apply elem_of_cons in Hx as [->|Hx]; [|by apply Hmem].
      destruct Hwhy as [?|Hin]; [done|].
      unfold sourceFiles in *. rewrite Hlist, Hsrc1, fmap_app, elem_of_app. by left.
    + intros Hnd Hnoempty. exfalso.
      destruct Hwhy as [->|Hin].
      * apply Hnoempty, elem_of_cons. by left.
      * apply NoDup_app in Hnd as (_ & Hdisj & _). apply (Hdisj path Hin).
        apply elem_of_cons. by left.
  - (* appended *)
    set (d := {| ImagesModel.name := ""; ImagesModel.file := path;
                 ImagesModel.width := _; ImagesModel.height := _;
                 ImagesModel.canRemove := canRemove |}) in *.
    assert (Hfiles1 : sourceFiles s1 = sourceFiles s ++ [path])
      by (unfold sourceFiles; by rewrite Hsrc1, fmap_app).
    exists s', (d :: added). rewrite Hrun. split; [done|].
    rewrite Hst, Hst1, Hbg, Hbg1, Hrp, Hrp1, Hidx, Hidx1, Hlist, Hsrc1, <- app_assoc.
    repeat split; auto.
    + apply Hinv.
      * rewrite Hfiles1. apply NoDup_app. split; [done|]. split; [|apply NoDup_singleton].
        intros x Hx Hin. apply list_elem_of_singleton in Hin. by subst.
      * rewrite Hfiles1, elem_of_app, list_elem_of_singleton.
        intros [?|?]; [done|by subst].
    + apply Hinv.
      * rewrite Hfiles1. apply NoDup_app. split; [done|]. split; [|apply NoDup_singleton].
        intros x Hx Hin. apply list_elem_of_singleton in Hin. by subst.
      * rewrite Hfiles1, elem_of_app, list_elem_of_singleton.
        intros [?|?]; [done|by subst].
    + intros x Hx Hx'. apply elem_of_cons in Hx as [->|Hx]; [|by apply Hmem].
      unfold sourceFiles in *. rewrite Hlist, Hsrc1, !fmap_app, !elem_of_app.
      left. right. cbn. apply list_elem_of_singleton. done.
    + intros Hnd Hnoempty. cbn [fmap list_fmap ImagesModel.file d]. f_equal.
      apply Hexact.
      * rewrite Hfiles1, <- app_assoc. done.
      * intros Hin. apply Hnoempty, elem_of_cons. by right.
Qed.

Lemma addDefaultBackgrounds_run (l : list string) (s : ApplicationSettings) :
  ∃ s', addDefaultBackgrounds l s = Some (tt, s') ∧
        backgroundImages s' = backgroundImages s ++
          ((λ source, {| ImagesModel.name := ""; ImagesModel.file := source;
                         ImagesModel.width := 0; ImagesModel.height := 0;
                         ImagesModel.canRemove := false |}) <$> l) ∧
        ImagesModel.m_currentIndex (m_backgroundImagesModel s')
          = ImagesModel.m_currentIndex (m_backgroundImagesModel s) ∧
        m_sourceImagesModel s' = m_sourceImagesModel s ∧
        m_recentProjectsModel s' = m_recentProjectsModel s ∧
        m_settings s' = m_settings s ∧
        trace s' = trace s.
Proof.
  revert s. induction l as [|source l IH]; intros s.
  { exists s. rewrite app_nil_r. by repeat split. }
  cbn [addDefaultBackgrounds]. run_M.
  match goal with |- context [addDefaultBackgrounds l ?S] =>
    destruct (IH S) as (s' & Hrun & Hbg & Hidx & Hsrc & Hrp & Hst & Htr)
  end.
  exists s'. rewrite Hrun. split; [done|].
  rewrite Hbg, Hidx, Hsrc, Hrp, Hst, Htr. unfold backgroundImages.
  cbn [set_backgroundImages m_backgroundImagesModel m_sourceImagesModel
       m_recentProjectsModel m_settings trace ImagesModel.m_modelList
       ImagesModel.m_currentIndex fmap list_fmap
       ImagesModel.name ImagesModel.width ImagesModel.height ImagesModel.canRemove
       ImagesModel.ImagesData_default].
  rewrite <- app_assoc. by repeat split.
Qed.

(** X10: the constructor runs to the end for every store and every
    collaborator, and never writes to the store.  The source list it builds
    has no empty and no repeated file and holds every non-empty resolved
    default and every non-empty persisted custom path; the backgrounds are
    the three defaults, there is no recent project, and both image models
    start at the given index. *)
Theorem ApplicationSettings_new_spec (persisted : gmap string QVariant) :
  ∃ s,
    ApplicationSettings_new toLocalFile imageReader relativeToAbsolutePath
      QQEM_DATA_PATH initialImageIndex persisted = Some s ∧
    m_settings s = persisted ∧
    NoDup (sourceFiles s) ∧
    ("" ∉ sourceFiles s) ∧
    (∀ x, x ≠ "" →
       x ∈ ((λ source, relativeToAbsolutePath source QQEM_DATA_PATH) <$> defaultSources)
       ∨ x ∈ customSourceImages persisted →
       x ∈ sourceFiles s) ∧
    ImagesModel.file <$> backgroundImages s = defaultBackgrounds ∧
    recentProjects s = [] ∧
    ImagesModel.m_currentIndex (m_sourceImagesModel s) = initialImageIndex ∧
    ImagesModel.m_currentIndex (m_backgroundImagesModel s) = initialImageIndex.
Proof.
  unfold ApplicationSettings_new. run_M.
  set (s0 := {| m_sourceImagesModel := ImagesModel.new initialImageIndex;
                m_backgroundImagesModel := ImagesModel.new initialImageIndex;
                m_recentProjectsModel := MenusModel.new;
                m_settings := persisted; trace := [] |}).
  rewrite addDefaultSources_addSourceImages.
  destruct (addSourceImages_run false
              ((λ source, relativeToAbsolutePath source QQEM_DATA_PATH) <$> defaultSources)
              s0 ltac:(discriminate))
    as (s1 & added1 & Hrun1 & Hst1 & Hbg1 & Hrp1 & Hidx1 & Hlist1 & _ & Hinv1 & Hmem1 & _).
  rewrite Hrun1. rewrite addCustomSources_addSourceImages.
  fold (customSourceImages (m_settings s1)).
  destruct (addSourceImages_run true (customSourceImages (m_settings s1)) s1
              ltac:(auto))
    as (s2 & added2 & Hrun2 & Hst2 & Hbg2 & Hrp2 & Hidx2 & Hlist2 & _ & Hinv2 & Hmem2 & _).
  rewrite Hrun2.
  destruct (addDefaultBackgrounds_run defaultBackgrounds s2)
    as (s3 & Hrun3 & Hbg3 & Hidx3 & Hsrc3 & Hrp3 & Hst3 & _).
  rewrite Hrun3. exists s3. split; [done|].
  assert (Hfiles3 : sourceFiles s3 = sourceFiles s2)
    by (unfold sourceFiles, sourceImages; by rewrite Hsrc3).
  destruct Hinv1 as [Hnd1 Hne1]; [apply NoDup_nil_2|apply not_elem_of_nil|].
  destruct (Hinv2 Hnd1 Hne1) as [Hnd2 Hne2].
  rewrite Hfiles3, Hst3, Hst2, Hst1, Hidx3, Hsrc3, Hidx2, Hidx1.
  unfold recentProjects. rewrite Hrp3, Hrp2, Hrp1, Hbg3.
  unfold backgroundImages. rewrite Hbg2, Hbg1. rewrite Hst1 in Hmem2.
  repeat split; auto.
  intros x Hx [Hin|Hin].
  - unfold sourceFiles. rewrite Hlist2, fmap_app, elem_of_app. left. by apply Hmem1.
  - by apply Hmem2.
Qed.

(** X11: when the resolved default paths and the persisted custom paths are
    all distinct and none is empty, the constructor builds exactly the
    defaults followed by the persisted paths, the former not removable and
    the latter removable, and the state is aligned: every index past the
    defaults has a valid position in the persisted list. *)
Theorem ApplicationSettings_new_aligned (persisted : gmap string QVariant) :
  let defaults :=
    (λ source, relativeToAbsolutePath source QQEM_DATA_PATH) <$> defaultSources in
  NoDup (defaults ++ customSourceImages persisted) →
  "" ∉ defaults ++ customSourceImages persisted →
  ∃ s,
    ApplicationSettings_new toLocalFile imageReader relativeToAbsolutePath
      QQEM_DATA_PATH initialImageIndex persisted = Some s ∧
    sourceFiles s = defaults ++ customSourceImages persisted ∧
    ImagesModel.canRemove <$> sourceImages s
      = replicate (length defaultSources) false
        ++ replicate (length (customSourceImages persisted)) true ∧
    aligned s.
Proof.
  intros defaults Hnodup Hnoempty.
  unfold ApplicationSettings_new. run_M.
  set (s0 := {| m_sourceImagesModel := ImagesModel.new initialImageIndex;
                m_backgroundImagesModel := ImagesModel.new initialImageIndex;
                m_recentProjectsModel := MenusModel.new;
                m_settings := persisted; trace := [] |}).
  rewrite addDefaultSources_addSourceImages. fold defaults.
  destruct (addSourceImages_run false defaults s0 ltac:(discriminate))
    as (s1 & added1 & Hrun1 & Hst1 & _ & _ & _ & Hlist1 & Hflag1 & _ & _ & Hexact1).
  rewrite Hrun1. rewrite addCustomSources_addSourceImages.
  fold (customSourceImages (m_settings s1)).
  destruct (addSourceImages_run true (customSourceImages (m_settings s1)) s1
              ltac:(auto))
    as (s2 & added2 & Hrun2 & Hst2 & _ & _ & _ & Hlist2 & Hflag2 & _ & _ & Hexact2).
  rewrite Hrun2.
  destruct (addDefaultBackgrounds_run defaultBackgrounds s2)
    as (s3 & Hrun3 & _ & _ & Hsrc3 & _ & Hst3 & _).
  rewrite Hrun3. exists s3. split; [done|].
  rewrite Hst1 in *.
  assert (Hfiles1 : ImagesModel.file <$> added1 = defaults).
  { apply Hexact1.
    - by apply NoDup_app in Hnodup as (? & _ & _).
    - intros Hin. apply Hnoempty, elem_of_app. by left. }
  assert (Hsrc1 : sourceImages s1 = added1) by done.
  assert (Hfiles2 : ImagesModel.file <$> added2 = customSourceImages persisted).
  { apply Hexact2.
    - unfold sourceFiles. by rewrite Hsrc1, Hfiles1.
    - intros Hin. apply Hnoempty, elem_of_app. by right. }
  assert (Hsrc : sourceImages s3 = added1 ++ added2).
  { unfold sourceImages at 1. rewrite Hsrc3. fold (sourceImages s2).
    by rewrite Hlist2, Hsrc1. }
  assert (Hlen1 : length added1 = length defaultSources).
  { rewrite <- (length_fmap ImagesModel.file), Hfiles1. unfold defaults.
    by rewrite length_fmap. }
  split; [|split].
  - unfold sourceFiles. by rewrite Hsrc, fmap_app, Hfiles1, Hfiles2.
  - rewrite Hsrc, fmap_app. f_equal.
    + rewrite <- Hlen1. clear -Hflag1. induction Hflag1 as [|d l Hd _ IH]; [done|].
      cbn. by rewrite Hd, IH.
    + rewrite <- Hfiles2, length_fmap. clear -Hflag2.
      induction Hflag2 as [|d l Hd _ IH]; [done|]. cbn. by rewrite Hd, IH.
  - unfold aligned. rewrite Hsrc, Hst3, Hst2, length_app, <- Hlen1.
    split; [lia|]. by rewrite drop_app_length.
Qed.

End Constructor.

Lemma ApplicationSettings_new_spec_witness :
  ∃ s, ApplicationSettings_new (λ p, p) (λ _, None) (λ source root, root +:+ source)
         "/data/" 0 {[ KEY_CUSTOM_SOURCE_IMAGES := QStringList ["/tmp/a.png"] ]} = Some s ∧
       "/tmp/a.png" ∈ sourceFiles s.
Proof.
  destruct (ApplicationSettings_new_spec (λ p, p) (λ _, None)
              (λ source root, root +:+ source) "/data/" 0
              {[ KEY_CUSTOM_SOURCE_IMAGES := QStringList ["/tmp/a.png"] ]})
    as (s & Hrun & _ & _ & _ & Hmem & _).
  exists s. split; [exact Hrun|]. apply Hmem.
  - discriminate.
  - right. vm_compute. apply list_elem_of_here.
Defined.

Lemma ApplicationSettings_new_aligned_witness :
  ∃ s, ApplicationSettings_new (λ p, p) (λ _, None) (λ source root, root +:+ source)
         "/data/" 0 {[ KEY_CUSTOM_SOURCE_IMAGES := QStringList ["/tmp/a.png"] ]} = Some s ∧
       aligned s.
Proof.
  destruct (ApplicationSettings_new_aligned (λ p, p) (λ _, None)
              (λ source root, root +:+ source) "/data/" 0
              {[ KEY_CUSTOM_SOURCE_IMAGES := QStringList ["/tmp/a.png"] ]})
    as (s & Hrun & _ & _ & Haligned).
  - apply (bool_decide_unpack _). vm_compute. exact I.
  - apply (bool_decide_unpack _). vm_compute. exact I.
  - exists s. split; [exact Hrun|exact Haligned].
Defined.

(** X12: [removeSourceImage] takes the position in the persisted list to be
    [index - defaultSources.size()] without a check: for an index within the
    source list whose position is not valid there (every default image, and
    every entry of a list that is not aligned with the store), the call runs
    into the range assertion of [QList::removeAt] after the source entry has
    been removed. *)
Theorem removeSourceImage_unchecked_position (s : ApplicationSettings) (index : Z) :
  0 ≤ index < QList_size (sourceImages s) →
  ¬ (0 ≤ index - QList_size defaultSources
       < QList_size (customSourceImages (m_settings s))) →
  removeSourceImage index s = None.
Proof.
  intros Hin Hpos. rewrite removeSourceImage_run.
  replace ((index <? 0) || (index >=? QList_size (sourceImages s))) with false
    by (symmetry; apply orb_false_iff; lia).
  by rewrite QList_removeAt_None.
Qed.

Lemma removeSourceImage_unchecked_position_witness :
  removeSourceImage 0
    (set_sourceImages (replicate 4 ImagesModel.ImagesData_default) emptyState) = None.
Proof.
  apply (removeSourceImage_unchecked_position
           (set_sourceImages (replicate 4 ImagesModel.ImagesData_default) emptyState) 0).
  - vm_compute. split; [discriminate|reflexivity].
  - vm_compute. intros [H _]. apply H. reflexivity.
Defined.

(** ** Recent projects: every state *)

Lemma QSettings_remove_outside (st : gmap string QVariant) (key k : string) :
  inRecentProjectsGroup key = true → inRecentProjectsGroup k = false →
  QSettings_remove st key !! k = st !! k.
Proof.
  intros Hkey Hk. apply QSettings_remove_lookup_other.
  destruct (is_subkey key k) eqn:Hsub; [|done].
  pose proof (is_subkey_in_group key k Hkey Hsub). congruence.
Qed.

Lemma insert_outside (st : gmap string QVariant) (key k : string) (v : QVariant) :
  inRecentProjectsGroup key = true → inRecentProjectsGroup k = false →
  <[key := v]> st !! k = st !! k.
Proof. intros Hkey Hk. apply lookup_insert_ne. intros ->. congruence. Qed.

Lemma writeRecentProjects_frame (l : list MenusModel.MenusData) (i sizeGuess : Z)
    (s : ApplicationSettings) :
  ∃ g s', writeRecentProjects l i sizeGuess s = Some (g, s') ∧
          m_sourceImagesModel s' = m_sourceImagesModel s ∧
          m_backgroundImagesModel s' = m_backgroundImagesModel s ∧
          outsideGroupKept s s'.
Proof.
  revert i sizeGuess s. induction l as [|d l IH]; intros i sizeGuess s.
  { exists sizeGuess, s. by repeat split. }
  cbn [writeRecentProjects]. run_M. norm_trace.
  match goal with |- context [writeRecentProjects l (i + 1) ?g ?S] =>
    destruct (IH (i + 1) g S) as (g' & s' & Hrun & Hsrc & Hbg & Hout)
  end.
  exists g', s'. rewrite Hrun. split; [done|]. rewrite Hsrc, Hbg.
  split; [done|]. split; [done|].
  intros k Hk. rewrite Hout by done. cbn [m_settings]. unfold QSettings_setValue.
  by rewrite !insert_outside by (done || apply arrayKey_in_group).
Qed.

Lemma writeRecentProjectsArray_frame (l : list MenusModel.MenusData)
    (s : ApplicationSettings) :
  ∃ s', writeRecentProjectsArray l s = Some (tt, s') ∧
        m_sourceImagesModel s' = m_sourceImagesModel s ∧
        m_backgroundImagesModel s' = m_backgroundImagesModel s ∧
        outsideGroupKept s s'.
Proof.
  unfold writeRecentProjectsArray. run_M. norm_trace.
  match goal with |- context [writeRecentProjects l 0 0 ?S] =>
    destruct (writeRecentProjects_frame l 0 0 S) as (g & s' & Hrun & Hsrc & Hbg & Hout)
  end.
  rewrite Hrun. eexists. split; [reflexivity|]. norm_trace.
  rewrite Hsrc, Hbg. split; [done|]. split; [done|].
  intros k Hk. cbn [m_settings]. unfold QSettings_setValue.
  rewrite insert_outside by (done || apply sizeKey_in_group).
  rewrite Hout by done. cbn [m_settings].
  by apply QSettings_remove_outside; [apply sizeKey_in_group|].
Qed.

(** [addOrMoveFirst] on a loaded list: it never runs out of range, puts the
    file first, and keeps the list well-formed and within [max_items]. *)
Lemma addOrMoveFirst_total (projectName projectFile : string)
    (l : list MenusModel.MenusData) :
  projectName ≠ "" → projectFile ≠ "" →
  Forall (λ d, wellFormed d = true) l →
  QList_size l ≤ max_items →
  ∃ d rest,
    addOrMoveFirst projectName projectFile l
      (projectListIndexOf projectFile l 0 (-1)) = Some (d :: rest) ∧
    MenusModel.file d = projectFile ∧
    Forall (λ d, wellFormed d = true) (d :: rest) ∧
    QList_size (d :: rest) ≤ max_items.
Proof.
  intros Hname Hfile Hwf Hsize. unfold addOrMoveFirst.
  destruct (projectListIndexOf_spec projectFile l 0 (-1))
    as [[Hnot ->]|[Hrange (d & Hlook & Hd)]].
  - cbn [Z.eqb Pos.eqb mbind option_bind].
    set (new := {| MenusModel.name := projectName; MenusModel.file := projectFile |}).
    assert (Hnew : wellFormed new = true).
    { unfold wellFormed. cbn.
      apply isEmpty_false in Hname, Hfile. by rewrite Hname, Hfile. }
    destruct (QList_size (new :: l) >? max_items) eqn:Hover.
    + destruct l as [|x l']; [discriminate|].
      unfold QList_removeLast.
      change (removelast (new :: x :: l')) with (new :: removelast (x :: l')).
      exists new, (removelast (x :: l')).
      split; [done|]. split; [done|]. rewrite removelast_take. split.
      * constructor; [done|]. by apply Forall_take.
      * unfold QList_size, max_items in *. cbn [length] in *.
        rewrite length_take. cbn [length]. lia.
    + exists new, l. split; [done|]. split; [done|].
      split; [by constructor|lia].
  - rewrite Z.sub_0_r in Hlook.
    set (idx := projectListIndexOf projectFile l 0 (-1)) in *.
    replace (idx =? -1) with false by (symmetry; lia).
    assert (Hperm : l ≡ₚ d :: delete (Z.to_nat idx) l)
      by (by apply delete_Permutation).
    set (l' := delete (Z.to_nat idx) l) in *.
    destruct (idx >? 0) eqn:Hpos.
    + unfold QList_move.
      rewrite !bool_decide_eq_true_2 by lia. cbn [andb].
      replace (idx =? 0) with false by (symmetry; lia).
      rewrite Hlook. fold l'. change (Z.to_nat 0) with 0%nat.
      rewrite take_0, drop_0. cbn [app mbind option_bind].
      replace (QList_size (d :: l') >? max_items) with false.
      2:{ symmetry. unfold QList_size in *. rewrite <- Hperm. lia. }
      exists d, l'. split; [done|]. split; [done|].
      split; [by rewrite <- Hperm|]. unfold QList_size in *. by rewrite <- Hperm.
    + assert (idx = 0) as Hzero by lia. rewrite Hzero in Hlook.
      destruct l as [|d0 rest]; [discriminate|]. injection Hlook as ->.
      cbn [mbind option_bind].
      replace (QList_size (d :: rest) >? max_items) with false by (symmetry; lia).
      exists d, rest. done.
Qed.

(** [updateRecentProjectsModel] in every state: it runs to the end, touches
    neither the image models nor a key outside its group, and is one of the
    early return, a plain load, and a load followed by a write. *)
Lemma updateRecentProjectsModel_total (projectName projectFile : string)
    (s : ApplicationSettings) :
  ∃ s',
    updateRecentProjectsModel projectName projectFile s = Some (tt, s') ∧
    m_sourceImagesModel s' = m_sourceImagesModel s ∧
    m_backgroundImagesModel s' = m_backgroundImagesModel s ∧
    outsideGroupKept s s' ∧
    ((alreadyFirst s projectFile = true ∧ s' = s) ∨
     (alreadyFirst s projectFile = false ∧
      effective (projectName, projectFile) = false ∧
      m_settings s' = m_settings s ∧
      recentProjects s' = loadedRecentProjects (m_settings s)) ∨
     (alreadyFirst s projectFile = false ∧
      effective (projectName, projectFile) = true ∧
      persistedRecentProjects (m_settings s') = recentProjects s' ∧
      Forall (λ d, wellFormed d = true) (recentProjects s') ∧
      QList_size (recentProjects s') ≤ max_items ∧
      headFile s' = Some projectFile)).
Proof.
  destruct (alreadyFirst s projectFile) eqn:Hfirst.
  { exists s. split; [by apply updateRecentProjectsModel_noop|].
    repeat split; auto. }
  unfold effective. cbn [fst snd].
  destruct (negb (isEmpty projectName) && negb (isEmpty projectFile)) eqn:Hgiven.
  - apply andb_true_iff in Hgiven as [Hn Hf].
    apply negb_true_iff in Hn, Hf. apply isEmpty_false in Hn as Hn', Hf as Hf'.
    unfold updateRecentProjectsModel. run_M.
    rewrite Hfirst. fold (recentProjectsSize (m_settings s)).
    rewrite readRecentProjects_loaded, Hn, Hf. cbn [negb andb].
    destruct (addOrMoveFirst_total projectName projectFile
                (loadedRecentProjects (m_settings s)) Hn' Hf'
                (loadedRecentProjects_wellFormed _) (loadedRecentProjects_size _))
      as (d & rest & Hlist & Hd & Hwf & Hsize).
    rewrite Hlist. run_M.
    destruct (writeRecentProjectsArray_spec (d :: rest) s) as (s1 & Hw & _ & Hpers).
    destruct (writeRecentProjectsArray_frame (d :: rest) s)
      as (s1' & Hw' & Hsrc & Hbg & Hout).
    rewrite Hw in Hw'. injection Hw' as <-.
    rewrite Hw. norm_trace.
    eexists. split; [reflexivity|]. norm_trace.
    split; [done|]. split; [done|]. split; [done|].
    right. right. unfold headFile, recentProjects. norm_trace.
    cbn [MenusModel.m_modelList head fmap option_fmap option_map].
    repeat split; auto. by f_equal.
  - eexists. split; [by apply updateRecentProjectsModel_reload|].
    norm_trace. split; [done|]. split; [done|]. split; [done|].
    right. left. done.
Qed.

Lemma loaded_of_persisted (s : ApplicationSettings) :
  persistedRecentProjects (m_settings s) = recentProjects s →
  Forall (λ d, wellFormed d = true) (recentProjects s) →
  QList_size (recentProjects s) ≤ max_items →
  recentProjectsLoaded s.
Proof.
  intros Hpers Hwf Hsize. unfold recentProjectsLoaded, loadedRecentProjects.
  rewrite Hpers, take_ge by (unfold QList_size, max_items in *; lia).
  by apply filter_all.
Qed.

(** X13: [updateRecentProjectsModel] never runs into an assertion of
    [QList], whatever the store and the model hold.  Unless it returns
    early, the model is afterwards what a load of the store yields, with at
    most [max_items] entries, each with a name and a file; and after a call
    with a name and a file, the file is the first of the model. *)
Theorem updateRecentProjectsModel_safe (s : ApplicationSettings)
    (projectName projectFile : string) :
  ∃ s',
    updateRecentProjectsModel projectName projectFile s = Some (tt, s') ∧
    (alreadyFirst s projectFile = false →
       recentProjectsLoaded s' ∧
       QList_size (recentProjects s') ≤ max_items ∧
       Forall (λ d, wellFormed d = true) (recentProjects s')) ∧
    (projectName ≠ "" → projectFile ≠ "" → headFile s' = Some projectFile).
Proof.
  destruct (updateRecentProjectsModel_total projectName projectFile s)
    as (s' & Hrun & _ & _ & _ &
        [[Hfirst ->]|[(Hfirst & Heff & Hst & Hlist)|(Hfirst & Heff & Hpers & Hwf & Hsize & Hhead)]]).
  - exists s. split; [done|]. split; [congruence|].
    intros _ _. by apply alreadyFirst_true in Hfirst as [_ ?].
  - exists s'. split; [done|]. split.
    + intros _. unfold recentProjectsLoaded. rewrite Hst, Hlist.
      split; [done|]. split;
        [apply loadedRecentProjects_size|apply loadedRecentProjects_wellFormed].
    + intros Hn Hf. apply isEmpty_false in Hn, Hf.
      unfold effective in Heff. cbn [fst snd] in Heff. rewrite Hn, Hf in Heff.
      discriminate.
  - exists s'. split; [done|]. split; [|done].
    intros _. split; [by apply loaded_of_persisted|done].
Qed.

Lemma updateRecentProjectsModel_safe_witness :
  ∃ s', updateRecentProjectsModel "A" "/a"
          (set_recentProjects (replicate 9 (entry "" "")) emptyState) = Some (tt, s') ∧
        headFile s' = Some "/a" ∧ QList_size (recentProjects s') ≤ max_items.
Proof.
  destruct (updateRecentProjectsModel_safe
              (set_recentProjects (replicate 9 (entry "" "")) emptyState) "A" "/a")
    as (s' & Hrun & Hload & Hhead).
  exists s'. split; [exact Hrun|]. split.
  - apply Hhead; discriminate.
  - apply Hload. reflexivity.
Defined.

Lemma MenusModel_eq (m m' : MenusModel.t) :
  MenusModel.m_modelList m = MenusModel.m_modelList m' → m = m'.
Proof. destruct m, m'. cbn. by intros ->. Qed.

(** X14: in every state, a second call of [updateRecentProjectsModel] with
    the same arguments right after the first leaves the three models and the
    store as the first call left them. *)
Theorem updateRecentProjectsModel_idempotent (s : ApplicationSettings)
    (projectName projectFile : string) :
  ∃ s' s'',
    updateRecentProjectsModel projectName projectFile s = Some (tt, s') ∧
    updateRecentProjectsModel projectName projectFile s' = Some (tt, s'') ∧
    same_data s' s''.
Proof.
  destruct (updateRecentProjectsModel_total projectName projectFile s)
    as (s' & Hrun & _ & _ & _ & Hcase).
  destruct (updateRecentProjectsModel_total projectName projectFile s')
    as (s'' & Hrun' & Hsrc' & Hbg' & _ & Hcase').
  exists s', s''. split; [done|]. split; [done|].
  destruct Hcase' as [[_ ->]|Hcase']; [by repeat split|].
  destruct Hcase as [[Hfirst ->]|[(Hfirst & Heff & Hst & Hlist)|(_ & Heff & _ & _ & _ & Hhead)]].
  - destruct Hcase' as [(? & _)|(? & _)]; congruence.
  - destruct Hcase' as [(Hfirst' & _ & Hst' & Hlist')|(_ & Heff' & _)]; [|congruence].
    unfold same_data. split; [done|]. split; [done|]. split; [|done].
    apply MenusModel_eq. fold (recentProjects s') (recentProjects s'').
    by rewrite Hlist', Hst, Hlist.
  - assert (alreadyFirst s' projectFile = true).
    { apply alreadyFirst_true. split; [|done].
      unfold effective in Heff. cbn [fst snd] in Heff.
      apply andb_true_iff in Heff as [_ Hf]. apply negb_true_iff in Hf.
      by apply isEmpty_false. }
    destruct Hcase' as [(? & _)|(? & _)]; congruence.
Qed.

(** ** Recent projects: what the three operations leave alone *)

Lemma removeRecentProjectsScan_frame (projectFile : string) (size : Z)
    (fuel : nat) (i : Z) (s s' : ApplicationSettings) :
  removeRecentProjectsScan fuel projectFile size i s = Some (tt, s') →
  m_sourceImagesModel s' = m_sourceImagesModel s ∧
  m_backgroundImagesModel s' = m_backgroundImagesModel s ∧
  outsideGroupKept s s'.
Proof.
  revert i. induction fuel as [|fuel IH]; intros i.
  { intros [= <-]. by repeat split. }
  cbn [removeRecentProjectsScan].
  destruct (i <? size); cbn [negb]; [|intros [= <-]; by repeat split].
  run_M.
  destruct (String.eqb _ projectFile); [|apply IH].
  norm_trace. unfold recentProjects at 1. norm_trace.
  destruct (QList_removeAt _ i); [|discriminate]. norm_trace.
  intros [= <-]. norm_trace. split; [done|]. split; [done|].
  intros k Hk. cbn [m_settings].
  by rewrite !QSettings_remove_outside by (done || apply arrayKey_in_group).
Qed.

(** X15: the three operations on the recent projects touch nothing but the
    recent-projects model and the keys of their group in the store: the
    source and background models, the three scalar preferences and the
    persisted custom sources are as before. *)
Theorem recentProjects_operations_frame (s : ApplicationSettings) :
  (∀ projectName projectFile, ∃ s',
     updateRecentProjectsModel projectName projectFile s = Some (tt, s') ∧
     m_sourceImagesModel s' = m_sourceImagesModel s ∧
     m_backgroundImagesModel s' = m_backgroundImagesModel s ∧
     scalarsKept s s' ∧
     customSourceImages (m_settings s') = customSourceImages (m_settings s)) ∧
  (∃ s', clearRecentProjectsModel s = Some (tt, s') ∧
         m_sourceImagesModel s' = m_sourceImagesModel s ∧
         m_backgroundImagesModel s' = m_backgroundImagesModel s ∧
         scalarsKept s s' ∧
         customSourceImages (m_settings s') = customSourceImages (m_settings s)) ∧
  (∀ projectFile s',
     removeRecentProjectsModel projectFile s = Some (tt, s') →
     m_sourceImagesModel s' = m_sourceImagesModel s ∧
     m_backgroundImagesModel s' = m_backgroundImagesModel s ∧
     scalarsKept s s' ∧
     customSourceImages (m_settings s') = customSourceImages (m_settings s)).
Proof.
  split; [|split].
  - intros projectName projectFile.
    destruct (updateRecentProjectsModel_total projectName projectFile s)
      as (s' & Hrun & Hsrc & Hbg & Hout & _).
    exists s'. split; [done|]. split; [done|]. split; [done|].
    by apply scalars_ext.
  - unfold clearRecentProjectsModel. run_M. norm_trace.
    eexists. split; [reflexivity|]. norm_trace. split; [done|]. split; [done|].
    apply scalars_ext. intros k Hk. cbn [m_settings]. unfold QSettings_setValue.
    rewrite insert_outside by (done || apply sizeKey_in_group).
    by apply QSettings_remove_outside; [apply sizeKey_in_group|].
  - intros projectFile s'. unfold removeRecentProjectsModel. run_M.
    intros Hrun. apply removeRecentProjectsScan_frame in Hrun as (Hsrc & Hbg & Hout).
    split; [done|]. split; [done|]. by apply scalars_ext.
Qed.

Lemma recentProjects_operations_frame_witness :
  ∃ s', removeRecentProjectsModel "/a"
          (set_settings {[ KEY_CODE_FONT_SIZE := QInt 9 ]} emptyState) = Some (tt, s') ∧
        codeFontSize s' = 9.
Proof.
  destruct (removeRecentProjectsModel "/a"
              (set_settings {[ KEY_CODE_FONT_SIZE := QInt 9 ]} emptyState))
    as [[[] s']|] eqn:Hrun; [|vm_compute in Hrun; discriminate].
  exists s'. split; [reflexivity|].
  destruct (proj2 (proj2 (recentProjects_operations_frame
              (set_settings {[ KEY_CODE_FONT_SIZE := QInt 9 ]} emptyState)))
              "/a" s' Hrun) as (_ & _ & (_ & _ & Hsize) & _).
  rewrite Hsize. reflexivity.
Defined.

(** ** Recent projects: clearing *)

(** X16: [clearRecentProjectsModel] empties the model and sets the
    persisted size to 0, so that the persisted array is empty and the
    invariant holds, but it does not delete the keys of the entries: the
    names and files written before stay in the store.  A following call with
    a name and a file leaves exactly that entry, in the model and in the
    persisted array. *)
Theorem clearRecentProjectsModel_spec (s : ApplicationSettings) :
  ∃ s',
    clearRecentProjectsModel s = Some (tt, s') ∧
    recentProjects s' = [] ∧
    recentProjectsSize (m_settings s') = 0 ∧
    persistedRecentProjects (m_settings s') = [] ∧
    recentProjectsInvariant s' ∧
    (∀ i key, m_settings s' !! arrayKey KEY_RECENT_PROJECTS i key
              = m_settings s !! arrayKey KEY_RECENT_PROJECTS i key) ∧
    (∀ projectName projectFile,
       projectName ≠ "" → projectFile ≠ "" →
       ∃ s'', updateRecentProjectsModel projectName projectFile s' = Some (tt, s'') ∧
              recentProjects s'' = [entry projectName projectFile] ∧
              persistedRecentProjects (m_settings s'') = [entry projectName projectFile]).
Proof.
  unfold clearRecentProjectsModel. run_M. norm_trace.
  eexists. split; [reflexivity|].
  match goal with |- recentProjects ?S = _ ∧ _ => set (s' := S) end.
  assert (Hmodel : recentProjects s' = []) by reflexivity.
  assert (Hsize : recentProjectsSize (m_settings s') = 0).
  { unfold recentProjectsSize, QSettings_value, s', QSettings_setValue. cbn [m_settings].
    by rewrite lookup_insert_eq. }
  assert (Hpers : persistedRecentProjects (m_settings s') = []).
  { unfold persistedRecentProjects. by rewrite Hsize. }
  assert (Hinv : recentProjectsInvariant s') by (by apply recentProjectsInvariant_empty).
  split; [done|]. split; [done|]. split; [done|]. split; [done|]. split.
  - intros i key. unfold s', QSettings_setValue. cbn [m_settings].
    rewrite lookup_insert_ne by (apply not_eq_sym, arrayKey_not_size).
    apply QSettings_remove_lookup_other, sizeKey_no_subkey.
  - intros projectName projectFile Hname Hfile.
    destruct (updateRecentProjectsModel_step projectName projectFile s'
                [entry projectName projectFile])
      as (s'' & Hrun & Hinv'' & Hlist); try done.
    { unfold alreadyFirst. rewrite Hmodel. cbn. by rewrite andb_false_r. }
    exists s''. split; [done|]. split; [done|].
    destruct Hinv'' as [Hp _]. by rewrite Hp.
Qed.

Lemma clearRecentProjectsModel_spec_witness :
  ∃ s' s'',
    clearRecentProjectsModel (set_recentProjects [entry "A" "/a"] emptyState)
      = Some (tt, s') ∧
    updateRecentProjectsModel "B" "/b" s' = Some (tt, s'') ∧
    recentProjects s'' = [entry "B" "/b"].
Proof.
  destruct (clearRecentProjectsModel_spec (set_recentProjects [entry "A" "/a"] emptyState))
    as (s' & Hrun & _ & _ & _ & _ & _ & Hnext).
  destruct (Hnext "B" "/b") as (s'' & Hrun' & Hlist & _).
  - discriminate.
  - discriminate.
  - exists s', s''. split; [exact Hrun|]. split; [exact Hrun'|exact Hlist].
Defined.

(** ** Recent projects: removing while model and store are in step *)

Lemma entry_key_other_slot (i j : Z) (key key' : string) :
  0 ≤ i → 0 ≤ j → i ≠ j → noSlash key' = true →
  is_subkey (arrayKey KEY_RECENT_PROJECTS i key) (arrayKey KEY_RECENT_PROJECTS j key')
  = false.
Proof.
  intros Hi Hj Hne Hkey'. unfold is_subkey. apply orb_false_iff. split.
  - apply String.eqb_neq. intros H.
    rewrite !arrayKey_unfold in H. apply append_inj_l in H.
    apply split_first_slash in H as [H _];
      try (apply onlyDigits_noSlash, onlyDigits_pretty; lia).
    apply (inj pretty) in H. lia.
  - by apply arrayKey_no_subkey.
Qed.

Lemma entry_key_size (i : Z) (key : string) :
  is_subkey (arrayKey KEY_RECENT_PROJECTS i key) (sizeKey KEY_RECENT_PROJECTS) = false.
Proof.
  unfold is_subkey. apply orb_false_iff. split.
  - apply String.eqb_neq, not_eq_sym, arrayKey_not_size.
  - apply arrayKey_no_subkey_size.
Qed.

Lemma entry_key_name_file (i : Z) :
  is_subkey (arrayKey KEY_RECENT_PROJECTS i KEY_PROJECT_FILE)
    (arrayKey KEY_RECENT_PROJECTS i KEY_PROJECT_NAME) = false.
Proof.
  unfold is_subkey. apply orb_false_iff. split.
  - apply String.eqb_neq, arrayKey_name_file.
  - by apply arrayKey_no_subkey.
Qed.

(** The store after the two [remove] calls of the scan at slot [i]. *)
Lemma persisted_after_remove (st : gmap string QVariant) (i : nat)
    (l : list MenusModel.MenusData) :
  persistedRecentProjects st = l →
  (i < length l)%nat →
  persistedRecentProjects
    (QSettings_remove
       (QSettings_remove st (arrayKey KEY_RECENT_PROJECTS (Z.of_nat i) KEY_PROJECT_NAME))
       (arrayKey KEY_RECENT_PROJECTS (Z.of_nat i) KEY_PROJECT_FILE))
  = <[i := entry "" ""]> l.
Proof.
  intros Hpers Hi. subst l. unfold persistedRecentProjects in *.
  rewrite length_fmap, length_seq in Hi.
  set (st' := QSettings_remove (QSettings_remove st _) _).
  assert (Hsize : recentProjectsSize st' = recentProjectsSize st).
  { unfold recentProjectsSize, QSettings_value, st'.
    by rewrite !QSettings_remove_lookup_other by apply entry_key_size. }
  rewrite Hsize. apply list_eq. intros j.
  rewrite list_lookup_insert, !list_lookup_fmap, length_fmap, length_seq.
  destruct (decide (j < Z.to_nat (recentProjectsSize st))%nat) as [Hj|Hj].
  2:{ rewrite lookup_seq_ge by lia. case_decide; [lia|done]. }
  rewrite lookup_seq_lt by done. cbn [fmap option_fmap option_map Nat.add].
  case_decide as Hij.
  - destruct Hij as [-> _]. f_equal.
    unfold readRecentProject, QSettings_value, st', entry. f_equal.
    + rewrite QSettings_remove_lookup_other by apply entry_key_name_file.
      by rewrite QSettings_remove_lookup.
    + by rewrite QSettings_remove_lookup.
  - f_equal. unfold readRecentProject, QSettings_value, st'.
    assert (i ≠ j) by (intros ->; apply Hij; split; [done|lia]).
    by rewrite !QSettings_remove_lookup_other by (apply entry_key_other_slot; try done; lia).
Qed.

Lemma filter_hole (l : list MenusModel.MenusData) (i : nat) :
  Forall (λ d, wellFormed d = true) l →
  List.filter wellFormed (<[i := entry "" ""]> l) = delete i l.
Proof.
  intros Hwf. revert i. induction Hwf as [|d l Hd Hl IH]; intros i; [done|].
  destruct i as [|i]; simpl.
  - by apply filter_all.
  - by rewrite Hd, IH.
Qed.

Lemma delete_filter_unique (l : list MenusModel.MenusData) (i : nat)
    (d : MenusModel.MenusData) (file : string) :
  NoDup (MenusModel.file <$> l) → l !! i = Some d → MenusModel.file d = file →
  delete i l = List.filter (otherFile file) l.
Proof.
  revert i. induction l as [|x l IH]; intros i Hnd Hlook Hfile; [done|].
  rewrite fmap_cons in Hnd. apply NoDup_cons in Hnd as [Hx Hnd].
  destruct i as [|i]; cbn in *.
  - injection Hlook as ->. unfold otherFile at 1. rewrite Hfile, String.eqb_refl. cbn.
    symmetry. apply filter_all, Forall_forall. intros y Hy.
    unfold otherFile. apply negb_true_iff, String.eqb_neq. intros Hyf.
    apply Hx. rewrite Hfile, <- Hyf. apply list_elem_of_fmap. eauto.
  - assert (MenusModel.file x ≠ file).
    { intros Hxf. apply Hx. rewrite Hxf, <- Hfile. apply list_elem_of_fmap.
      exists d. split; [done|]. by eapply list_elem_of_lookup_2. }
    unfold otherFile at 1. rewrite (proj2 (String.eqb_neq _ _)) by done. cbn.
    f_equal. by apply IH.
Qed.

Lemma filter_other_absent (l : list MenusModel.MenusData) (file : string) :
  file ∉ MenusModel.file <$> l → List.filter (otherFile file) l = l.
Proof.
  intros Hnot. apply filter_all, Forall_forall. intros d Hd.
  unfold otherFile. apply negb_true_iff, String.eqb_neq. intros Hf.
  apply Hnot, list_elem_of_fmap. eauto.
Qed.

Lemma persisted_lookup (st : gmap string QVariant) (l : list MenusModel.MenusData)
    (j : Z) :
  persistedRecentProjects st = l →
  0 ≤ j < recentProjectsSize st →
  l !! Z.to_nat j = Some (readRecentProject st j).
Proof.
  intros <- Hj. unfold persistedRecentProjects.
  rewrite list_lookup_fmap, lookup_seq_lt by lia. cbn. by rewrite Z2Nat.id by lia.
Qed.

Lemma persisted_length (st : gmap string QVariant) (l : list MenusModel.MenusData) :
  persistedRecentProjects st = l → length l = Z.to_nat (recentProjectsSize st).
Proof. intros <-. unfold persistedRecentProjects. by rewrite length_fmap, length_seq. Qed.

Lemma update_after_loaded (s : ApplicationSettings) (projectName projectFile : string) :
  recentProjectsLoaded s →
  NoDup (MenusModel.file <$> recentProjects s) →
  projectName ≠ "" → projectFile ≠ "" →
  ∃ s', updateRecentProjectsModel projectName projectFile s = Some (tt, s') ∧
        headFile s' = Some projectFile ∧
        (headFile s ≠ Some projectFile → recentProjectsInvariant s').
Proof.
  intros Hloaded Hnd Hname Hfile.
  destruct (alreadyFirst s projectFile) eqn:Hfirst.
  - exists s. split; [by apply updateRecentProjectsModel_noop|].
    apply alreadyFirst_true in Hfirst as [_ Hhead]. split; [done|]. by intros [].
  - destruct (updateRecentProjectsModel_effective projectName projectFile s)
      as (s' & d & rest & Hrun & Hinv & Hlist & Hd & _); try done.
    { unfold recentProjectsLoaded in Hloaded. by rewrite Hloaded. }
    exists s'. split; [done|]. split; [|done].
    unfold headFile. rewrite Hlist. cbn. by rewrite Hd.
Qed.

(** X17: while model and store are in step (the invariant holds, as after
    any update or clear), [removeRecentProjectsModel file] never runs out of
    range: it removes from the model exactly the entry with that file, and a
    load of the store afterwards yields the same list; a file that is not
    listed changes nothing.  A following call of [updateRecentProjectsModel]
    with a name and a file puts that file first, and restores the invariant
    unless the file was first already. *)
Theorem removeRecentProjectsModel_in_step (s : ApplicationSettings) (file : string) :
  recentProjectsInvariant s →
  ∃ s',
    removeRecentProjectsModel file s = Some (tt, s') ∧
    recentProjects s' = List.filter (otherFile file) (recentProjects s) ∧
    recentProjectsLoaded s' ∧
    (file ∉ MenusModel.file <$> recentProjects s → s' = s) ∧
    (∀ projectName projectFile,
       projectName ≠ "" → projectFile ≠ "" →
       ∃ s'', updateRecentProjectsModel projectName projectFile s' = Some (tt, s'') ∧
              headFile s'' = Some projectFile ∧
              (headFile s' ≠ Some projectFile → recentProjectsInvariant s'')).
Proof.
  intros Hinv. pose proof Hinv as (Hpers & Hwf & Hsize & Hnd).
  pose proof (persisted_length _ _ Hpers) as Hlen.
  destruct (decide (file ∈ MenusModel.file <$> recentProjects s)) as [Hin|Hnot].
  - apply list_elem_of_fmap in Hin as (d & Hd & Hin). symmetry in Hd.
    apply list_elem_of_lookup in Hin as [i Hlook].
    apply lookup_lt_Some in Hlook as Hi.
    assert (Hfirst : ∀ j, 0 ≤ j < Z.of_nat i →
              MenusModel.file (readRecentProject (m_settings s) j) ≠ file).
    { intros j Hj Hfile.
      pose proof (persisted_lookup _ _ j Hpers ltac:(lia)) as Hlj.
      assert (Z.to_nat j = i); [|lia].
      eapply (NoDup_lookup _ _ _ file Hnd); rewrite list_lookup_fmap.
      - rewrite Hlj, <- Hfile. reflexivity.
      - rewrite Hlook, <- Hd. reflexivity. }
    assert (Hmatch : MenusModel.file (readRecentProject (m_settings s) (Z.of_nat i)) = file).
    { pose proof (persisted_lookup _ _ (Z.of_nat i) Hpers ltac:(lia)) as Hli.
      rewrite Nat2Z.id, Hlook in Hli. injection Hli as <-. done. }
    unfold removeRecentProjectsModel. run_M.
    fold (recentProjectsSize (m_settings s)).
    rewrite (removeRecentProjectsScan_first_match file _ (Z.of_nat i)) by (done || lia).
    rewrite QList_removeAt_Some by (unfold QList_size; lia). rewrite Nat2Z.id.
    eexists. split; [reflexivity|].
    match goal with |- recentProjects ?S = _ ∧ _ => set (s' := S) end.
    assert (Hmodel : recentProjects s' = delete i (recentProjects s)) by reflexivity.
    assert (Hloaded : recentProjectsLoaded s').
    { unfold recentProjectsLoaded, loadedRecentProjects. rewrite Hmodel.
      unfold s'. cbn [m_settings].
      rewrite (persisted_after_remove _ i _ Hpers Hi).
      rewrite take_ge
        by (rewrite length_insert; unfold QList_size, max_items in *; lia).
      by apply filter_hole. }
    assert (Hnd' : NoDup (MenusModel.file <$> recentProjects s')).
    { rewrite Hmodel, list_fmap_delete.
      eapply sublist_NoDup; [exact Hnd|apply sublist_delete]. }
    split; [by rewrite Hmodel; eapply delete_filter_unique|].
    split; [done|]. split.
    + intros Hnot. exfalso. apply Hnot, list_elem_of_fmap. exists d. split; [done|].
      by eapply list_elem_of_lookup_2.
    + intros projectName projectFile Hname Hfile.
      by apply update_after_loaded.
  - exists s. split; [|split; [|split; [|split]]].
    + unfold removeRecentProjectsModel. run_M.
      fold (recentProjectsSize (m_settings s)).
      apply removeRecentProjectsScan_no_match. intros j Hj Hfile.
      pose proof (persisted_lookup _ _ j Hpers ltac:(lia)) as Hlj.
      apply Hnot, list_elem_of_fmap. eexists. split; [symmetry; exact Hfile|].
      by eapply list_elem_of_lookup_2.
    + symmetry. by apply filter_other_absent.
    + by apply loaded_of_invariant.
    + done.
    + intros projectName projectFile Hname Hfile.
      apply update_after_loaded; try done. by apply loaded_of_invariant.
Qed.

Lemma removeRecentProjectsModel_in_step_witness :
  ∃ s', removeRecentProjectsModel "/a"
          (set_recentProjects [entry "A" "/a"]
             (set_settings
                (<[sizeKey KEY_RECENT_PROJECTS := QInt 1]>
                 (<[arrayKey KEY_RECENT_PROJECTS 0 KEY_PROJECT_NAME := QString "A"]>
                  (<[arrayKey KEY_RECENT_PROJECTS 0 KEY_PROJECT_FILE := QString "/a"]> ∅)))
                emptyState)) = Some (tt, s') ∧
        recentProjects s' = [].
Proof.
  destruct (removeRecentProjectsModel_in_step
              (set_recentProjects [entry "A" "/a"]
                 (set_settings
                    (<[sizeKey KEY_RECENT_PROJECTS := QInt 1]>
                     (<[arrayKey KEY_RECENT_PROJECTS 0 KEY_PROJECT_NAME := QString "A"]>
                      (<[arrayKey KEY_RECENT_PROJECTS 0 KEY_PROJECT_FILE := QString "/a"]> ∅)))
                    emptyState)) "/a")
    as (s' & Hrun & Hlist & _).
  - split; [vm_compute; reflexivity|]. split; [repeat constructor|].
    split; [vm_compute; discriminate|].
    apply (bool_decide_unpack _). vm_compute. exact I.
  - exists s'. split; [exact Hrun|]. rewrite Hlist. reflexivity.
Defined.

(** X18: in every state, [removeRecentProjectsModel file] acts at the first
    slot below the persisted size whose file is [file].  When the model has
    an entry at that position, the two keys of the slot are deleted, the
    model entry at the position is removed, the size and every other slot
    (also a later one with the same file) stay as they are; when the model
    is too short for the position, the call runs into the range assertion of
    [QList::removeAt]. *)
Theorem removeRecentProjectsModel_first_slot (s : ApplicationSettings)
    (file : string) (i : Z) :
  0 ≤ i < recentProjectsSize (m_settings s) →
  (∀ j, 0 ≤ j < i →
     MenusModel.file (readRecentProject (m_settings s) j) ≠ file) →
  MenusModel.file (readRecentProject (m_settings s) i) = file →
  (QList_size (recentProjects s) ≤ i → removeRecentProjectsModel file s = None) ∧
  (i < QList_size (recentProjects s) →
   ∃ s', removeRecentProjectsModel file s = Some (tt, s') ∧
         recentProjects s' = delete (Z.to_nat i) (recentProjects s) ∧
         m_settings s' !! arrayKey KEY_RECENT_PROJECTS i KEY_PROJECT_NAME = None ∧
         m_settings s' !! arrayKey KEY_RECENT_PROJECTS i KEY_PROJECT_FILE = None ∧
         recentProjectsSize (m_settings s') = recentProjectsSize (m_settings s) ∧
         (∀ j, 0 ≤ j → j ≠ i →
            readRecentProject (m_settings s') j = readRecentProject (m_settings s) j)).
Proof.
  intros Hrange Hfirst Hmatch.
  assert (Hrun : removeRecentProjectsModel file s
                 = removeRecentProjectsScan (Z.to_nat (recentProjectsSize (m_settings s)))
                     file (recentProjectsSize (m_settings s)) 0 s) by reflexivity.
  rewrite Hrun, (removeRecentProjectsScan_first_match file _ i) by (done || lia).
  split.
  - intros Hshort. by rewrite QList_removeAt_None by lia.
  - intros Hlong. rewrite QList_removeAt_Some by lia.
    eexists. split; [reflexivity|]. cbn [m_settings].
    split; [reflexivity|]. split; [|split; [|split]].
    + rewrite QSettings_remove_lookup_other by apply entry_key_name_file.
      apply QSettings_remove_lookup.
    + apply QSettings_remove_lookup.
    + unfold recentProjectsSize, QSettings_value.
      by rewrite !QSettings_remove_lookup_other by apply entry_key_size.
    + intros j Hj Hne. unfold readRecentProject, QSettings_value.
      by rewrite !QSettings_remove_lookup_other
        by (apply entry_key_other_slot; try done; lia).
Qed.

Lemma removeRecentProjectsModel_first_slot_witness :
  removeRecentProjectsModel ""
    (set_settings {[ sizeKey KEY_RECENT_PROJECTS := QInt 1 ]} emptyState) = None.
Proof.
  apply (removeRecentProjectsModel_first_slot
           (set_settings {[ sizeKey KEY_RECENT_PROJECTS := QInt 1 ]} emptyState) "" 0).
  - vm_compute. split; [discriminate|reflexivity].
  - intros j Hj. lia.
  - vm_compute. reflexivity.
  - vm_compute. discriminate.
Defined.

(** X19: when no slot below the persisted size holds the file,
    [removeRecentProjectsModel] changes nothing: the model, the store and
    the trace are as before.  In particular slots at or beyond the persisted
    size are not looked at. *)
Theorem removeRecentProjectsModel_absent (s : ApplicationSettings) (file : string) :
  (∀ j, 0 ≤ j < recentProjectsSize (m_settings s) →
     MenusModel.file (readRecentProject (m_settings s) j) ≠ file) →
  removeRecentProjectsModel file s = Some (tt, s).
Proof.
  intros Hno.
  assert (Hrun : removeRecentProjectsModel file s
                 = removeRecentProjectsScan (Z.to_nat (recentProjectsSize (m_settings s)))
                     file (recentProjectsSize (m_settings s)) 0 s) by reflexivity.
  rewrite Hrun. by apply removeRecentProjectsScan_no_match.
Qed.

Lemma removeRecentProjectsModel_absent_witness :
  removeRecentProjectsModel "/a"
    (set_settings
       {[ arrayKey KEY_RECENT_PROJECTS 0 KEY_PROJECT_FILE := QString "/a" ]} emptyState)
  = Some (tt, set_settings
       {[ arrayKey KEY_RECENT_PROJECTS 0 KEY_PROJECT_FILE := QString "/a" ]} emptyState).
Proof.
  apply (removeRecentProjectsModel_absent
           (set_settings
              {[ arrayKey KEY_RECENT_PROJECTS 0 KEY_PROJECT_FILE := QString "/a" ]}
              emptyState) "/a").
  intros j Hj. exfalso. revert Hj. vm_compute. intros [H1 H2].
  destruct j; discriminate || (by apply H1).
Defined.

(** ** Source images: how the operations compose *)

Lemma ImagesModel_data_lookup (Name File Width Height CanRemove : Z)
    (m : ImagesModel.t) (index : QModelIndex) (item : ImagesModel.ImagesData)
    (role : Z) :
  isValid index = true →
  ImagesModel.m_modelList m !! Z.to_nat (row index) = Some item →
  ImagesModel.data Name File Width Height CanRemove m index role =
    Some (if role =? Name then QString (ImagesModel.name item)
          else if role =? File then QString (ImagesModel.file item)
          else if role =? Width then QInt (ImagesModel.width item)
          else if role =? Height then QInt (ImagesModel.height item)
          else if role =? CanRemove then QBool (ImagesModel.canRemove item)
          else QInvalid).
Proof.
  intros Hvalid Hitem. unfold ImagesModel.data. rewrite Hvalid. cbn [negb].
  apply isValid_row in Hvalid. apply lookup_lt_Some in Hitem as Hlt.
  replace (row index >=? QList_size (ImagesModel.m_modelList m)) with false
    by (symmetry; unfold QList_size; lia).
  unfold QList_at. rewrite bool_decide_eq_true_2 by (unfold QList_size; lia).
  by rewrite Hitem.
Qed.

Section SourceListComposition.

Variable toLocalFile : string → string.
Variable imageReader : string → option (Z * Z).

(** X20: in an aligned state, adding a removable image with a fresh,
    non-empty path and then removing at the index it was given is a round
    trip: both calls return true, and the source list and the persisted
    custom list are what they were. *)
Theorem add_remove_round_trip (s : ApplicationSettings) (path : string) :
  aligned s →
  path ≠ "" →
  path ∉ sourceFiles s →
  ∃ s1 s2,
    addSourceImage toLocalFile imageReader path true s = Some (true, s1) ∧
    removeSourceImage (QList_size (sourceImages s)) s1 = Some (true, s2) ∧
    sourceImages s2 = sourceImages s ∧
    customSourceImages (m_settings s2) = customSourceImages (m_settings s).
Proof.
  intros [Hlen Hfiles] Hne Hfresh.
  destruct (addSourceImage_run toLocalFile imageReader s path true)
    as (r & s1 & Hrun & _ & _ & _ & [(_ & [?|?] & _)|(-> & _ & _ & Hsrc1 & Hst1)]);
    [done|done|].
  assert (Hnot : path ∉ customSourceImages (m_settings s)).
  { intros Hin. apply Hfresh. rewrite <- Hfiles in Hin. unfold sourceFiles.
    rewrite fmap_drop in Hin. eapply elem_of_sublist; [exact Hin|apply sublist_drop]. }
  cbn [andb] in Hst1.
  replace (QStringList_contains (customSourceImages (m_settings s)) path)
    with false in Hst1.
  2:{ symmetry. destruct (QStringList_contains _ _) eqn:E; [|done].
      by apply QStringList_contains_elem in E. }
  cbn [negb] in Hst1.
  assert (Hcustom1 : customSourceImages (m_settings s1)
                     = customSourceImages (m_settings s) ++ [path])
    by (rewrite Hst1; apply customSourceImages_insert).
  assert (Hcustom : length (customSourceImages (m_settings s))
                    = (length (sourceImages s) - 4)%nat).
  { rewrite <- Hfiles, length_fmap, length_drop. done. }
  change (length defaultSources) with 4%nat in Hlen.
  assert (Hsize1 : QList_size (sourceImages s1) = QList_size (sourceImages s) + 1).
  { rewrite Hsrc1. unfold QList_size. rewrite length_app. simpl length. lia. }
  assert (Hcsize1 : QList_size (customSourceImages (m_settings s1))
                    = QList_size (sourceImages s) - 4 + 1).
  { rewrite Hcustom1. unfold QList_size. rewrite length_app, Hcustom. simpl length. lia. }
  exists s1. rewrite removeSourceImage_run.
  change (QList_size defaultSources) with 4.
  replace ((QList_size (sourceImages s) <? 0)
           || (QList_size (sourceImages s) >=? QList_size (sourceImages s1)))
    with false
    by (symmetry; apply orb_false_iff; unfold QList_size in *; lia).
  rewrite QList_removeAt_Some by (unfold QList_size in *; lia).
  eexists. split; [done|]. split; [reflexivity|].
  unfold sourceImages at 1. cbn [m_sourceImagesModel m_settings ImagesModel.m_modelList].
  rewrite customSourceImages_insert, Hsrc1, Hcustom1. unfold QList_size.
  rewrite Nat2Z.id.
  split.
  - rewrite delete_middle. apply app_nil_r.
  - replace (Z.to_nat (Z.of_nat (length (sourceImages s)) - 4))
      with (length (customSourceImages (m_settings s))) by lia.
    rewrite delete_middle. apply app_nil_r.
Qed.

(** X21: after a successful [addSourceImage] the source model has one row
    more, and [data] at the new last row returns the path as the file, the
    probed size (0 and 0 when the image cannot be read) and the removable
    flag. *)
Theorem addSourceImage_then_data (Name File Width Height CanRemove : Z)
    (s : ApplicationSettings) (path : string) (canRemove : bool) :
  NoDup [Name; File; Width; Height; CanRemove] →
  path ≠ "" →
  path ∉ sourceFiles s →
  ∃ s',
    addSourceImage toLocalFile imageReader path canRemove s = Some (true, s') ∧
    ImagesModel.rowCount (m_sourceImagesModel s')
      = ImagesModel.rowCount (m_sourceImagesModel s) + 1 ∧
    let data := ImagesModel.data Name File Width Height CanRemove
                  (m_sourceImagesModel s')
                  {| row := ImagesModel.rowCount (m_sourceImagesModel s);
                     column := 0; hasModel := true |} in
    data File = Some (QString path) ∧
    data Width = Some (QInt (default (0, 0) (imageReader (toLocalFile path))).1) ∧
    data Height = Some (QInt (default (0, 0) (imageReader (toLocalFile path))).2) ∧
    data CanRemove = Some (QBool canRemove).
Proof.
  intros Hdistinct Hne Hfresh.
  assert (Hroles : Name ≠ File ∧ Name ≠ Width ∧ Name ≠ Height ∧ Name ≠ CanRemove ∧
                   File ≠ Width ∧ File ≠ Height ∧ File ≠ CanRemove ∧
                   Width ≠ Height ∧ Width ≠ CanRemove ∧ Height ≠ CanRemove).
  { rewrite !NoDup_cons, !not_elem_of_cons in Hdistinct. intuition auto. }
  destruct Hroles as (? & ? & ? & ? & ? & ? & ? & ? & ? & ?).
  destruct (addSourceImage_run toLocalFile imageReader s path canRemove)
    as (r & s' & Hrun & _ & _ & _ & [(_ & [?|?] & _)|(-> & _ & _ & Hsrc & _)]);
    [done|done|].
  exists s'. split; [done|].
  unfold ImagesModel.rowCount. fold (sourceImages s') (sourceImages s).
  split; [rewrite Hsrc; unfold QList_size; rewrite length_app; cbn; lia|].
  cbn zeta.
  set (index := {| row := QList_size (sourceImages s); column := 0; hasModel := true |}).
  set (item := {| ImagesModel.name := ""; ImagesModel.file := path;
                  ImagesModel.width := (default (0, 0) (imageReader (toLocalFile path))).1;
                  ImagesModel.height := (default (0, 0) (imageReader (toLocalFile path))).2;
                  ImagesModel.canRemove := canRemove |}) in *.
  assert (Hvalid : isValid index = true).
  { unfold isValid, index. cbn [row column hasModel]. unfold QList_size.
    apply andb_true_iff. split; [|done]. apply andb_true_iff.
    split; apply Z.geb_le; lia. }
  assert (Hitem : ImagesModel.m_modelList (m_sourceImagesModel s') !! Z.to_nat (row index)
                  = Some item).
  { unfold index. cbn [row]. fold (sourceImages s'). rewrite Hsrc. unfold QList_size.
    rewrite Nat2Z.id. by rewrite list_lookup_middle. }
  rewrite !(ImagesModel_data_lookup _ _ _ _ _ _ _ item _ Hvalid Hitem).
  cbn [item ImagesModel.name ImagesModel.file ImagesModel.width ImagesModel.height
       ImagesModel.canRemove].
  repeat match goal with
         | |- context [?a =? ?a] => rewrite (Z.eqb_refl a)
         | H : ?a ≠ ?b |- context [?b =? ?a] =>
             rewrite (proj2 (Z.eqb_neq b a)) by (apply not_eq_sym; exact H)
         end.
  done.
Qed.

End SourceListComposition.

(** X22: [removeSourceImage] never adjusts the selection of the source
    model.  After the selected entry has been removed, [currentImageFile] is
    therefore the file of the entry that followed it, or the empty string
    when it was the last. *)
Theorem removeSourceImage_keeps_selection (s s' : ApplicationSettings)
    (index : Z) (r : bool) :
  removeSourceImage index s = Some (r, s') →
  ImagesModel.m_currentIndex (m_sourceImagesModel s')
    = ImagesModel.m_currentIndex (m_sourceImagesModel s) ∧
  (r = true →
   ImagesModel.m_currentIndex (m_sourceImagesModel s) = index →
   ImagesModel.currentImageFile (m_sourceImagesModel s')
     = Some (default ""
               (ImagesModel.file <$> sourceImages s !! S (Z.to_nat index)))).
Proof.
  rewrite removeSourceImage_run.
  destruct ((index <? 0) || (index >=? QList_size (sourceImages s))) eqn:Hguard.
  { intros [= <- <-]. split; [done|discriminate]. }
  apply orb_false_iff in Hguard as [Hnonneg Hwithin].
  destruct (QList_removeAt _ _); [|discriminate]. intros [= <- <-].
  cbn [m_sourceImagesModel ImagesModel.m_currentIndex]. split; [done|].
  intros _ Hsel.
  destruct (sourceImages s !! S (Z.to_nat index)) as [d|] eqn:Hnext.
  - apply currentImageFile_in_range; cbn [ImagesModel.m_currentIndex ImagesModel.m_modelList];
      rewrite Hsel; [lia|].
    by rewrite list_lookup_delete_ge.
  - apply currentImageFile_beyond_end.
    cbn [ImagesModel.m_currentIndex ImagesModel.m_modelList]. rewrite Hsel.
    apply lookup_ge_None in Hnext. unfold QList_size.
    rewrite length_delete by (apply lookup_lt_is_Some; unfold QList_size in *; lia).
    lia.
Qed.

Lemma add_remove_round_trip_witness :
  ∃ s1 s2,
    addSourceImage (λ p, p) (λ _, None) "a.png" true
      (set_sourceImages (replicate 4 ImagesModel.ImagesData_default) emptyState)
      = Some (true, s1) ∧
    removeSourceImage 4 s1 = Some (true, s2) ∧
    sourceImages s2 = replicate 4 ImagesModel.ImagesData_default.
Proof.
  destruct (add_remove_round_trip (λ p, p) (λ _, None)
              (set_sourceImages (replicate 4 ImagesModel.ImagesData_default) emptyState)
              "a.png")
    as (s1 & s2 & Hadd & Hrm & Hsrc & _).
  - split; [vm_compute; lia|reflexivity].
  - discriminate.
  - apply duplicate_check_false. reflexivity.
  - exists s1, s2. split; [exact Hadd|]. split; [exact Hrm|exact Hsrc].
Defined.

Lemma addSourceImage_then_data_witness :
  ∃ s', addSourceImage (λ p, p) (λ _, None) "a.png" true emptyState = Some (true, s') ∧
        ImagesModel.data 257 258 259 260 261 (m_sourceImagesModel s')
          {| row := 0; column := 0; hasModel := true |} 258 = Some (QString "a.png").
Proof.
  destruct (addSourceImage_then_data (λ p, p) (λ _, None) 257 258 259 260 261
              emptyState "a.png" true)
    as (s' & Hrun & _ & Hfile & _).
  - apply (bool_decide_unpack _). vm_compute. exact I.
  - discriminate.
  - apply not_elem_of_nil.
  - exists s'. split; [exact Hrun|exact Hfile].
Defined.

Lemma removeSourceImage_keeps_selection_witness :
  ∃ s', removeSourceImage 4
          (set_settings {[ KEY_CUSTOM_SOURCE_IMAGES := QStringList ["x"] ]}
             (set_sourceImages (replicate 5 ImagesModel.ImagesData_default) emptyState))
        = Some (true, s') ∧
        ImagesModel.m_currentIndex (m_sourceImagesModel s') = 0.
Proof.
  destruct (removeSourceImage 4
              (set_settings {[ KEY_CUSTOM_SOURCE_IMAGES := QStringList ["x"] ]}
                 (set_sourceImages (replicate 5 ImagesModel.ImagesData_default) emptyState)))
    as [[r s']|] eqn:Hrun; [|vm_compute in Hrun; discriminate].
  assert (Hr : r = true) by (vm_compute in Hrun; by injection Hrun as <- _).
  subst r. exists s'. split; [reflexivity|].
  apply (removeSourceImage_keeps_selection _ s' 4 true Hrun).
Defined.
